(** * sjtu::int2048 -- arbitrary-precision signed integers (src/code.cpp)

    A shallow embedding of the class [int2048] and of the algorithms on its
    little-endian base-10000 digit vector, followed by the properties of the
    specification that concern it.

    Conventions of the embedding.
    - [std::vector<int> a] is a [list Z], least significant block first;
      [bool neg] is a [bool].
    - C++ [/] and [%] truncate toward zero: they are [Z.quot] and [Z.rem].
    - Loops that walk an index range are recursions on the number of
      iterations left and carry the index explicitly; loops whose exit test
      is not a plain range ([while]) carry a fuel argument and test the exit
      condition of the source at every step.
    - [int] and [long long] intermediates are unbounded [Z]: on digit blocks
      in [0, BASE) every sum and product formed by the loops stays below
      [BASE * BASE], far inside the range of [int] (see [BASE_sq_int] and
      the bounds on [cur] in the loop lemmas), and vector sizes are taken
      to fit an [int].  The one place where wrap-around is the point, the
      constructor from [long long], has its 64-bit arithmetic written out.
    - A member function that updates [*this] is a function from the old
      value (and the argument) to the new one; the value-returning friends
      ([add], [minus], [operator+], [operator-], [operator*], [operator/],
      [operator%]) apply the member to a copy of their first argument and
      are the same functions. *)

From Stdlib Require Import Ascii String DecimalString.
From Stdlib Require Import ZArith List Bool Lia.
Import ListNotations.
Local Open Scope Z_scope.

(** ** Data model *)

Definition BASE : Z := 10000.
Definition BASE_DIGS : Z := 4.

Record int2048 : Type := Int2048 { a : list Z; neg : bool }.

(** [int2048::int2048()] *)
Definition zero : int2048 := Int2048 [] false.

(** [a.back()] and [a.pop_back()] *)
Definition back (l : list Z) : Z := last l 0.
Definition pop_back (l : list Z) : list Z := removelast l.

(** The loop of [trim]: [while (!a.empty() && a.back() == 0) a.pop_back();] *)
Fixpoint pop_zeros (fuel : nat) (l : list Z) : list Z :=
  match fuel with
  | O => l
  | S f =>
      if negb (Nat.eqb (length l) 0) && (back l =? 0)
      then pop_zeros f (pop_back l)
      else l
  end.

Definition trim_digits (l : list Z) : list Z := pop_zeros (length l) l.

(** [bool int2048::is_zero() const] *)
Definition is_zero (x : int2048) : bool := Nat.eqb (length (a x)) 0.

(** [void int2048::trim()] *)
Definition trim (x : int2048) : int2048 :=
  let l := trim_digits (a x) in
  Int2048 l (if Nat.eqb (length l) 0 then false else neg x).

(** The loop of [abs_compare], entered with [cnt = i + 1]:
    [for (int i = size - 1; i >= 0; --i) if (a[i] != b.a[i]) return ...] *)
Fixpoint cmp_digits (cnt : nat) (xa ya : list Z) : Z :=
  match cnt with
  | O => 0
  | S i =>
      if negb (nth i xa 0 =? nth i ya 0)
      then (if nth i xa 0 <? nth i ya 0 then -1 else 1)
      else cmp_digits i xa ya
  end.

(** [int int2048::abs_compare(const int2048 &b) const] *)
Definition abs_compare (x b : int2048) : Z :=
  if negb (Nat.eqb (length (a x)) (length (a b)))
  then (if Nat.ltb (length (a x)) (length (a b)) then -1 else 1)
  else cmp_digits (length (a x)) (a x) (a b).

(** ** Construction from a native integer *)

(** Two's-complement negation of a [long long] and the conversion to
    [unsigned long long]. *)
Definition wrap_s64 (z : Z) : Z := (z + 2 ^ 63) mod 2 ^ 64 - 2 ^ 63.
Definition to_u64 (z : Z) : Z := z mod 2 ^ 64.

(** [while (x) { a.push_back((int)(x % BASE)); x /= BASE; }] *)
Fixpoint push_blocks (fuel : nat) (x : Z) (acc : list Z) : list Z :=
  match fuel with
  | O => acc
  | S f =>
      if negb (x =? 0)
      then push_blocks f (Z.quot x BASE) (acc ++ [Z.rem x BASE])
      else acc
  end.

(** [int2048::int2048(long long v)].  A 64-bit magnitude has at most five
    base-10000 blocks, so the fuel 64 is never exhausted
    (see [push_blocks_done]). *)
Definition of_ll (v : Z) : int2048 :=
  let ng := v <? 0 in
  let x := if ng then to_u64 (wrap_s64 (- v)) else to_u64 v in
  trim (Int2048 (push_blocks 64 x []) ng).

(** [int2048::int2048(const int2048 &)] and [operator=] *)
Definition copy (o : int2048) : int2048 := Int2048 (a o) (neg o).

(** ** Magnitude addition and subtraction *)

(** Element [i] of a vector, read only where the source guards the index. *)
Definition at_ (l : list Z) (i : nat) : Z := nth i l 0.

(** The loop of [add_abs] from index [i] on, [cnt] iterations left; returns
    the blocks written at [i, i + cnt) and the final carry. *)
Fixpoint add_loop (cnt i : nat) (xa ya : list Z) (carry : Z) : list Z * Z :=
  match cnt with
  | O => ([], carry)
  | S c =>
      let cur := carry in
      let cur := if Nat.ltb i (length xa) then cur + at_ xa i else cur in
      let cur := if Nat.ltb i (length ya) then cur + at_ ya i else cur in
      let '(rest, out) := add_loop c (S i) xa ya (Z.quot cur BASE) in
      (Z.rem cur BASE :: rest, out)
  end.

(** [static int2048 add_abs(const int2048 &x, const int2048 &y)] *)
Definition add_abs (x y : int2048) : int2048 :=
  let n := Nat.max (length (a x)) (length (a y)) in
  let '(r, carry) := add_loop n 0 (a x) (a y) 0 in
  Int2048 (if negb (carry =? 0) then r ++ [carry] else r) false.

(** The loop of [sub_abs]: the blocks written at [i, i + cnt). *)
Fixpoint sub_loop (cnt i : nat) (xa ya : list Z) (carry : Z) : list Z :=
  match cnt with
  | O => []
  | S c =>
      let cur := at_ xa i - carry - (if Nat.ltb i (length ya) then at_ ya i else 0) in
      if cur <? 0
      then (cur + BASE) :: sub_loop c (S i) xa ya 1
      else cur :: sub_loop c (S i) xa ya 0
  end.

(** [static int2048 sub_abs(const int2048 &x, const int2048 &y)],
    which assumes [|x| >= |y|]. *)
Definition sub_abs (x y : int2048) : int2048 :=
  let r := trim (Int2048 (sub_loop (length (a x)) 0 (a x) (a y) 0) false) in
  Int2048 (a r) false.

(** ** Signed addition, subtraction, negation *)

(** [int2048 &int2048::add(const int2048 &b)], also [operator+=] and [operator+] *)
Definition add (x b : int2048) : int2048 :=
  let sx := neg x in
  let sb := neg b in
  if Bool.eqb sx sb then
    let r := add_abs x b in
    Int2048 (a r) (sx && negb (is_zero r))
  else
    let cmp := abs_compare x b in
    if cmp =? 0 then Int2048 [] false
    else if cmp >? 0 then Int2048 (a (sub_abs x b)) sx
    else Int2048 (a (sub_abs b x)) sb.

(** [int2048 &int2048::minus(const int2048 &b)], also [operator-=] and
    [operator-] *)
Definition minus (x b : int2048) : int2048 :=
  let sx := neg x in
  let sb := neg b in
  if negb (Bool.eqb sx sb) then
    let r := add_abs x b in
    Int2048 (a r) (sx && negb (is_zero r))
  else
    let cmp := abs_compare x b in
    if cmp =? 0 then Int2048 [] false
    else if cmp >? 0 then Int2048 (a (sub_abs x b)) sx
    else Int2048 (a (sub_abs b x)) (negb sb).

(** [int2048 int2048::operator-() const] *)
Definition opp (x : int2048) : int2048 :=
  let r := copy x in
  if negb (is_zero r) then Int2048 (a r) (negb (neg r)) else r.

(** [int2048 int2048::operator+() const] *)
Definition uplus (x : int2048) : int2048 := x.

(** ** Multiplication *)

(** [r.a[i] = v].  The source never writes outside the vector (see
    [mul_simple_in_range] for [mul_simple] and [div_inv] for the quotient);
    there the model leaves the vector unchanged. *)
Fixpoint set_at (l : list Z) (i : nat) (v : Z) : list Z :=
  match l, i with
  | [], _ => []
  | _ :: t, O => v :: t
  | d :: t, S j => d :: set_at t j v
  end.

(** The inner loop of [mul_simple] for the block [xi = x.a[i]]:
    [for (size_t j = 0; j < y.a.size() || carry; ++j)].  The second
    component is [true] when the loop left through its exit test with every
    access inside the vector. *)
Fixpoint mul_inner (fuel : nat) (xi : Z) (ya : list Z) (i j : nat)
    (r : list Z) (carry : Z) : list Z * bool :=
  match fuel with
  | O => (r, false)
  | S f =>
      if Nat.ltb j (length ya) || negb (carry =? 0) then
        let cur := at_ r (i + j) + carry
                   + 1 * xi * (if Nat.ltb j (length ya) then at_ ya j else 0) in
        let '(r', ok) := mul_inner f xi ya i (S j)
                           (set_at r (i + j) (Z.rem cur BASE)) (Z.quot cur BASE) in
        (r', Nat.ltb (i + j) (length r) && ok)
      else (r, true)
  end.

(** The outer loop of [mul_simple] from index [i] on. *)
Fixpoint mul_outer (cnt i : nat) (xa ya : list Z) (r : list Z) : list Z * bool :=
  match cnt with
  | O => (r, true)
  | S c =>
      let '(r1, ok1) := mul_inner (length ya + 2) (at_ xa i) ya i 0 r 0 in
      let '(r2, ok2) := mul_outer c (S i) xa ya r1 in
      (r2, ok1 && ok2)
  end.

(** [static int2048 mul_simple(const int2048 &x, const int2048 &y)] *)
Definition mul_simple (x y : int2048) : int2048 :=
  let r := zero in
  if is_zero x || is_zero y then r
  else
    let ra := repeat 0 (length (a x) + length (a y)) in
    let ra := fst (mul_outer (length (a x)) 0 (a x) (a y) ra) in
    let r := trim (Int2048 ra (neg r)) in
    Int2048 (a r) false.

(** [static int2048 mul_fft(const int2048 &x, const int2048 &y)] *)
Definition mul_fft (x y : int2048) : int2048 := mul_simple x y.

(** The loop of [mul_by_int]. *)
Fixpoint scale_loop (cnt i : nat) (xa : list Z) (m carry : Z) : list Z * Z :=
  match cnt with
  | O => ([], carry)
  | S c =>
      let cur := 1 * at_ xa i * m + carry in
      let '(rest, out) := scale_loop c (S i) xa m (Z.quot cur BASE) in
      (Z.rem cur BASE :: rest, out)
  end.

(** [static int2048 mul_by_int(const int2048 &x, int m)] *)
Definition mul_by_int (x : int2048) (m : Z) : int2048 :=
  if is_zero x || (m =? 0) then zero
  else
    let '(r, carry) := scale_loop (length (a x)) 0 (a x) m 0 in
    Int2048 (if negb (carry =? 0) then r ++ [carry] else r) false.

(** [int2048 x = *this; x.neg = false;] *)
Definition abs_copy (x : int2048) : int2048 := Int2048 (a (copy x)) false.

(** [int2048 &int2048::operator*=(const int2048 &b)], also [operator*] *)
Definition mul (x b : int2048) : int2048 :=
  let sign := negb (Bool.eqb (neg x) (neg b)) in
  let x' := abs_copy x in
  let y' := abs_copy b in
  let r := mul_fft x' y' in
  Int2048 (a r) (sign && negb (is_zero r)).

(** ** Division *)

(** The quotient-digit search of [divmod_abs]:
    [while (low <= high) { mid = (low + high) >> 1; ... }] *)
Fixpoint search_digit (fuel : nat) (vshift rem : int2048) (low high best : Z) : Z :=
  match fuel with
  | O => best
  | S f =>
      if low <=? high then
        let mid := Z.shiftr (low + high) 1 in
        let t := mul_by_int vshift mid in
        let cmp := abs_compare t rem in
        if cmp <=? 0 then search_digit f vshift rem (mid + 1) high mid
        else search_digit f vshift rem low (mid - 1) best
      else best
  end.

(** The digit found for one position; the interval [0, BASE-1] is emptied
    in at most [BASE] halvings (see [search_digit_fuel]). *)
Definition quot_digit (vshift rem : int2048) : Z :=
  search_digit (Z.to_nat BASE) vshift rem 0 (BASE - 1) 0.

(** The state of the long-division loop. *)
Record div_state : Type :=
  DivState { ds_vshift : int2048; ds_rem : int2048; ds_q : list Z }.

(** One iteration of [for (int pos = k; pos >= 0; --pos)], after the search
    has found [best]: the update of [rem], [q.a[pos]] and [vshift]. *)
Definition div_update (pos : Z) (st : div_state) (best : Z) : div_state :=
  let vshift := ds_vshift st in
  let rem :=
    if negb (best =? 0)
    then sub_abs (ds_rem st) (mul_by_int vshift best)
    else ds_rem st in
  let q := set_at (ds_q st) (Z.to_nat pos) best in
  let va := if negb (Nat.eqb (length (a vshift)) 0) then tl (a vshift) else a vshift in
  DivState (trim (Int2048 va (neg vshift))) rem q.

(** One iteration: the search, then the update. *)
Definition div_body (pos : Z) (st : div_state) : div_state :=
  div_update pos st (quot_digit (ds_vshift st) (ds_rem st)).

(** The loop itself: [cnt] iterations from position [pos] downward. *)
Fixpoint div_loop (cnt : nat) (pos : Z) (st : div_state) : div_state :=
  match cnt with
  | O => st
  | S c => if pos >=? 0 then div_loop c (pos - 1) (div_body pos st) else st
  end.

(** The state in which the loop is entered. *)
Definition div_init (u v : int2048) : div_state :=
  let k := Z.of_nat (length (a u)) - Z.of_nat (length (a v)) in
  let vshift :=
    if k >? 0 then Int2048 (repeat 0 (Z.to_nat k) ++ a v) (neg v) else v in
  DivState vshift u (repeat 0 (Z.to_nat (k + 1))).

(** [static void divmod_abs(u, v, q, r)], returning [(q, r)]. *)
Definition divmod_abs (u v : int2048) : int2048 * int2048 :=
  let q := of_ll 0 in
  let r := of_ll 0 in
  if is_zero v then (q, r)
  else if abs_compare u v <? 0 then (q, u)
  else
    let k := Z.of_nat (length (a u)) - Z.of_nat (length (a v)) in
    let st := div_loop (Z.to_nat (k + 1)) k (div_init u v) in
    (trim (Int2048 (ds_q st) (neg q)), Int2048 (a (ds_rem st)) false).

(** [int2048 &int2048::operator/=(const int2048 &b)], also [operator/] *)
Definition div (x b : int2048) : int2048 :=
  let neg_res := negb (Bool.eqb (neg x) (neg b)) in
  let A := abs_copy x in
  let B := abs_copy b in
  let '(qa, ra) := divmod_abs A B in
  if neg_res && negb (is_zero ra)
  then Int2048 (a (add_abs qa (of_ll 1))) true
  else Int2048 (a qa) (neg_res && negb (is_zero qa)).

(** [int2048 &int2048::operator%=(const int2048 &b)], also [operator%].
    Each branch first overwrites [*this] and only then touches
    [this->neg]: [this] below is the value after the assignment. *)
Definition modulo (x b : int2048) : int2048 :=
  let q := div x b in
  let prod := mul q b in
  if negb (Bool.eqb (neg x) (neg prod)) then
    let this := add_abs x prod in
    Int2048 (a this) (neg this)
  else
    let cmp := abs_compare x prod in
    if cmp =? 0 then Int2048 [] false
    else if cmp >? 0 then
      let this := sub_abs x prod in
      Int2048 (a this) (neg this)
    else
      let this := sub_abs prod x in
      Int2048 (a this) (negb (neg prod)).

(** ** Comparison *)

(** [bool operator==(const int2048 &x, const int2048 &y)] *)
Definition eq_op (x y : int2048) : bool :=
  Bool.eqb (neg x) (neg y) && (if list_eq_dec Z.eq_dec (a x) (a y) then true else false).

(** [bool operator<(const int2048 &x, const int2048 &y)] *)
Definition lt_op (x y : int2048) : bool :=
  if negb (Bool.eqb (neg x) (neg y)) then neg x && negb (is_zero x)
  else
    let cmp := abs_compare x y in
    if neg x then cmp >? 0 else cmp <? 0.

(** [bool operator!=(const int2048 &x, const int2048 &y) { return !(x == y); }] *)
Definition ne_op (x y : int2048) : bool := negb (eq_op x y).

(** [bool operator>(const int2048 &x, const int2048 &y) { return y < x; }] *)
Definition gt_op (x y : int2048) : bool := lt_op y x.

(** [bool operator<=(const int2048 &x, const int2048 &y) { return !(y < x); }] *)
Definition le_op (x y : int2048) : bool := negb (lt_op y x).

(** [bool operator>=(const int2048 &x, const int2048 &y) { return !(x < y); }] *)
Definition ge_op (x y : int2048) : bool := negb (lt_op x y).

(** ** Text input *)

(** The code of a character and [s[i]] for an index inside the string. *)
Definition code (c : ascii) : Z := Z.of_N (N_of_ascii c).
Definition char_at (s : list ascii) (i : Z) : ascii := nth (Z.to_nat i) s Ascii.zero.

(** [' '], ['\n'], ['\r'], ['\t'], ['\v'], ['\f'] *)
Definition is_space (c : ascii) : bool :=
  (code c =? 32) || (code c =? 10) || (code c =? 13)
  || (code c =? 9) || (code c =? 11) || (code c =? 12).

(** [c >= '0' && c <= '9'] *)
Definition is_digit (c : ascii) : bool := (code c >=? 48) && (code c <=? 57).

(** [while (i < n && (s[i] == ' ' || ...)) ++i;] *)
Fixpoint skip_spaces (fuel : nat) (s : list ascii) (n i : Z) : Z :=
  match fuel with
  | O => i
  | S f =>
      if (i <? n) && is_space (char_at s i)
      then skip_spaces f s n (i + 1)
      else i
  end.

(** [while (end >= i && !(s[end] >= '0' && s[end] <= '9')) --end;] *)
Fixpoint last_digit (fuel : nat) (s : list ascii) (i e : Z) : Z :=
  match fuel with
  | O => e
  | S f =>
      if (e >=? i) && negb (is_digit (char_at s e))
      then last_digit f s i (e - 1)
      else e
  end.

(** [for (int t = l; t <= p; ++t) if (digit) val = val * 10 + (s[t] - '0');]
    with [cnt = p - t + 1] iterations left. *)
Fixpoint block_value (cnt : nat) (s : list ascii) (t : Z) (val : Z) : Z :=
  match cnt with
  | O => val
  | S c =>
      block_value c s (t + 1)
        (if is_digit (char_at s t) then val * 10 + (code (char_at s t) - 48) else val)
  end.

(** [for (int p = end; p >= i; p -= BASE_DIGS) { ...; a.push_back(val); }] *)
Fixpoint read_blocks (fuel : nat) (s : list ascii) (i p : Z) (acc : list Z) : list Z :=
  match fuel with
  | O => acc
  | S f =>
      if p >=? i then
        let l := p - (BASE_DIGS - 1) in
        let l := if l <? i then i else l in
        read_blocks f s i (p - BASE_DIGS)
          (acc ++ [block_value (Z.to_nat (p - l + 1)) s l 0])
      else acc
  end.

(** The position after the blanks and the optional sign, with the sign. *)
Definition read_sign (cs : list ascii) : bool * Z :=
  let n := Z.of_nat (length cs) in
  let i := skip_spaces (length cs) cs n 0 in
  if (i <? n) && ((code (char_at cs i) =? 43) || (code (char_at cs i) =? 45))
  then (code (char_at cs i) =? 45, i + 1)
  else (false, i).

(** [void int2048::read(const std::string &s)] *)
Definition read (s : string) : int2048 :=
  let cs := list_ascii_of_string s in
  let n := Z.of_nat (length cs) in
  let '(ng, i) := read_sign cs in
  let e := last_digit (length cs) cs i (n - 1) in
  if e <? i then Int2048 [] false
  else
    let x := trim (Int2048 (read_blocks (length cs) cs i e []) ng) in
    if is_zero x then Int2048 (a x) false else x.

(** [int2048::int2048(const std::string &s)] *)
Definition of_string (s : string) : int2048 := read s.

(** ** Text output *)

(** [os << n] for an [int]: its decimal numeral. *)
Definition show_int (v : Z) : string := NilZero.string_of_int (Z.to_int v).

(** The loop of [print], entered with [cnt = i + 1]:
    [for (--i; i >= 0; --i) { cout << v / 1000 << (v / 100) % 10 << ... }] *)
Fixpoint print_blocks (cnt : nat) (xa : list Z) : string :=
  match cnt with
  | O => EmptyString
  | S i =>
      let v := at_ xa i in
      (show_int (Z.quot v 1000) ++ show_int (Z.rem (Z.quot v 100) 10)
       ++ show_int (Z.rem (Z.quot v 10) 10) ++ show_int (Z.rem v 10)
       ++ print_blocks i xa)%string
  end.

(** [void int2048::print()]: the characters sent to [std::cout]. *)
Definition print (x : int2048) : string :=
  if is_zero x then show_int 0
  else
    let i := (length (a x) - 1)%nat in
    ((if neg x then "-" else "") ++ show_int (at_ (a x) i) ++ print_blocks i (a x))%string.

(** [char(n)] and [buf[k] = c] on a [char] array. *)
Definition to_char (n : Z) : ascii := ascii_of_N (Z.to_N (n mod 256)).

Fixpoint set_char (buf : list ascii) (k : nat) (c : ascii) : list ascii :=
  match buf, k with
  | [], _ => []
  | _ :: t, O => c :: t
  | b :: t, S j => b :: set_char t j c
  end.

(** [for (int k = 3; k >= 0; --k) { buf[k] = char('0' + (v % 10)); v /= 10; }]
    entered with [cnt = k + 1]. *)
Fixpoint fill_buf (cnt : nat) (v : Z) (buf : list ascii) : list ascii :=
  match cnt with
  | O => buf
  | S k => fill_buf k (Z.quot v 10) (set_char buf k (to_char (48 + Z.rem v 10)))
  end.

(** [os << buf] for a [char] array: the characters before the first NUL. *)
Fixpoint c_str (buf : list ascii) : string :=
  match buf with
  | [] => EmptyString
  | c :: t => if (code c =? 0) then EmptyString else String c (c_str t)
  end.

(** The loop of [operator<<], entered with [cnt = i + 1]. *)
Fixpoint stream_blocks (cnt : nat) (xa : list Z) : string :=
  match cnt with
  | O => EmptyString
  | S i =>
      let buf := fill_buf 4 (at_ xa i) (repeat Ascii.zero 5) in
      (c_str buf ++ stream_blocks i xa)%string
  end.

(** [std::ostream &operator<<(std::ostream &os, const int2048 &x)]:
    the characters sent to [os]. *)
Definition stream_out (x : int2048) : string :=
  if is_zero x then show_int 0
  else
    let i := (length (a x) - 1)%nat in
    ((if neg x then "-" else "") ++ show_int (at_ (a x) i) ++ stream_blocks i (a x))%string.

(** * Specification-level notions *)

(** The magnitude denoted by a digit vector and the integer denoted by a
    value. *)
Fixpoint val (l : list Z) : Z :=
  match l with
  | [] => 0
  | d :: t => d + BASE * val t
  end.

Definition value (x : int2048) : Z := if neg x then - val (a x) else val (a x).

(** Invariants of section 3 of the specification: every block is in
    [0, BASE), the most significant stored block is nonzero (Invariant 1),
    and zero carries no sign (Invariant 2). *)
Definition digit_ok (d : Z) : bool := (0 <=? d) && (d <? BASE).
Definition digits_ok (l : list Z) : bool := forallb digit_ok l.
Definition canonical (l : list Z) : bool := negb (last l 1 =? 0).
Definition no_signed_zero (x : int2048) : bool := negb (is_zero x) || negb (neg x).

Definition canonical_form (x : int2048) : bool := canonical (a x) && no_signed_zero x.
Definition wf (x : int2048) : bool := digits_ok (a x) && canonical_form x.

(** A magnitude: a well-formed value without sign. *)
Definition magnitude (x : int2048) : bool := wf x && negb (neg x).

(** Trailing zero blocks removed, by recursion on the vector. *)
Fixpoint strip (l : list Z) : list Z :=
  match l with
  | [] => []
  | d :: t =>
      match strip t with
      | [] => if d =? 0 then [] else [d]
      | t' => d :: t'
      end
  end.

(** Three-way comparison of integers, with the results of [abs_compare]. *)
Definition cmpZ (x y : Z) : Z := if x <? y then -1 else if x =? y then 0 else 1.


(** The number of positions of the long division of [u] by [v], minus one,
    and the state in which the loop enters position [pos]. *)
Definition div_top (u v : int2048) : Z :=
  Z.of_nat (length (a u)) - Z.of_nat (length (a v)).

Definition div_at (u v : int2048) (pos : Z) : div_state :=
  div_loop (Z.to_nat (div_top u v - pos)) (div_top u v) (div_init u v).

(** [d] is the largest digit whose multiple of [V] does not exceed [R]. *)
Definition largest_digit (V R d : Z) : Prop :=
  0 <= d <= BASE - 1 /\ d * V <= R /\
  forall d', 0 <= d' <= BASE - 1 -> d' * V <= R -> d' <= d.

(** The invariant of the long-division loop with [n] positions left: the
    divisor is shifted by [n - 1] blocks, the running remainder is below
    [BASE^n * v], the digits at the [n] low positions are still zero and
    the digits [qhi] found so far account for the rest of [u]. *)
Definition div_inv (u v : int2048) (n : nat) (st : div_state) (qhi : list Z) : Prop :=
  (forall p, n = S p -> a (ds_vshift st) = repeat 0 p ++ a v) /\
  wf (ds_rem st) = true /\
  val (a (ds_rem st)) < BASE ^ Z.of_nat n * val (a v) /\
  ds_q st = repeat 0 n ++ qhi /\ digits_ok qhi = true /\
  val (a u) = BASE ^ Z.of_nat n * val qhi * val (a v) + val (a (ds_rem st)).

(** The formatting boundary in the words of section 6 of the
    specification: ["0"] for zero, a leading ['-'] for negative values, the
    most significant block unpadded, every later block zero-padded to
    exactly four decimal digits. *)
Fixpoint zeros (n : nat) : string :=
  match n with
  | O => EmptyString
  | S k => String "0" (zeros k)
  end.

Definition pad4 (v : Z) : string :=
  (zeros (4 - String.length (show_int v)) ++ show_int v)%string.

Fixpoint padded_blocks (l : list Z) : string :=
  match l with
  | [] => EmptyString
  | v :: t => (pad4 v ++ padded_blocks t)%string
  end.

Definition canonical_text (x : int2048) : string :=
  match rev (a x) with
  | [] => "0"%string
  | top :: rest =>
      ((if neg x then "-" else "") ++ show_int top ++ padded_blocks rest)%string
  end.

(** The text of one non-leading block as [print] and as [operator<<]
    produce it. *)
Definition print_block (v : Z) : string :=
  (show_int (Z.quot v 1000) ++ show_int (Z.rem (Z.quot v 100) 10)
   ++ show_int (Z.rem (Z.quot v 10) 10) ++ show_int (Z.rem v 10))%string.

Definition stream_block (v : Z) : string :=
  c_str (fill_buf 4 v (repeat Ascii.zero 5)).

Definition blocks_agree (v : Z) : bool :=
  String.eqb (print_block v) (pad4 v) && String.eqb (stream_block v) (pad4 v)
  && Nat.eqb (String.length (pad4 v)) 4.

(** The parsing boundary in the words of the specification: the blanks in
    front, the optional sign, and the longest run of digit characters that
    ends at the last digit character of the text. *)
Fixpoint take_spaces (l : list ascii) : list ascii :=
  match l with
  | c :: t => if is_space c then c :: take_spaces t else []
  | [] => []
  end.

Fixpoint drop_spaces (l : list ascii) : list ascii :=
  match l with
  | c :: t => if is_space c then drop_spaces t else l
  | [] => []
  end.

Definition is_sign (c : ascii) : bool := (code c =? 43) || (code c =? 45).

Definition strip_sign (l : list ascii) : bool * list ascii :=
  match l with
  | c :: t => if is_sign c then (code c =? 45, t) else (false, l)
  | [] => (false, [])
  end.

Definition non_digit (c : ascii) : bool := negb (is_digit c).

Fixpoint take_digits (l : list ascii) : list ascii :=
  match l with
  | c :: t => if is_digit c then c :: take_digits t else []
  | [] => []
  end.

Fixpoint drop_nondigits (l : list ascii) : list ascii :=
  match l with
  | c :: t => if is_digit c then l else drop_nondigits t
  | [] => []
  end.

(** The text without the non-digit characters at its end, and the longest
    run of digits at the end of that. *)
Definition rstrip (l : list ascii) : list ascii := rev (drop_nondigits (rev l)).
Definition trailing_run (l : list ascii) : list ascii :=
  rev (take_digits (drop_nondigits (rev l))).

(** The decimal value of a run of digit characters. *)
Definition dec_step (v : Z) (c : ascii) : Z := v * 10 + (code c - 48).
Definition decimal (ds : list ascii) : Z := fold_left dec_step ds 0.

(** The step of [block_value]: characters that are not digits are passed
    over. *)
Definition guarded_step (v : Z) (c : ascii) : Z :=
  if is_digit c then v * 10 + (code c - 48) else v.

(** The characters of a padded block are four digits that spell the block;
    those of a leading block are digits that spell it without a leading
    ['0'].  Both are checked on all blocks by evaluation. *)
Definition block_chars_ok (v : Z) : bool :=
  let l := list_ascii_of_string (pad4 v) in
  forallb is_digit l && (decimal l =? v) && Nat.eqb (length l) 4.

Definition top_chars_ok (v : Z) : bool :=
  let l := list_ascii_of_string (show_int v) in
  forallb is_digit l && (decimal l =? v)
  && match l with
     | [] => false
     | c :: _ => negb (code c =? 48) || (v =? 0)
     end.

(** The sign character in front of a printed value. *)
Definition sign_chars (s : bool) : list ascii := if s then ["-"%char] else [].

(** The blocks that [read] forms from a text that ends in a digit: the
    text is cut into groups of four characters from its end, and each group
    is read as a number with its non-digit characters passed over.  The
    function works on the reversed text. *)
Fixpoint blocks_of_rev (fuel : nat) (r : list ascii) : list Z :=
  match fuel with
  | O => []
  | S f =>
      match r with
      | [] => []
      | _ :: _ =>
          fold_left guarded_step (rev (firstn 4 r)) 0 :: blocks_of_rev f (skipn 4 r)
      end
  end.

Definition text_blocks (l : list ascii) : list Z := blocks_of_rev (length l) (rev l).
(** * Properties *)

(** ** Digit vectors and their magnitude *)

Lemma BASE_pos : 0 < BASE.
Proof. reflexivity. Qed.

Lemma BASE_pow_pos (n : nat) : 0 < BASE ^ Z.of_nat n.
Proof. apply Z.pow_pos_nonneg; [reflexivity | lia]. Qed.

Lemma BASE_pow_succ (n : nat) : BASE ^ Z.of_nat (S n) = BASE * BASE ^ Z.of_nat n.
Proof. rewrite Nat2Z.inj_succ, Z.pow_succ_r by lia. reflexivity. Qed.

Lemma digit_ok_iff (d : Z) : digit_ok d = true <-> 0 <= d < BASE.
Proof. unfold digit_ok. rewrite andb_true_iff, Z.leb_le, Z.ltb_lt. tauto. Qed.

Lemma digits_ok_cons (d : Z) (l : list Z) :
  digits_ok (d :: l) = true <-> 0 <= d < BASE /\ digits_ok l = true.
Proof.
  unfold digits_ok; simpl. rewrite andb_true_iff, digit_ok_iff. tauto.
Qed.

Lemma digits_ok_app (l1 l2 : list Z) :
  digits_ok (l1 ++ l2) = true <-> digits_ok l1 = true /\ digits_ok l2 = true.
Proof.
  unfold digits_ok. rewrite forallb_app, andb_true_iff. tauto.
Qed.

Lemma digits_ok_nth (l : list Z) (i : nat) :
  digits_ok l = true -> 0 <= nth i l 0 < BASE.
Proof.
  revert i; induction l as [|d t IH]; intros i H.
  - destruct i; simpl; unfold BASE; lia.
  - apply digits_ok_cons in H. destruct H as [Hd Ht].
    destruct i; simpl; [exact Hd | apply IH, Ht].
Qed.

Lemma digits_ok_repeat (n : nat) : digits_ok (repeat 0 n) = true.
Proof. induction n; simpl; [reflexivity | exact IHn]. Qed.

Lemma val_app (l1 l2 : list Z) :
  val (l1 ++ l2) = val l1 + BASE ^ Z.of_nat (length l1) * val l2.
Proof.
  induction l1 as [|d t IH].
  - cbn [app val length]. change (BASE ^ Z.of_nat 0) with 1. lia.
  - cbn [app val length]. rewrite IH, BASE_pow_succ. ring.
Qed.

Lemma val_repeat (n : nat) : val (repeat 0 n) = 0.
Proof. induction n; simpl; [reflexivity | rewrite IHn; reflexivity]. Qed.

Lemma val_bound (l : list Z) :
  digits_ok l = true -> 0 <= val l < BASE ^ Z.of_nat (length l).
Proof.
  induction l as [|d t IH]; intros H.
  - simpl. lia.
  - apply digits_ok_cons in H. destruct H as [Hd Ht]. specialize (IH Ht).
    cbn [val length]. rewrite BASE_pow_succ. unfold BASE in *. nia.
Qed.

Lemma val_nonneg (l : list Z) : digits_ok l = true -> 0 <= val l.
Proof. intros H. apply val_bound in H. lia. Qed.

Lemma val_skipn (l : list Z) (i : nat) :
  val (skipn i l) = nth i l 0 + BASE * val (skipn (S i) l).
Proof.
  revert i; induction l as [|d t IH]; intros i.
  - destruct i; reflexivity.
  - destruct i.
    + reflexivity.
    + change (skipn (S i) (d :: t)) with (skipn i t).
      change (skipn (S (S i)) (d :: t)) with (skipn (S i) t).
      simpl nth. apply IH.
Qed.

Lemma val_skipn_all (l : list Z) (i : nat) :
  (length l <= i)%nat -> val (skipn i l) = 0.
Proof. intros H. rewrite skipn_all2 by exact H. reflexivity. Qed.

Lemma val_firstn_succ (l : list Z) (i : nat) :
  val (firstn (S i) l) = val (firstn i l) + BASE ^ Z.of_nat i * nth i l 0.
Proof.
  revert i; induction l as [|d t IH]; intros i.
  - rewrite !firstn_nil. replace (nth i [] 0) with 0 by (destruct i; reflexivity).
    cbn [val]. ring.
  - destruct i.
    + cbn [firstn val nth]. change (BASE ^ Z.of_nat 0) with 1. ring.
    + change (firstn (S (S i)) (d :: t)) with (d :: firstn (S i) t).
      change (firstn (S i) (d :: t)) with (d :: firstn i t).
      cbn [val nth]. rewrite IH, BASE_pow_succ. ring.
Qed.

(** A canonical vector of [n > 0] blocks denotes at least [BASE^(n-1)]. *)
Lemma canonical_snoc (l : list Z) (d : Z) :
  canonical (l ++ [d]) = negb (d =? 0).
Proof. unfold canonical. rewrite last_last. reflexivity. Qed.

Lemma val_lower (l : list Z) :
  digits_ok l = true -> canonical l = true -> l <> [] ->
  BASE ^ (Z.of_nat (length l) - 1) <= val l.
Proof.
  intros Hd Hc Hne.
  destruct (exists_last Hne) as [t [d E]]. subst l.
  rewrite canonical_snoc in Hc. apply negb_true_iff, Z.eqb_neq in Hc.
  apply digits_ok_app in Hd. destruct Hd as [Ht Hd].
  apply digits_ok_cons in Hd. destruct Hd as [Hd _].
  rewrite val_app, length_app. cbn [length val].
  replace (Z.of_nat (length t + 1) - 1) with (Z.of_nat (length t)) by lia.
  pose proof (val_nonneg t Ht). pose proof (BASE_pow_pos (length t)). nia.
Qed.

Lemma canonical_val_zero (l : list Z) :
  digits_ok l = true -> canonical l = true -> val l = 0 -> l = [].
Proof.
  intros Hd Hc Hv. destruct l as [|d t]; [reflexivity | exfalso].
  assert (Hne : d :: t <> []) by discriminate.
  pose proof (val_lower _ Hd Hc Hne) as Hl.
  assert (0 < BASE ^ (Z.of_nat (length (d :: t)) - 1)).
  { apply Z.pow_pos_nonneg; [reflexivity | cbn [length]; lia]. }
  lia.
Qed.

(** ** [trim] *)

Lemma strip_snoc_zero (l : list Z) : strip (l ++ [0]) = strip l.
Proof.
  induction l as [|d t IH]; [reflexivity |].
  cbn [app strip]. rewrite IH. reflexivity.
Qed.

Lemma strip_snoc_nonzero (l : list Z) (d : Z) :
  d <> 0 -> strip (l ++ [d]) = l ++ [d].
Proof.
  intros Hd. induction l as [|e t IH].
  - cbn. apply Z.eqb_neq in Hd. rewrite Hd. reflexivity.
  - cbn [app strip]. rewrite IH. destruct t; reflexivity.
Qed.

Lemma strip_canonical_id (l : list Z) : canonical l = true -> strip l = l.
Proof.
  intros Hc. destruct l as [|d t] using rev_ind; [reflexivity |].
  rewrite canonical_snoc in Hc. apply negb_true_iff, Z.eqb_neq in Hc.
  apply strip_snoc_nonzero, Hc.
Qed.

Lemma pop_zeros_strip (fuel : nat) (l : list Z) :
  (length l <= fuel)%nat -> pop_zeros fuel l = strip l.
Proof.
  revert l; induction fuel as [|f IH]; intros l Hl.
  - destruct l; [reflexivity | simpl in Hl; lia].
  - destruct l as [|d t] using rev_ind; [reflexivity |].
    cbn [pop_zeros]. unfold back, pop_back.
    rewrite last_last, removelast_last, length_app.
    cbn [length]. replace (length t + 1)%nat with (S (length t)) by lia.
    cbn [Nat.eqb negb andb].
    destruct (Z.eqb_spec d 0) as [-> | Hd].
    + rewrite strip_snoc_zero. apply IH.
      rewrite length_app in Hl. simpl in Hl. lia.
    + symmetry. apply strip_snoc_nonzero, Hd.
Qed.

Lemma trim_digits_strip (l : list Z) : trim_digits l = strip l.
Proof. apply pop_zeros_strip. lia. Qed.

(** More fuel than the length of the vector changes nothing. *)
Lemma pop_zeros_fuel (fuel : nat) (l : list Z) :
  (length l <= fuel)%nat -> pop_zeros fuel l = trim_digits l.
Proof. intros H. rewrite trim_digits_strip. apply pop_zeros_strip, H. Qed.

Lemma val_strip (l : list Z) : val (strip l) = val l.
Proof.
  induction l as [|d t IH]; [reflexivity |].
  cbn [strip val]. rewrite <- IH.
  destruct (strip t) as [|e t'].
  - destruct (Z.eqb_spec d 0) as [-> | Hd]; cbn; lia.
  - reflexivity.
Qed.

Lemma strip_canonical (l : list Z) : canonical (strip l) = true.
Proof.
  induction l as [|d t IH]; [reflexivity |].
  cbn [strip]. destruct (strip t) as [|e t'] eqn:E.
  - destruct (Z.eqb_spec d 0) as [-> | Hd]; [reflexivity |].
    unfold canonical; cbn. apply negb_true_iff, Z.eqb_neq, Hd.
  - unfold canonical in *. exact IH.
Qed.

Lemma strip_digits_ok (l : list Z) :
  digits_ok l = true -> digits_ok (strip l) = true.
Proof.
  induction l as [|d t IH]; intros H; [reflexivity |].
  apply digits_ok_cons in H. destruct H as [Hd Ht]. specialize (IH Ht).
  cbn [strip]. destruct (strip t) as [|e t'].
  - destruct (d =? 0); [reflexivity |]. apply digits_ok_cons. auto.
  - apply digits_ok_cons. auto.
Qed.

Lemma strip_nth (l : list Z) (i : nat) : nth i (strip l) 0 = nth i l 0.
Proof.
  revert i; induction l as [|d t IH]; intros i; [reflexivity |].
  cbn [strip]. destruct (strip t) as [|e t'] eqn:E.
  - destruct (Z.eqb_spec d 0) as [-> | Hd].
    + destruct i; cbn; [reflexivity |]. rewrite <- IH. destruct i; reflexivity.
    + destruct i; cbn; [reflexivity |]. rewrite <- IH. destruct i; reflexivity.
  - destruct i; cbn; [reflexivity |]. apply IH.
Qed.

Lemma a_trim (x : int2048) : a (trim x) = strip (a x).
Proof. unfold trim. cbn. apply trim_digits_strip. Qed.

Lemma wf_intro (l : list Z) (s : bool) :
  digits_ok l = true -> canonical l = true -> (l = [] -> s = false) ->
  wf (Int2048 l s) = true.
Proof.
  intros Hd Hc Hs. unfold wf, canonical_form, no_signed_zero, is_zero. cbn [a neg].
  rewrite Hd, Hc. destruct l; cbn; [rewrite Hs; reflexivity | reflexivity].
Qed.

Lemma wf_elim (x : int2048) :
  wf x = true ->
  digits_ok (a x) = true /\ canonical (a x) = true /\ (a x = [] -> neg x = false).
Proof.
  unfold wf, canonical_form, no_signed_zero, is_zero.
  rewrite !andb_true_iff, orb_true_iff, !negb_true_iff.
  intros [Hd [Hc Hs]]. repeat split; auto.
  intros E. rewrite E in Hs. cbn in Hs. destruct Hs; [discriminate | assumption].
Qed.

Lemma trim_wf (x : int2048) : digits_ok (a x) = true -> wf (trim x) = true.
Proof.
  intros Hd. unfold trim. rewrite trim_digits_strip.
  apply wf_intro.
  - apply strip_digits_ok, Hd.
  - apply strip_canonical.
  - intros E. rewrite E. reflexivity.
Qed.

Lemma is_zero_nil (x : int2048) : is_zero x = true <-> a x = [].
Proof.
  unfold is_zero. rewrite Nat.eqb_eq. destruct (a x); cbn; split; congruence.
Qed.

(** ** [abs_compare] *)

Lemma val_firstn_bound (l : list Z) (i : nat) :
  digits_ok l = true -> 0 <= val (firstn i l) < BASE ^ Z.of_nat i.
Proof.
  intros H. induction i as [|i IH].
  - rewrite firstn_O. cbn. lia.
  - rewrite val_firstn_succ, BASE_pow_succ.
    pose proof (digits_ok_nth l i H) as Hn.
    pose proof (BASE_pow_pos i) as Hp.
    set (P := BASE ^ Z.of_nat i) in *. unfold BASE in *. nia.
Qed.

Lemma cmpZ_shift (p d x y : Z) : cmpZ (x + p * d) (y + p * d) = cmpZ x y.
Proof.
  unfold cmpZ.
  destruct (Z.ltb_spec x y), (Z.ltb_spec (x + p * d) (y + p * d)); try lia.
  destruct (Z.eqb_spec x y), (Z.eqb_spec (x + p * d) (y + p * d)); try lia.
Qed.

Lemma cmp_digits_spec (n : nat) (xa ya : list Z) :
  digits_ok xa = true -> digits_ok ya = true ->
  cmp_digits n xa ya = cmpZ (val (firstn n xa)) (val (firstn n ya)).
Proof.
  intros Hx Hy. induction n as [|i IH].
  - rewrite !firstn_O. reflexivity.
  - cbn [cmp_digits]. rewrite !val_firstn_succ.
    pose proof (val_firstn_bound xa i Hx) as Bx.
    pose proof (val_firstn_bound ya i Hy) as By.
    pose proof (BASE_pow_pos i) as Hp.
    set (P := BASE ^ Z.of_nat i) in *.
    destruct (Z.eqb_spec (nth i xa 0) (nth i ya 0)) as [E | NE]; cbn [negb].
    + rewrite IH, E. symmetry. apply cmpZ_shift.
    + unfold cmpZ.
      destruct (Z.ltb_spec (nth i xa 0) (nth i ya 0)) as [L | G].
      * destruct (Z.ltb_spec (val (firstn i xa) + P * nth i xa 0)
                             (val (firstn i ya) + P * nth i ya 0)); [reflexivity | nia].
      * destruct (Z.ltb_spec (val (firstn i xa) + P * nth i xa 0)
                             (val (firstn i ya) + P * nth i ya 0)); [nia |].
        destruct (Z.eqb_spec (val (firstn i xa) + P * nth i xa 0)
                             (val (firstn i ya) + P * nth i ya 0)); [nia | reflexivity].
Qed.

Lemma val_lt_of_shorter (xa ya : list Z) :
  digits_ok xa = true -> digits_ok ya = true -> canonical ya = true ->
  (length xa < length ya)%nat -> val xa < val ya.
Proof.
  intros Hx Hy Hc Hl.
  assert (Hne : ya <> []) by (destruct ya; [simpl in Hl; lia | discriminate]).
  pose proof (val_bound xa Hx) as Bx.
  pose proof (val_lower ya Hy Hc Hne) as By.
  assert (BASE ^ Z.of_nat (length xa) <= BASE ^ (Z.of_nat (length ya) - 1)).
  { apply Z.pow_le_mono_r; [reflexivity | lia]. }
  lia.
Qed.

(** On canonical vectors [abs_compare] compares the magnitudes. *)
Lemma abs_compare_spec (x y : int2048) :
  digits_ok (a x) = true -> canonical (a x) = true ->
  digits_ok (a y) = true -> canonical (a y) = true ->
  abs_compare x y = cmpZ (val (a x)) (val (a y)).
Proof.
  intros Hdx Hcx Hdy Hcy. unfold abs_compare.
  destruct (Nat.eqb_spec (length (a x)) (length (a y))) as [E | NE]; cbn [negb].
  - rewrite cmp_digits_spec by assumption.
    rewrite firstn_all. rewrite E, firstn_all. reflexivity.
  - unfold cmpZ. destruct (Nat.ltb_spec (length (a x)) (length (a y))) as [L | G].
    + pose proof (val_lt_of_shorter _ _ Hdx Hdy Hcy L) as H.
      apply Z.ltb_lt in H. rewrite H. reflexivity.
    + assert (L : (length (a y) < length (a x))%nat) by lia.
      pose proof (val_lt_of_shorter _ _ Hdy Hdx Hcx L) as H.
      destruct (Z.ltb_spec (val (a x)) (val (a y))); [lia |].
      destruct (Z.eqb_spec (val (a x)) (val (a y))); [lia | reflexivity].
Qed.

Lemma abs_compare_wf (x y : int2048) :
  wf x = true -> wf y = true ->
  abs_compare x y = cmpZ (val (a x)) (val (a y)).
Proof.
  intros Hx Hy. apply wf_elim in Hx, Hy.
  apply abs_compare_spec; tauto.
Qed.

Lemma cmpZ_lt (x y : Z) : (cmpZ x y <? 0) = (x <? y).
Proof.
  unfold cmpZ. destruct (Z.ltb_spec x y); [reflexivity |].
  destruct (x =? y); reflexivity.
Qed.

Lemma cmpZ_eq (x y : Z) : (cmpZ x y =? 0) = (x =? y).
Proof.
  unfold cmpZ. destruct (Z.ltb_spec x y), (Z.eqb_spec x y); try reflexivity; lia.
Qed.

Lemma cmpZ_gt (x y : Z) : (cmpZ x y >? 0) = (y <? x).
Proof.
  unfold cmpZ. destruct (Z.ltb_spec x y), (Z.eqb_spec x y), (Z.ltb_spec y x);
    try reflexivity; lia.
Qed.

Lemma cmpZ_le (x y : Z) : (cmpZ x y <=? 0) = (x <=? y).
Proof.
  unfold cmpZ. destruct (Z.ltb_spec x y), (Z.eqb_spec x y), (Z.leb_spec x y);
    try reflexivity; lia.
Qed.

(** ** Truncating division by [BASE] on non-negative numbers *)

Lemma BASE_sq_int : BASE * BASE < 2 ^ 31.
Proof. reflexivity. Qed.

Lemma quot_rem_BASE (c : Z) :
  0 <= c ->
  c = BASE * Z.quot c BASE + Z.rem c BASE /\
  0 <= Z.rem c BASE < BASE /\ 0 <= Z.quot c BASE.
Proof.
  intros H. repeat split.
  - apply Z.quot_rem'.
  - apply Z.rem_bound_pos; [exact H | reflexivity].
  - apply Z.rem_bound_pos; [exact H | reflexivity].
  - apply Z.quot_pos; [exact H | reflexivity].
Qed.

Lemma canonical_of_lower (l : list Z) :
  digits_ok l = true -> l <> [] ->
  BASE ^ (Z.of_nat (length l) - 1) <= val l -> canonical l = true.
Proof.
  intros Hd Hne Hl. destruct (exists_last Hne) as [t [d E]]. subst l.
  rewrite canonical_snoc. apply negb_true_iff, Z.eqb_neq. intros ->.
  apply digits_ok_app in Hd. destruct Hd as [Ht _].
  rewrite val_app, length_app in Hl. cbn [length val] in Hl.
  replace (Z.of_nat (length t + 1) - 1) with (Z.of_nat (length t)) in Hl by lia.
  pose proof (val_bound t Ht). lia.
Qed.

(** ** [add_abs] *)

Lemma guarded_at (l : list Z) (i : nat) (c : Z) :
  (if Nat.ltb i (length l) then c + at_ l i else c) = c + nth i l 0.
Proof.
  unfold at_. destruct (Nat.ltb_spec i (length l)) as [L | G]; [reflexivity |].
  rewrite nth_overflow by exact G. lia.
Qed.

Lemma guarded_at' (l : list Z) (i : nat) :
  (if Nat.ltb i (length l) then at_ l i else 0) = nth i l 0.
Proof.
  unfold at_. destruct (Nat.ltb_spec i (length l)) as [L | G]; [reflexivity |].
  rewrite nth_overflow by exact G. reflexivity.
Qed.

Lemma add_loop_spec (c : nat) : forall (i : nat) (xa ya : list Z) (carry : Z),
  digits_ok xa = true -> digits_ok ya = true -> 0 <= carry <= 1 ->
  (length xa <= i + c)%nat -> (length ya <= i + c)%nat ->
  let '(r, out) := add_loop c i xa ya carry in
  length r = c /\ digits_ok r = true /\ 0 <= out <= 1 /\
  val r + BASE ^ Z.of_nat c * out = carry + val (skipn i xa) + val (skipn i ya).
Proof.
  induction c as [|c IH]; intros i xa ya carry Hx Hy Hc Lx Ly.
  - cbn [add_loop]. rewrite !val_skipn_all by lia.
    change (BASE ^ Z.of_nat 0) with 1. cbn [val length]. repeat split; lia.
  - cbn [add_loop]. rewrite !guarded_at.
    set (cur := carry + nth i xa 0 + nth i ya 0).
    pose proof (digits_ok_nth xa i Hx) as Bx.
    pose proof (digits_ok_nth ya i Hy) as By.
    assert (Hcur : 0 <= cur) by (unfold cur; lia).
    destruct (quot_rem_BASE cur Hcur) as [Eq [Br Bq]].
    assert (Hq : 0 <= Z.quot cur BASE <= 1) by (unfold cur, BASE in *; lia).
    specialize (IH (S i) xa ya (Z.quot cur BASE) Hx Hy Hq ltac:(lia) ltac:(lia)).
    destruct (add_loop c (S i) xa ya (Z.quot cur BASE)) as [rest out].
    destruct IH as [Hlen [Hd [Ho Hv]]].
    repeat split; try lia.
    + cbn [length]. lia.
    + apply digits_ok_cons. split; assumption.
    + cbn [val]. rewrite BASE_pow_succ.
      rewrite (val_skipn xa i), (val_skipn ya i).
      set (P := BASE ^ Z.of_nat c) in *. unfold cur in *. nia.
Qed.

Lemma add_abs_spec (x y : int2048) :
  wf x = true -> wf y = true ->
  wf (add_abs x y) = true /\ neg (add_abs x y) = false /\
  val (a (add_abs x y)) = val (a x) + val (a y).
Proof.
  intros Hx Hy. apply wf_elim in Hx, Hy.
  destruct Hx as [Hdx [Hcx _]], Hy as [Hdy [Hcy _]].
  unfold add_abs.
  pose proof (add_loop_spec (Nat.max (length (a x)) (length (a y))) 0 (a x) (a y) 0
                Hdx Hdy ltac:(lia) ltac:(lia) ltac:(lia)) as H.
  destruct (add_loop _ 0 (a x) (a y) 0) as [r out].
  destruct H as [Hlen [Hd [Ho Hv]]]. cbn [skipn] in Hv.
  destruct (Z.eqb_spec out 0) as [-> | Hne]; cbn [negb a neg].
  - rewrite Z.mul_0_r in Hv. split; [| split; [reflexivity | lia]].
    apply wf_intro; [exact Hd | | reflexivity].
    destruct r as [|d t] eqn:Er; [reflexivity |]. rewrite <- Er in *.
    apply canonical_of_lower; [exact Hd | subst r; discriminate |].
    rewrite Hlen.
    pose proof (val_nonneg _ Hdx). pose proof (val_nonneg _ Hdy).
    destruct (Nat.max_spec (length (a x)) (length (a y))) as [[L E] | [L E]]; rewrite E.
    + assert (a y <> []) by (intros E0; rewrite E0, Er in *; simpl in *; lia).
      pose proof (val_lower _ Hdy Hcy H1). lia.
    + assert (a x <> []) by (intros E0; rewrite E0, Er in *; simpl in *; lia).
      pose proof (val_lower _ Hdx Hcx H1). lia.
  - split; [| split; [reflexivity |]].
    + apply wf_intro.
      * apply digits_ok_app. split; [exact Hd |].
        apply digits_ok_cons. split; [unfold BASE; lia | reflexivity].
      * rewrite canonical_snoc. apply negb_true_iff, Z.eqb_neq, Hne.
      * destruct r; discriminate.
    + rewrite val_app, Hlen. cbn [val]. rewrite Z.mul_0_r, Z.add_0_r. lia.
Qed.

(** ** [sub_abs] *)

Lemma sub_loop_spec (c : nat) : forall (i : nat) (xa ya : list Z) (carry : Z),
  digits_ok xa = true -> digits_ok ya = true -> 0 <= carry <= 1 ->
  (length xa <= i + c)%nat -> (length ya <= i + c)%nat ->
  length (sub_loop c i xa ya carry) = c /\
  digits_ok (sub_loop c i xa ya carry) = true /\
  exists borrow, 0 <= borrow <= 1 /\
    val (sub_loop c i xa ya carry) =
    val (skipn i xa) - val (skipn i ya) - carry + BASE ^ Z.of_nat c * borrow.
Proof.
  induction c as [|c IH]; intros i xa ya carry Hx Hy Hc Lx Ly.
  - cbn [sub_loop]. rewrite !val_skipn_all by lia.
    change (BASE ^ Z.of_nat 0) with 1. cbn [val length].
    repeat split. exists carry. split; lia.
  - cbn [sub_loop]. rewrite guarded_at'. unfold at_.
    set (cur := nth i xa 0 - carry - nth i ya 0).
    pose proof (digits_ok_nth xa i Hx) as Bx.
    pose proof (digits_ok_nth ya i Hy) as By.
    rewrite (val_skipn xa i), (val_skipn ya i), BASE_pow_succ.
    destruct (Z.ltb_spec cur 0) as [L | G].
    + destruct (IH (S i) xa ya 1 Hx Hy ltac:(lia) ltac:(lia) ltac:(lia))
        as [Hlen [Hd [b [Hb Hv]]]].
      cbn [length]. rewrite Hlen. split; [reflexivity |]. split.
      * apply digits_ok_cons. split; [unfold cur, BASE in *; lia | exact Hd].
      * exists b. split; [exact Hb |]. cbn [val]. rewrite Hv.
        set (P := BASE ^ Z.of_nat c) in *. unfold cur. ring.
    + destruct (IH (S i) xa ya 0 Hx Hy ltac:(lia) ltac:(lia) ltac:(lia))
        as [Hlen [Hd [b [Hb Hv]]]].
      cbn [length]. rewrite Hlen. split; [reflexivity |]. split.
      * apply digits_ok_cons. split; [unfold cur, BASE in *; lia | exact Hd].
      * exists b. split; [exact Hb |]. cbn [val]. rewrite Hv.
        set (P := BASE ^ Z.of_nat c) in *. unfold cur. ring.
Qed.

Lemma a_sub_abs (x y : int2048) :
  a (sub_abs x y) = strip (sub_loop (length (a x)) 0 (a x) (a y) 0).
Proof. unfold sub_abs. cbn [a]. rewrite a_trim. reflexivity. Qed.

(** [sub_abs] always returns a well-formed magnitude ... *)
Lemma sub_abs_wf (x y : int2048) :
  digits_ok (a x) = true -> digits_ok (a y) = true ->
  (length (a y) <= length (a x))%nat ->
  wf (sub_abs x y) = true /\ neg (sub_abs x y) = false.
Proof.
  intros Hx Hy Hl. split; [| reflexivity].
  destruct (sub_loop_spec (length (a x)) 0 (a x) (a y) 0 Hx Hy
              ltac:(lia) ltac:(lia) ltac:(lia)) as [_ [Hd _]].
  unfold sub_abs. cbn [a]. rewrite a_trim. cbn [a].
  apply wf_intro; [apply strip_digits_ok, Hd | apply strip_canonical | reflexivity].
Qed.

(** ... and the difference of the magnitudes under its precondition. *)
Lemma sub_abs_val (x y : int2048) :
  wf x = true -> wf y = true -> val (a y) <= val (a x) ->
  val (a (sub_abs x y)) = val (a x) - val (a y).
Proof.
  intros Hx Hy Hle. apply wf_elim in Hx, Hy.
  destruct Hx as [Hdx [Hcx _]], Hy as [Hdy [Hcy _]].
  assert (Hl : (length (a y) <= length (a x))%nat).
  { destruct (Nat.le_gt_cases (length (a y)) (length (a x))) as [L | G]; [exact L |].
    pose proof (val_lt_of_shorter _ _ Hdx Hdy Hcy G). lia. }
  destruct (sub_loop_spec (length (a x)) 0 (a x) (a y) 0 Hdx Hdy
              ltac:(lia) ltac:(lia) ltac:(lia)) as [Hlen [Hd [b [Hb Hv]]]].
  rewrite a_sub_abs, val_strip, Hv. cbn [skipn].
  pose proof (val_bound _ Hd) as Br. rewrite Hlen, Hv in Br. cbn [skipn] in Br.
  pose proof (val_bound _ Hdx) as Bx.
  pose proof (val_nonneg _ Hdy) as By.
  set (P := BASE ^ Z.of_nat (length (a x))) in *.
  assert (b = 0) by nia. subst b. lia.
Qed.

Lemma length_le_of_val_le (x y : int2048) :
  wf x = true -> wf y = true -> val (a y) <= val (a x) ->
  (length (a y) <= length (a x))%nat.
Proof.
  intros Hx Hy Hle. apply wf_elim in Hx, Hy.
  destruct Hx as [Hdx [Hcx _]], Hy as [Hdy [Hcy _]].
  destruct (Nat.le_gt_cases (length (a y)) (length (a x))) as [L | G]; [exact L |].
  pose proof (val_lt_of_shorter _ _ Hdx Hdy Hcy G). lia.
Qed.

(** ** [mul_by_int] *)

Lemma scale_loop_spec (c : nat) : forall (i : nat) (xa : list Z) (m carry : Z),
  digits_ok xa = true -> 0 <= m < BASE -> 0 <= carry < BASE ->
  (length xa <= i + c)%nat ->
  let '(r, out) := scale_loop c i xa m carry in
  length r = c /\ digits_ok r = true /\ 0 <= out < BASE /\
  val r + BASE ^ Z.of_nat c * out = carry + m * val (skipn i xa).
Proof.
  induction c as [|c IH]; intros i xa m carry Hx Hm Hc Lx.
  - cbn [scale_loop]. rewrite !val_skipn_all by lia.
    change (BASE ^ Z.of_nat 0) with 1. cbn [val length]. repeat split; lia.
  - cbn [scale_loop]. unfold at_.
    set (cur := 1 * nth i xa 0 * m + carry).
    pose proof (digits_ok_nth xa i Hx) as Bx.
    assert (Hcur : 0 <= cur < BASE * BASE) by (unfold cur, BASE in *; nia).
    destruct (quot_rem_BASE cur ltac:(lia)) as [Eq [Br Bq]].
    assert (Hq : 0 <= Z.quot cur BASE < BASE) by (unfold BASE in *; lia).
    specialize (IH (S i) xa m (Z.quot cur BASE) Hx Hm Hq ltac:(lia)).
    destruct (scale_loop c (S i) xa m (Z.quot cur BASE)) as [rest out].
    destruct IH as [Hlen [Hd [Ho Hv]]].
    repeat split; try lia.
    + cbn [length]. lia.
    + apply digits_ok_cons. split; assumption.
    + cbn [val]. rewrite BASE_pow_succ, (val_skipn xa i).
      set (P := BASE ^ Z.of_nat c) in *. unfold cur in *. nia.
Qed.

Lemma mul_by_int_spec (x : int2048) (m : Z) :
  wf x = true -> 0 <= m < BASE ->
  wf (mul_by_int x m) = true /\ neg (mul_by_int x m) = false /\
  val (a (mul_by_int x m)) = val (a x) * m.
Proof.
  intros Hx Hm. apply wf_elim in Hx. destruct Hx as [Hdx [Hcx _]].
  unfold mul_by_int.
  destruct (is_zero x) eqn:Ez; cbn [orb].
  { apply is_zero_nil in Ez. rewrite Ez. repeat split. }
  destruct (Z.eqb_spec m 0) as [-> | Hm0].
  { repeat split. cbn. lia. }
  pose proof (scale_loop_spec (length (a x)) 0 (a x) m 0 Hdx Hm
                ltac:(unfold BASE; lia) ltac:(lia)) as H.
  destruct (scale_loop (length (a x)) 0 (a x) m 0) as [r out].
  destruct H as [Hlen [Hd [Ho Hv]]]. cbn [skipn] in Hv.
  assert (Hne : a x <> []).
  { intros E. apply is_zero_nil in E. congruence. }
  pose proof (val_lower _ Hdx Hcx Hne) as Hlow.
  destruct (Z.eqb_spec out 0) as [-> | Hne0]; cbn [negb a neg].
  - rewrite Z.mul_0_r in Hv. split; [| split; [reflexivity | lia]].
    apply wf_intro; [exact Hd | | reflexivity].
    apply canonical_of_lower; [exact Hd | |].
    + intros E. rewrite E in Hlen. destruct (a x); [congruence | discriminate].
    + rewrite Hlen. nia.
  - split; [| split; [reflexivity |]].
    + apply wf_intro.
      * apply digits_ok_app. split; [exact Hd |].
        apply digits_ok_cons. split; [lia | reflexivity].
      * rewrite canonical_snoc. apply negb_true_iff, Z.eqb_neq, Hne0.
      * destruct r; discriminate.
    + rewrite val_app, Hlen. cbn [val]. rewrite Z.mul_0_r, Z.add_0_r. lia.
Qed.

(** ** The quotient-digit search *)

Section Search.
Variables vshift rem : int2048.
Hypothesis Hv : wf vshift = true.
Hypothesis Hr : wf rem = true.

Let V := val (a vshift).
Let R := val (a rem).

Lemma search_test (mid : Z) :
  0 <= mid < BASE ->
  (abs_compare (mul_by_int vshift mid) rem <=? 0) = (mid * V <=? R).
Proof.
  intros Hm. destruct (mul_by_int_spec vshift mid Hv Hm) as [Hw [_ Hval]].
  rewrite abs_compare_wf by assumption.
  rewrite cmpZ_le, Hval. unfold V, R. rewrite Z.mul_comm. reflexivity.
Qed.

Lemma search_digit_spec (fuel : nat) : forall low high best : Z,
  0 <= low <= high + 1 -> high + 1 <= BASE ->
  high - low + 1 <= Z.of_nat fuel ->
  best = Z.max 0 (low - 1) -> best * V <= R ->
  (high = BASE - 1 \/ R < (high + 1) * V) ->
  let d := search_digit fuel vshift rem low high best in
  0 <= d <= BASE - 1 /\ d * V <= R /\ (d = BASE - 1 \/ R < (d + 1) * V).
Proof.
  assert (HR : 0 <= R).
  { apply val_nonneg. apply wf_elim in Hr. tauto. }
  induction fuel as [|f IH]; intros low high best Hl Hh Hf Hb Hbv Hhi.
  - cbn [search_digit]. assert (low = high + 1) by lia.
    assert (low <> 0) by (intros ->; destruct Hhi; unfold BASE in *; lia).
    assert (Eb : best = high) by lia. clear Hb. subst best.
    split; [lia |]. split; [exact Hbv | exact Hhi].
  - cbn [search_digit]. destruct (Z.leb_spec low high) as [Le | Gt].
    + rewrite Z.shiftr_div_pow2 by lia. change (2 ^ 1) with 2.
      set (mid := (low + high) / 2).
      assert (Hmid : low <= mid <= high).
      { unfold mid. split.
        - apply Z.div_le_lower_bound; lia.
        - apply Z.div_le_upper_bound; lia. }
      rewrite search_test by lia.
      destruct (Z.leb_spec (mid * V) R) as [T | F].
      * apply IH; try lia.
      * apply IH; try lia.
    + assert (low = high + 1) by lia.
      assert (low <> 0) by (intros ->; destruct Hhi; unfold BASE in *; lia).
      assert (Eb : best = high) by lia. clear Hb. subst best.
      split; [lia |]. split; [exact Hbv | exact Hhi].
Qed.

(** The search returns the largest admissible digit. *)
Lemma quot_digit_spec :
  let d := quot_digit vshift rem in
  largest_digit V R d /\ (d = BASE - 1 \/ R < (d + 1) * V).
Proof.
  assert (HR : 0 <= R).
  { apply val_nonneg. apply wf_elim in Hr. tauto. }
  assert (HV : 0 <= V).
  { apply val_nonneg. apply wf_elim in Hv. tauto. }
  assert (HB : Z.of_nat (Z.to_nat BASE) = BASE) by (apply Z2Nat.id; discriminate).
  pose proof (search_digit_spec (Z.to_nat BASE) 0 (BASE - 1) 0
                ltac:(lia) ltac:(lia) ltac:(lia) eq_refl ltac:(lia)
                (or_introl eq_refl)) as H.
  cbv zeta in H. cbv zeta. unfold quot_digit.
  set (d := search_digit (Z.to_nat BASE) vshift rem 0 (BASE - 1) 0) in *.
  destruct H as [Hd [Hle Hmax]].
  split; [| exact Hmax].
  split; [exact Hd |]. split; [exact Hle |].
  intros d' Hd' Hle'. destruct Hmax as [E | Lt]; [lia |]. nia.
Qed.

(** More fuel than [BASE] does not change the digit found. *)
Lemma search_digit_fuel (fuel : nat) :
  (Z.to_nat BASE <= fuel)%nat ->
  search_digit fuel vshift rem 0 (BASE - 1) 0 = quot_digit vshift rem.
Proof.
  intros Hf.
  assert (HR : 0 <= R).
  { apply val_nonneg. apply wf_elim in Hr. tauto. }
  assert (HV : 0 <= V).
  { apply val_nonneg. apply wf_elim in Hv. tauto. }
  assert (HB : Z.of_nat (Z.to_nat BASE) = BASE) by (apply Z2Nat.id; discriminate).
  assert (HF : BASE <= Z.of_nat fuel) by lia.
  pose proof (search_digit_spec fuel 0 (BASE - 1) 0
                ltac:(lia) ltac:(lia) ltac:(lia) eq_refl ltac:(lia)
                (or_introl eq_refl)) as H1.
  pose proof quot_digit_spec as H2. cbv zeta in H1, H2.
  destruct H1 as [B1 [L1 M1]].
  destruct H2 as [[B2 [L2 _]] M2].
  set (d1 := search_digit fuel vshift rem 0 (BASE - 1) 0) in *.
  set (d2 := quot_digit vshift rem) in *.
  destruct M1 as [E1 | G1], M2 as [E2 | G2]; nia.
Qed.
End Search.

(** ** The long-division loop *)

Lemma set_at_app (l1 l2 : list Z) (x d : Z) :
  set_at (l1 ++ x :: l2) (length l1) d = l1 ++ d :: l2.
Proof. induction l1 as [|e t IH]; cbn; [reflexivity | rewrite IH; reflexivity]. Qed.

Lemma repeat_snoc (n : nat) : repeat 0 (S n) = repeat 0 n ++ [0].
Proof. cbn [repeat]. apply repeat_cons. Qed.

Lemma canonical_app (l1 l2 : list Z) :
  l2 <> [] -> canonical (l1 ++ l2) = canonical l2.
Proof.
  intros Hne. destruct (exists_last Hne) as [t [d E]]. subst l2.
  rewrite app_assoc, !canonical_snoc. reflexivity.
Qed.

Lemma shifted_wf (v : int2048) (p : nat) (s : bool) :
  wf v = true -> a v <> [] -> wf (Int2048 (repeat 0 p ++ a v) s) = true.
Proof.
  intros Hv Hne. apply wf_elim in Hv. destruct Hv as [Hd [Hc _]].
  apply wf_intro.
  - apply digits_ok_app. split; [apply digits_ok_repeat | exact Hd].
  - rewrite canonical_app by exact Hne. exact Hc.
  - intros E. apply app_eq_nil in E. tauto.
Qed.

Lemma shifted_val (l : list Z) (p : nat) :
  val (repeat 0 p ++ l) = BASE ^ Z.of_nat p * val l.
Proof. rewrite val_app, val_repeat, repeat_length. lia. Qed.

Lemma wf_same_digits (x y : int2048) :
  a x = a y -> a x <> [] -> wf y = true -> wf x = true.
Proof.
  intros E Hne Hy. apply wf_elim in Hy. destruct Hy as [Hd [Hc _]].
  destruct x as [xa xs]. cbn [a] in *. subst xa.
  apply wf_intro; [exact Hd | exact Hc | tauto].
Qed.

Section LongDivision.
Variables u v : int2048.
Hypothesis Hv : wf v = true.
Hypothesis Hv0 : a v <> [].

(** The update of one position with a digit [d] that is the largest
    admissible one: its multiple of the shifted divisor is taken off the
    remainder and the invariant is restored for the next position. *)
Lemma div_update_spec (p : nat) (st : div_state) (qhi : list Z) (d : Z) :
  div_inv u v (S p) st qhi ->
  largest_digit (val (a (ds_vshift st))) (val (a (ds_rem st))) d ->
  (d = BASE - 1 \/ val (a (ds_rem st)) < (d + 1) * val (a (ds_vshift st))) ->
  let st' := div_update (Z.of_nat p) st d in
  val (a (ds_rem st')) = val (a (ds_rem st)) - d * val (a (ds_vshift st)) /\
  div_inv u v p st' (d :: qhi).
Proof.
  intros [Hvs [Hr [Hlt [Hq [Hqd Hu]]]]] [Hd [Hle Hbest]] Hmax. cbv zeta.
  specialize (Hvs p eq_refl).
  assert (Wvs : wf (ds_vshift st) = true).
  { apply (wf_same_digits _ (Int2048 (repeat 0 p ++ a v) false)).
    - exact Hvs.
    - rewrite Hvs. intros E. apply app_eq_nil in E. tauto.
    - apply shifted_wf; assumption. }
  assert (EV : val (a (ds_vshift st)) = BASE ^ Z.of_nat p * val (a v)).
  { rewrite Hvs. apply shifted_val. }
  set (V := val (a (ds_vshift st))) in *.
  set (R := val (a (ds_rem st))) in *.
  assert (HV : 0 <= V).
  { apply val_nonneg. apply wf_elim in Wvs. tauto. }
  (* the new remainder *)
  assert (Hrem : wf (ds_rem (div_update (Z.of_nat p) st d)) = true /\
                 val (a (ds_rem (div_update (Z.of_nat p) st d))) = R - d * V).
  { unfold div_update. cbn [ds_rem].
    destruct (Z.eqb_spec d 0) as [E0 | N0]; cbn [negb].
    - split; [exact Hr |]. rewrite E0. unfold R. lia.
    - destruct (mul_by_int_spec (ds_vshift st) d Wvs ltac:(unfold BASE in *; lia))
        as [Wt [_ Vt]]. fold V in Vt.
      assert (Le : val (a (mul_by_int (ds_vshift st) d)) <= val (a (ds_rem st))).
      { rewrite Vt. fold R. lia. }
      split.
      + apply sub_abs_wf.
        * apply wf_elim in Hr. tauto.
        * apply wf_elim in Wt. tauto.
        * apply length_le_of_val_le; assumption.
      + rewrite sub_abs_val by assumption. rewrite Vt. fold R. lia. }
  destruct Hrem as [Wr' Vr'].
  split; [exact Vr' |].
  unfold div_inv. rewrite Vr'.
  rewrite BASE_pow_succ in Hlt, Hu.
  set (P := BASE ^ Z.of_nat p) in *.
  repeat split.
  - (* the divisor, one block lower *)
    intros p' ->. unfold div_update. cbn [ds_vshift]. rewrite a_trim. cbn [a].
    rewrite Hvs. cbn [repeat app length Nat.eqb negb tl].
    apply strip_canonical_id. rewrite canonical_app by exact Hv0.
    apply wf_elim in Hv. tauto.
  - exact Wr'.
  - destruct Hmax as [E | Lt]; [| lia]. rewrite E. unfold BASE in *. nia.
  - unfold div_update. cbn [ds_q]. rewrite Hq, Nat2Z.id.
    rewrite repeat_snoc, <- app_assoc. cbn [app].
    rewrite <- (repeat_length 0 p) at 2. apply set_at_app.
  - apply digits_ok_cons. split; [unfold BASE in *; lia | exact Hqd].
  - cbn [val]. fold R in Hu. rewrite Hu. rewrite EV. ring.
Qed.

(** One position with the digit found by the search. *)
Lemma div_body_spec (p : nat) (st : div_state) (qhi : list Z) :
  div_inv u v (S p) st qhi ->
  let d := quot_digit (ds_vshift st) (ds_rem st) in
  let st' := div_body (Z.of_nat p) st in
  val (a (ds_vshift st)) = BASE ^ Z.of_nat p * val (a v) /\
  largest_digit (val (a (ds_vshift st))) (val (a (ds_rem st))) d /\
  val (a (ds_rem st')) = val (a (ds_rem st)) - d * val (a (ds_vshift st)) /\
  div_inv u v p st' (d :: qhi).
Proof.
  intros Hinv. cbv zeta. unfold div_body.
  pose proof Hinv as [Hvs [Hr _]]. specialize (Hvs p eq_refl).
  assert (Wvs : wf (ds_vshift st) = true).
  { apply (wf_same_digits _ (Int2048 (repeat 0 p ++ a v) false)).
    - exact Hvs.
    - rewrite Hvs. intros E. apply app_eq_nil in E. tauto.
    - apply shifted_wf; assumption. }
  destruct (quot_digit_spec (ds_vshift st) (ds_rem st) Wvs Hr) as [Hlarge Hmax].
  generalize dependent (quot_digit (ds_vshift st) (ds_rem st)). intros d Hlarge Hmax.
  destruct (div_update_spec p st qhi d Hinv Hlarge Hmax) as [Hval Hnext].
  split; [rewrite Hvs; apply shifted_val |].
  split; [exact Hlarge |]. split; assumption.
Qed.

(** [n] iterations lead from the invariant for [n + j] positions to the
    invariant for [j] positions and only add digits in between. *)
Lemma div_loop_run (n : nat) : forall (j : nat) (st : div_state) (qhi : list Z),
  div_inv u v (n + j) st qhi ->
  exists mid, length mid = n /\
    div_inv u v j (div_loop n (Z.of_nat (n + j) - 1) st) (mid ++ qhi).
Proof.
  induction n as [|n IH]; intros j st qhi Hinv.
  - exists []. split; [reflexivity | exact Hinv].
  - cbn [div_loop].
    replace (Z.of_nat (S n + j) - 1) with (Z.of_nat (n + j)) by lia.
    destruct (Z.geb_spec (Z.of_nat (n + j)) 0) as [_ | Hneg]; [| lia].
    destruct (div_body_spec (n + j) st qhi Hinv) as [_ [_ [_ Hnext]]].
    destruct (IH j _ _ Hnext) as [mid [Hlen Hfin]].
    exists (mid ++ [quot_digit (ds_vshift st) (ds_rem st)]).
    split; [rewrite length_app; cbn [length]; lia |].
    rewrite <- app_assoc. exact Hfin.
Qed.

Lemma div_loop_split (n1 : nat) : forall (n2 : nat) (pos : Z) (st : div_state),
  Z.of_nat n1 <= pos + 1 ->
  div_loop (n1 + n2) pos st = div_loop n2 (pos - Z.of_nat n1) (div_loop n1 pos st).
Proof.
  induction n1 as [|n1 IH]; intros n2 pos st Hp.
  - cbn [Nat.add div_loop]. f_equal. lia.
  - cbn [Nat.add div_loop].
    destruct (Z.geb_spec pos 0) as [_ | Hneg]; [| lia].
    rewrite IH by lia. f_equal. lia.
Qed.

Hypothesis Hu : wf u = true.
Hypothesis Hle : val (a v) <= val (a u).

Lemma div_top_nonneg : 0 <= div_top u v.
Proof.
  unfold div_top. pose proof (length_le_of_val_le u v Hu Hv Hle). lia.
Qed.

Lemma div_init_inv : div_inv u v (S (Z.to_nat (div_top u v))) (div_init u v) [].
Proof.
  pose proof div_top_nonneg as Hk.
  pose proof (length_le_of_val_le u v Hu Hv Hle) as Hlen.
  assert (Ek : Z.to_nat (div_top u v) = (length (a u) - length (a v))%nat).
  { unfold div_top. lia. }
  pose proof Hu as Hu'. apply wf_elim in Hu'. destruct Hu' as [Hdu [Hcu _]].
  pose proof Hv as Hv'. apply wf_elim in Hv'. destruct Hv' as [Hdv [Hcv _]].
  unfold div_inv, div_init. fold (div_top u v). cbn [ds_vshift ds_rem ds_q].
  repeat split.
  - intros p Hp. injection Hp as <-.
    destruct (Z.gtb_spec (div_top u v) 0) as [G | L]; [reflexivity |].
    replace (div_top u v) with 0 by lia. reflexivity.
  - exact Hu.
  - pose proof (val_bound _ Hdu) as Bu.
    pose proof (val_lower _ Hdv Hcv Hv0) as Bv.
    assert (E : BASE ^ Z.of_nat (length (a u)) =
                BASE ^ Z.of_nat (S (Z.to_nat (div_top u v)))
                * BASE ^ (Z.of_nat (length (a v)) - 1)).
    { rewrite <- Z.pow_add_r.
      - f_equal. rewrite Ek. destruct (a v); [congruence | cbn [length] in *; lia].
      - lia.
      - destruct (a v); [congruence | cbn [length]; lia]. }
    pose proof (BASE_pow_pos (S (Z.to_nat (div_top u v)))) as Pp.
    set (P := BASE ^ Z.of_nat (S (Z.to_nat (div_top u v)))) in *.
    set (Q := BASE ^ (Z.of_nat (length (a v)) - 1)) in *.
    nia.
  - rewrite app_nil_r. f_equal. lia.
  - cbn [val]. lia.
Qed.

(** The state in which position [pos] is entered satisfies the invariant. *)
Lemma div_at_inv (pos : Z) :
  -1 <= pos <= div_top u v ->
  exists qhi, div_inv u v (Z.to_nat (pos + 1)) (div_at u v pos) qhi.
Proof.
  intros Hp. pose proof div_init_inv as Hi. pose proof div_top_nonneg as Hk.
  replace (S (Z.to_nat (div_top u v)))
    with (Z.to_nat (div_top u v - pos) + Z.to_nat (pos + 1))%nat in Hi by lia.
  destruct (div_loop_run _ _ _ _ Hi) as [mid [_ Hinv]].
  rewrite app_nil_r in Hinv.
  replace (Z.of_nat (Z.to_nat (div_top u v - pos) + Z.to_nat (pos + 1)) - 1)
    with (div_top u v) in Hinv by lia.
  exists mid. exact Hinv.
Qed.

Lemma div_at_step (pos : Z) :
  0 <= pos <= div_top u v ->
  div_at u v (pos - 1) = div_body pos (div_at u v pos).
Proof.
  intros Hp. unfold div_at.
  replace (Z.to_nat (div_top u v - (pos - 1)))
    with (Z.to_nat (div_top u v - pos) + 1)%nat by lia.
  rewrite div_loop_split by lia. cbn [div_loop].
  replace (div_top u v - Z.of_nat (Z.to_nat (div_top u v - pos))) with pos by lia.
  destruct (Z.geb_spec pos 0) as [_ | Hneg]; [reflexivity | lia].
Qed.

Lemma div_at_final :
  div_at u v (-1) = div_loop (Z.to_nat (div_top u v + 1)) (div_top u v) (div_init u v).
Proof. unfold div_at. f_equal. Qed.

(** The digit stored at [pos] survives the remaining iterations. *)
Lemma div_at_digit (pos : Z) :
  0 <= pos <= div_top u v ->
  nth (Z.to_nat pos) (ds_q (div_at u v (-1))) 0 =
  quot_digit (ds_vshift (div_at u v pos)) (ds_rem (div_at u v pos)).
Proof.
  intros Hp. destruct (div_at_inv pos ltac:(lia)) as [qhi Hinv].
  replace (Z.to_nat (pos + 1)) with (S (Z.to_nat pos)) in Hinv by lia.
  destruct (div_body_spec _ _ _ Hinv) as [_ [_ [_ Hnext]]].
  rewrite Z2Nat.id in Hnext by lia. rewrite <- div_at_step in Hnext by lia.
  replace (Z.to_nat pos) with (Z.to_nat pos + 0)%nat in Hnext at 1 by lia.
  destruct (div_loop_run _ _ _ _ Hnext) as [mid [Hlen Hfin]].
  replace (Z.of_nat (Z.to_nat pos + 0) - 1) with (pos - 1 - Z.of_nat 0) in Hfin by lia.
  assert (E : div_loop (Z.to_nat pos) (pos - 1 - Z.of_nat 0) (div_at u v (pos - 1))
              = div_at u v (-1)).
  { unfold div_at at 1.
    replace (pos - 1 - Z.of_nat 0)
      with (div_top u v - Z.of_nat (Z.to_nat (div_top u v - (pos - 1)))) by lia.
    rewrite <- div_loop_split by lia. unfold div_at. f_equal. lia. }
  rewrite E in Hfin. destruct Hfin as [_ [_ [_ [Hq _]]]].
  rewrite Hq. cbn [repeat app].
  rewrite app_nth2 by lia. rewrite Hlen, Nat.sub_diag. reflexivity.
Qed.
End LongDivision.

(** ** [divmod_abs] *)

Lemma of_ll_0 : of_ll 0 = zero.
Proof. reflexivity. Qed.

Lemma of_ll_1 : of_ll 1 = Int2048 [1] false.
Proof. reflexivity. Qed.

Lemma magnitude_elim (x : int2048) :
  magnitude x = true -> wf x = true /\ neg x = false.
Proof.
  unfold magnitude. rewrite andb_true_iff, negb_true_iff. tauto.
Qed.

Lemma magnitude_intro (x : int2048) :
  wf x = true -> neg x = false -> magnitude x = true.
Proof. intros H1 H2. unfold magnitude. rewrite H1, H2. reflexivity. Qed.

Lemma abs_copy_magnitude (x : int2048) : wf x = true -> magnitude (abs_copy x) = true.
Proof.
  intros H. apply wf_elim in H. destruct H as [Hd [Hc _]].
  apply magnitude_intro; [| reflexivity].
  apply wf_intro; [exact Hd | exact Hc | reflexivity].
Qed.

Lemma is_zero_val (x : int2048) :
  wf x = true -> is_zero x = (val (a x) =? 0).
Proof.
  intros H. apply wf_elim in H. destruct H as [Hd [Hc _]].
  destruct (is_zero x) eqn:E.
  - apply is_zero_nil in E. rewrite E. reflexivity.
  - symmetry. apply Z.eqb_neq. intros Hv.
    apply canonical_val_zero in Hv; [| assumption ..].
    apply is_zero_nil in Hv. congruence.
Qed.

Lemma divmod_abs_small (u v : int2048) :
  wf u = true -> wf v = true -> is_zero v = false -> val (a u) < val (a v) ->
  divmod_abs u v = (zero, u).
Proof.
  intros Hu Hv Hz Hlt. unfold divmod_abs. rewrite Hz.
  rewrite abs_compare_wf, cmpZ_lt by assumption.
  apply Z.ltb_lt in Hlt. rewrite Hlt. rewrite of_ll_0. reflexivity.
Qed.

Lemma divmod_abs_large (u v : int2048) :
  wf u = true -> wf v = true -> is_zero v = false -> val (a v) <= val (a u) ->
  divmod_abs u v =
  (trim (Int2048 (ds_q (div_at u v (-1))) false),
   Int2048 (a (ds_rem (div_at u v (-1)))) false).
Proof.
  intros Hu Hv Hz Hle. unfold divmod_abs. rewrite Hz.
  rewrite abs_compare_wf, cmpZ_lt by assumption.
  apply Z.ltb_ge in Hle. rewrite Hle. rewrite of_ll_0.
  fold (div_top u v). rewrite <- (div_at_final u v). reflexivity.
Qed.

(** Quotient and remainder of magnitudes. *)
Lemma divmod_abs_correct (u v : int2048) :
  magnitude u = true -> magnitude v = true -> is_zero v = false ->
  let q := fst (divmod_abs u v) in
  let r := snd (divmod_abs u v) in
  magnitude q = true /\ magnitude r = true /\
  val (a u) = val (a q) * val (a v) + val (a r) /\
  0 <= val (a r) < val (a v).
Proof.
  intros Mu Mv Hz. cbv zeta.
  apply magnitude_elim in Mu, Mv. destruct Mu as [Hu Nu], Mv as [Hv Nv].
  assert (Hv0 : a v <> []).
  { intros E. apply is_zero_nil in E. congruence. }
  pose proof Hu as Hu'. apply wf_elim in Hu'. destruct Hu' as [Hdu [Hcu _]].
  destruct (Z.lt_ge_cases (val (a u)) (val (a v))) as [Lt | Ge].
  - rewrite divmod_abs_small by assumption. cbn [fst snd].
    split; [reflexivity |]. split; [apply magnitude_intro; assumption |].
    split; [cbn; lia |]. pose proof (val_nonneg _ Hdu). lia.
  - rewrite divmod_abs_large by assumption. cbn [fst snd].
    destruct (div_at_inv u v Hv Hv0 Hu Ge (-1)
                ltac:(pose proof (div_top_nonneg u v Hv Hu Ge); lia)) as [qhi Hinv].
    change (Z.to_nat (-1 + 1)) with 0%nat in Hinv.
    destruct Hinv as [_ [Wr [Hlt [Hq [Hqd Hval]]]]].
    change (BASE ^ Z.of_nat 0) with 1 in Hlt, Hval.
    cbn [repeat app] in Hq.
    pose proof Wr as Wr'. apply wf_elim in Wr'. destruct Wr' as [Hdr [Hcr _]].
    rewrite a_trim. cbn [a]. rewrite val_strip, Hq.
    split.
    { apply magnitude_intro.
      - apply trim_wf. cbn [a]. exact Hqd.
      - unfold trim. cbn [neg]. destruct (Nat.eqb _ 0); reflexivity. }
    split.
    { apply magnitude_intro; [| reflexivity].
      apply wf_intro; [exact Hdr | exact Hcr | reflexivity]. }
    split; [lia |]. pose proof (val_nonneg _ Hdr). lia.
Qed.

(** C6.  For magnitudes [u] and [v <> 0], [divmod_abs u v] returns
    magnitudes [q] and [r] with [u = q * v + r] and [0 <= r < v].  When
    [u < v] the quotient is zero and the remainder is [u] itself.  Otherwise
    the loop starts from the running remainder [u] and, at each position
    [pos] from the top down to 0, meets the divisor shifted by [pos] blocks,
    finds the largest digit [d] in [0, BASE-1] with
    [d * shifted_divisor <= running_remainder], stores it as block [pos] of
    the quotient and takes [d * shifted_divisor] off the running remainder;
    the remainder left after position 0 is [r]. *)
Theorem divmod_abs_long_division (u v : int2048) :
  magnitude u = true -> magnitude v = true -> is_zero v = false ->
  let q := fst (divmod_abs u v) in
  let r := snd (divmod_abs u v) in
  magnitude q = true /\ magnitude r = true /\
  val (a u) = val (a q) * val (a v) + val (a r) /\
  0 <= val (a r) < val (a v) /\
  (val (a u) < val (a v) -> q = zero /\ r = u) /\
  (val (a v) <= val (a u) ->
   ds_rem (div_at u v (div_top u v)) = u /\
   a r = a (ds_rem (div_at u v (-1))) /\
   forall pos, 0 <= pos <= div_top u v ->
     let st := div_at u v pos in
     let d := quot_digit (ds_vshift st) (ds_rem st) in
     val (a (ds_vshift st)) = BASE ^ pos * val (a v) /\
     largest_digit (val (a (ds_vshift st))) (val (a (ds_rem st))) d /\
     nth (Z.to_nat pos) (a q) 0 = d /\
     div_at u v (pos - 1) = div_body pos st /\
     val (a (ds_rem (div_at u v (pos - 1)))) =
     val (a (ds_rem st)) - d * val (a (ds_vshift st))).
Proof.
  intros Mu Mv Hz. cbv zeta.
  destruct (divmod_abs_correct u v Mu Mv Hz) as [Mq [Mr [Heq Hbd]]].
  cbv zeta in Mq, Mr, Heq, Hbd.
  split; [exact Mq |]. split; [exact Mr |]. split; [exact Heq |].
  split; [exact Hbd |]. clear Mq Mr Heq Hbd.
  apply magnitude_elim in Mu, Mv. destruct Mu as [Hu Nu], Mv as [Hv Nv].
  assert (Hv0 : a v <> []).
  { intros E. apply is_zero_nil in E. congruence. }
  split.
  { intros Lt. rewrite divmod_abs_small by assumption. split; reflexivity. }
  intros Ge. rewrite divmod_abs_large by assumption. cbn [fst snd].
  split.
  { unfold div_at. rewrite Z.sub_diag. reflexivity. }
  split; [reflexivity |].
  intros pos Hp.
  destruct (div_at_inv u v Hv Hv0 Hu Ge pos ltac:(lia)) as [qhi' Hinv'].
  replace (Z.to_nat (pos + 1)) with (S (Z.to_nat pos)) in Hinv' by lia.
  destruct (div_body_spec u v Hv Hv0 _ _ _ Hinv') as [EV [Hlarge [Hrem _]]].
  rewrite Z2Nat.id in EV, Hrem by lia.
  rewrite <- (div_at_step u v pos Hp) in Hrem.
  split; [exact EV |]. split; [exact Hlarge |].
  split; [| split; [apply div_at_step, Hp | exact Hrem]].
  rewrite a_trim. cbn [a]. rewrite strip_nth. apply div_at_digit; assumption.
Qed.

Lemma divmod_abs_long_division_witness :
  let u := Int2048 [6789; 2345; 1] false in
  let v := Int2048 [4321] false in
  val (a u) = val (a (fst (divmod_abs u v))) * val (a v) + val (a (snd (divmod_abs u v)))
  /\ nth 1 (a (fst (divmod_abs u v))) 0
     = quot_digit (ds_vshift (div_at u v 1)) (ds_rem (div_at u v 1)).
Proof.
  intros u v.
  pose proof (divmod_abs_long_division u v eq_refl eq_refl eq_refl) as H.
  cbv zeta in H. destruct H as [_ [_ [E [_ [_ H]]]]].
  split; [exact E |].
  assert (Hle : val (a v) <= val (a u)) by (vm_compute; discriminate).
  destruct (H Hle) as [_ [_ Hpos]].
  assert (Hp : 0 <= 1 <= div_top u v) by (vm_compute; split; discriminate).
  exact (proj1 (proj2 (proj2 (Hpos 1 Hp)))).
Defined.

(** ** Signed division *)

Lemma value_abs (x : int2048) :
  digits_ok (a x) = true -> Z.abs (value x) = val (a x).
Proof.
  intros H. pose proof (val_nonneg _ H). unfold value.
  destruct (neg x); lia.
Qed.

Lemma is_zero_abs_copy (x : int2048) : is_zero (abs_copy x) = is_zero x.
Proof. reflexivity. Qed.

(** The magnitude quotient and remainder are those of the absolute values. *)
Lemma divmod_abs_div_mod (x b : int2048) :
  wf x = true -> wf b = true -> is_zero b = false ->
  let qa := fst (divmod_abs (abs_copy x) (abs_copy b)) in
  let ra := snd (divmod_abs (abs_copy x) (abs_copy b)) in
  magnitude qa = true /\ magnitude ra = true /\
  val (a qa) = Z.abs (value x) / Z.abs (value b) /\
  val (a ra) = Z.abs (value x) mod Z.abs (value b).
Proof.
  intros Hx Hb Hz. cbv zeta.
  destruct (divmod_abs_correct (abs_copy x) (abs_copy b)
              (abs_copy_magnitude x Hx) (abs_copy_magnitude b Hb) Hz)
    as [Mq [Mr [E B]]].
  change (val (a (abs_copy x))) with (val (a x)) in E, B.
  change (val (a (abs_copy b))) with (val (a b)) in E, B.
  apply wf_elim in Hx, Hb.
  rewrite !value_abs by tauto.
  split; [exact Mq |]. split; [exact Mr |]. split.
  - apply (Z.div_unique _ _ _ (val (a (snd (divmod_abs (abs_copy x) (abs_copy b)))))).
    + left. exact B.
    + lia.
  - apply (Z.mod_unique _ _ (val (a (fst (divmod_abs (abs_copy x) (abs_copy b)))))).
    + left. exact B.
    + lia.
Qed.

Lemma div_unfold (x b : int2048) :
  div x b =
  let neg_res := negb (Bool.eqb (neg x) (neg b)) in
  let qa := fst (divmod_abs (abs_copy x) (abs_copy b)) in
  let ra := snd (divmod_abs (abs_copy x) (abs_copy b)) in
  if neg_res && negb (is_zero ra)
  then Int2048 (a (add_abs qa (of_ll 1))) true
  else Int2048 (a qa) (neg_res && negb (is_zero qa)).
Proof.
  unfold div. destruct (divmod_abs (abs_copy x) (abs_copy b)) as [qa ra]. reflexivity.
Qed.

Lemma wf_of_ll_1 : wf (of_ll 1) = true.
Proof. reflexivity. Qed.

Lemma div_wf (x b : int2048) :
  wf x = true -> wf b = true -> wf (div x b) = true.
Proof.
  intros Hx Hb. rewrite div_unfold. cbv zeta.
  assert (Mq : magnitude (fst (divmod_abs (abs_copy x) (abs_copy b))) = true).
  { destruct (is_zero b) eqn:Hz.
    - unfold divmod_abs. rewrite is_zero_abs_copy, Hz. reflexivity.
    - apply (divmod_abs_div_mod x b Hx Hb Hz). }
  apply magnitude_elim in Mq. destruct Mq as [Wq Nq].
  set (qa := fst (divmod_abs (abs_copy x) (abs_copy b))) in *.
  set (ra := snd (divmod_abs (abs_copy x) (abs_copy b))) in *.
  destruct (negb (Bool.eqb (neg x) (neg b)) && negb (is_zero ra)).
  - destruct (add_abs_spec qa (of_ll 1) Wq wf_of_ll_1) as [Wa [_ Va]].
    apply wf_elim in Wa. destruct Wa as [Hd [Hc _]].
    apply wf_intro; [exact Hd | exact Hc |].
    intros E. rewrite E in Va. cbn in Va.
    apply wf_elim in Wq. pose proof (val_nonneg (a qa) (proj1 Wq)). lia.
  - apply wf_elim in Wq. destruct Wq as [Hd [Hc _]].
    apply wf_intro; [exact Hd | exact Hc |].
    intros E. unfold is_zero. rewrite E. cbn. apply andb_false_r.
Qed.

Lemma value_neg_true (l : list Z) : value (Int2048 l true) = - val l.
Proof. reflexivity. Qed.

Lemma value_neg_false (l : list Z) : value (Int2048 l false) = val l.
Proof. reflexivity. Qed.

(** The signed quotient is the floor of the exact quotient. *)
Lemma div_value (x b : int2048) :
  wf x = true -> wf b = true -> is_zero b = false ->
  value (div x b) = value x / value b.
Proof.
  intros Hx Hb Hz.
  destruct (divmod_abs_div_mod x b Hx Hb Hz) as [Mq [Mr [Eq Er]]].
  cbv zeta in Mq, Mr, Eq, Er.
  rewrite div_unfold. cbv zeta.
  set (qa := fst (divmod_abs (abs_copy x) (abs_copy b))) in *.
  set (ra := snd (divmod_abs (abs_copy x) (abs_copy b))) in *.
  apply magnitude_elim in Mq, Mr. destruct Mq as [Wq Nq], Mr as [Wr Nr].
  destruct (add_abs_spec qa (of_ll 1) Wq wf_of_ll_1) as [_ [_ Va]].
  change (val (a (of_ll 1))) with 1 in Va.
  pose proof Hx as Hx'. pose proof Hb as Hb'.
  apply wf_elim in Hx', Hb'.
  destruct Hx' as [Hdx [Hcx Hsx]], Hb' as [Hdb [Hcb Hsb]].
  assert (Hbpos : 0 < val (a b)).
  { pose proof (val_nonneg _ Hdb).
    assert (val (a b) <> 0); [| lia].
    intros E. apply canonical_val_zero in E; [| assumption ..].
    apply is_zero_nil in E. congruence. }
  pose proof (val_nonneg _ Hdx) as Hxnn.
  rewrite !value_abs in Eq, Er by assumption.
  assert (Hdm : val (a x) = val (a b) * val (a qa) + val (a ra)).
  { rewrite Eq, Er. apply Z.div_mod. lia. }
  assert (Hrb : 0 <= val (a ra) < val (a b)).
  { rewrite Er. apply Z.mod_pos_bound. exact Hbpos. }
  rewrite (is_zero_val ra Wr), (is_zero_val qa Wq).
  unfold value at 2 3.
  destruct (neg x), (neg b); cbn [Bool.eqb negb andb].
  - (* both negative *)
    rewrite value_neg_false. rewrite Z.div_opp_opp by lia. exact Eq.
  - destruct (Z.eqb_spec (val (a ra)) 0) as [R0 | Rn]; cbn [negb].
    + destruct (Z.eqb_spec (val (a qa)) 0) as [Q0 | Qn]; cbn [negb].
      * rewrite value_neg_false.
        apply Z.div_unique with (r := 0); lia.
      * rewrite value_neg_true.
        apply Z.div_unique with (r := 0); lia.
    + rewrite value_neg_true, Va.
      apply Z.div_unique with (r := val (a b) - val (a ra)); lia.
  - destruct (Z.eqb_spec (val (a ra)) 0) as [R0 | Rn]; cbn [negb].
    + destruct (Z.eqb_spec (val (a qa)) 0) as [Q0 | Qn]; cbn [negb].
      * rewrite value_neg_false.
        apply Z.div_unique with (r := 0); lia.
      * rewrite value_neg_true.
        apply Z.div_unique with (r := 0); lia.
    + rewrite value_neg_true, Va.
      apply Z.div_unique with (r := val (a ra) - val (a b)); lia.
  - rewrite value_neg_false. exact Eq.
Qed.

(** C5.  For a nonzero divisor, [/=] takes the magnitude quotient [qa] and
    remainder [ra] of the absolute values; when the signs differ and [ra]
    is nonzero the result has magnitude [qa + 1] and is negative, otherwise
    it has magnitude [qa] and is negative iff the signs differ and [qa] is
    nonzero.  The result is the floor of the exact quotient, and
    [parse("-5") / parse("3")] is [-2]. *)
Theorem div_floor (x b : int2048) :
  wf x = true -> wf b = true -> is_zero b = false ->
  let neg_res := negb (Bool.eqb (neg x) (neg b)) in
  let qa := fst (divmod_abs (abs_copy x) (abs_copy b)) in
  let ra := snd (divmod_abs (abs_copy x) (abs_copy b)) in
  (val (a qa) = Z.abs (value x) / Z.abs (value b) /\
   val (a ra) = Z.abs (value x) mod Z.abs (value b)) /\
  (neg_res && negb (is_zero ra) = true ->
   val (a (div x b)) = val (a qa) + 1 /\ neg (div x b) = true) /\
  (neg_res && negb (is_zero ra) = false ->
   a (div x b) = a qa /\ neg (div x b) = neg_res && negb (is_zero qa)) /\
  value (div x b) = value x / value b /\
  (div (of_string "-5") (of_string "3") = of_string "-2" /\
   print (div (of_string "-5") (of_string "3")) = "-2"%string).
Proof.
  intros Hx Hb Hz. cbv zeta.
  destruct (divmod_abs_div_mod x b Hx Hb Hz) as [Mq [_ [Eq Er]]].
  cbv zeta in Mq, Eq, Er.
  split; [split; assumption |].
  split; [| split; [| split; [apply div_value; assumption |
                              split; vm_compute; reflexivity]]].
  - intros C. rewrite div_unfold. cbv zeta. rewrite C. cbn [a neg].
    split; [| reflexivity].
    apply magnitude_elim in Mq.
    destruct (add_abs_spec _ (of_ll 1) (proj1 Mq) wf_of_ll_1) as [_ [_ Va]].
    exact Va.
  - intros C. rewrite div_unfold. cbv zeta. rewrite C. cbn [a neg].
    split; reflexivity.
Qed.

Lemma div_floor_witness :
  value (div (of_ll (-7)) (of_ll 2)) = value (of_ll (-7)) / value (of_ll 2).
Proof.
  exact (proj1 (proj2 (proj2 (proj2
    (div_floor (of_ll (-7)) (of_ll 2) eq_refl eq_refl eq_refl))))).
Defined.

(** ** Construction from [long long] *)

Lemma canonical_cons (d : Z) (l : list Z) :
  l <> [] -> canonical (d :: l) = canonical l.
Proof. intros H. apply (canonical_app [d] l H). Qed.

Lemma push_blocks_spec (fuel : nat) : forall (x : Z) (acc : list Z),
  0 <= x < BASE ^ Z.of_nat fuel ->
  exists ds, push_blocks fuel x acc = acc ++ ds /\
             digits_ok ds = true /\ canonical ds = true /\ val ds = x.
Proof.
  induction fuel as [|f IH]; intros x acc Hx.
  - change (BASE ^ Z.of_nat 0) with 1 in Hx. assert (x = 0) by lia. subst x.
    exists []. rewrite app_nil_r. repeat split.
  - cbn [push_blocks]. destruct (Z.eqb_spec x 0) as [-> | Hn]; cbn [negb].
    + exists []. rewrite app_nil_r. repeat split.
    + rewrite BASE_pow_succ in Hx.
      destruct (quot_rem_BASE x ltac:(lia)) as [E [Br Bq]].
      assert (Hq : 0 <= Z.quot x BASE < BASE ^ Z.of_nat f).
      { pose proof (BASE_pow_pos f). set (P := BASE ^ Z.of_nat f) in *.
        unfold BASE in *. nia. }
      destruct (IH (Z.quot x BASE) (acc ++ [Z.rem x BASE]) Hq) as [ds [Hp [Hd [Hc Hv]]]].
      exists (Z.rem x BASE :: ds). rewrite Hp, <- app_assoc. cbn [app].
      split; [reflexivity |]. split; [apply digits_ok_cons; tauto |].
      split.
      * destruct ds as [|e t].
        -- cbn [val] in Hv. unfold canonical. cbn [last].
           apply negb_true_iff, Z.eqb_neq. lia.
        -- rewrite canonical_cons by discriminate. exact Hc.
      * cbn [val]. rewrite Hv. lia.
Qed.

(** Once the fuel covers the number of blocks, more fuel changes nothing. *)
Lemma push_blocks_done (f1 : nat) : forall (f2 : nat) (x : Z) (acc : list Z),
  0 <= x < BASE ^ Z.of_nat f1 -> 0 <= x < BASE ^ Z.of_nat f2 ->
  push_blocks f1 x acc = push_blocks f2 x acc.
Proof.
  induction f1 as [|f1 IH]; intros f2 x acc H1 H2.
  - change (BASE ^ Z.of_nat 0) with 1 in H1. assert (x = 0) by lia. subst x.
    destruct f2; reflexivity.
  - destruct f2 as [|f2].
    + change (BASE ^ Z.of_nat 0) with 1 in H2. assert (x = 0) by lia. subst x.
      reflexivity.
    + cbn [push_blocks]. destruct (Z.eqb_spec x 0) as [-> | Hn]; cbn [negb];
        [reflexivity |].
      rewrite BASE_pow_succ in H1, H2.
      destruct (quot_rem_BASE x ltac:(lia)) as [E [Br Bq]].
      pose proof (BASE_pow_pos f1). pose proof (BASE_pow_pos f2).
      apply IH.
      * set (P := BASE ^ Z.of_nat f1) in *. unfold BASE in *. nia.
      * set (P := BASE ^ Z.of_nat f2) in *. unfold BASE in *. nia.
Qed.

Lemma two64_lt_fuel : 2 ^ 64 < BASE ^ Z.of_nat 64.
Proof. vm_compute. reflexivity. Qed.

(** The magnitude handed to the block loop is [|v|]. *)
Lemma of_ll_magnitude (v : Z) :
  - 2 ^ 63 <= v < 2 ^ 63 ->
  (if v <? 0 then to_u64 (wrap_s64 (- v)) else to_u64 v) = Z.abs v.
Proof.
  unfold to_u64, wrap_s64.
  change (2 ^ 63) with 9223372036854775808.
  change (2 ^ 64) with 18446744073709551616.
  intros H. destruct (Z.ltb_spec v 0) as [L | G].
  - destruct (Z.eq_dec v (-9223372036854775808)) as [-> | Hn]; [reflexivity |].
    rewrite (Z.mod_small (- v + 9223372036854775808)) by lia.
    rewrite Z.mod_small by lia. lia.
  - rewrite Z.mod_small by lia. lia.
Qed.

(** The value built from a [long long]. *)
Lemma of_ll_spec (v : Z) :
  - 2 ^ 63 <= v < 2 ^ 63 ->
  value (of_ll v) = v /\ wf (of_ll v) = true /\ val (a (of_ll v)) = Z.abs v.
Proof.
  intros Hv. unfold of_ll. cbv zeta.
  rewrite (of_ll_magnitude v Hv).
  assert (Hx : 0 <= Z.abs v < BASE ^ Z.of_nat 64).
  { pose proof two64_lt_fuel. change (2 ^ 64) with (2 * 2 ^ 63) in H. lia. }
  destruct (push_blocks_spec 64 (Z.abs v) [] Hx) as [ds [Hp [Hd [Hc Hval]]]].
  rewrite Hp. cbn [app].
  assert (Ea : a (trim (Int2048 ds (v <? 0))) = ds).
  { rewrite a_trim. apply strip_canonical_id, Hc. }
  assert (En : neg (trim (Int2048 ds (v <? 0))) = (v <? 0)).
  { unfold trim. cbn [a neg]. rewrite trim_digits_strip, strip_canonical_id by exact Hc.
    destruct ds as [|d t]; [| reflexivity]. cbn [length Nat.eqb].
    cbn [val] in Hval. symmetry. apply Z.ltb_ge. lia. }
  split; [| split].
  - unfold value. rewrite Ea, En, Hval. destruct (Z.ltb_spec v 0); lia.
  - apply trim_wf. exact Hd.
  - rewrite Ea. exact Hval.
Qed.

(** C10.  For every [long long] value [v], the minimum [-2^63] included,
    [int2048(v)] is a well-formed value that denotes [v]; for a negative
    [v] its magnitude is the negation taken modulo [2^64]. *)
Theorem of_ll_value (v : Z) :
  - 2 ^ 63 <= v < 2 ^ 63 ->
  value (of_ll v) = v /\ wf (of_ll v) = true /\
  (v < 0 -> val (a (of_ll v)) = (- v) mod 2 ^ 64) /\
  value (of_ll (- 2 ^ 63)) = - 2 ^ 63.
Proof.
  intros Hv. destruct (of_ll_spec v Hv) as [E [W A]].
  split; [exact E |]. split; [exact W |]. split.
  - intros L. rewrite A.
    change (2 ^ 63) with 9223372036854775808 in Hv.
    change (2 ^ 64) with 18446744073709551616.
    rewrite Z.mod_small by lia. lia.
  - vm_compute. reflexivity.
Qed.

Lemma of_ll_value_witness :
  value (of_ll (- 2 ^ 63)) = - 2 ^ 63 /\ wf (of_ll (- 2 ^ 63)) = true.
Proof.
  assert (H : - 2 ^ 63 <= - 2 ^ 63 < 2 ^ 63) by (vm_compute; split; congruence).
  split.
  - exact (proj1 (of_ll_value (- 2 ^ 63) H)).
  - exact (proj1 (proj2 (of_ll_value (- 2 ^ 63) H))).
Defined.

(** ** Text output *)

Lemma blocks_agree_all :
  forallb blocks_agree (map Z.of_nat (seq 0 (Z.to_nat BASE))) = true.
Proof. vm_compute. reflexivity. Qed.

Lemma block_text (v : Z) :
  0 <= v < BASE ->
  print_block v = pad4 v /\ stream_block v = pad4 v /\ String.length (pad4 v) = 4%nat.
Proof.
  intros Hv. pose proof blocks_agree_all as H.
  rewrite forallb_forall in H. specialize (H v).
  assert (Hin : In v (map Z.of_nat (seq 0 (Z.to_nat BASE)))).
  { rewrite <- (Z2Nat.id v) by lia. apply in_map, in_seq. lia. }
  specialize (H Hin). unfold blocks_agree in H.
  rewrite !andb_true_iff, !String.eqb_eq, Nat.eqb_eq in H. tauto.
Qed.

Lemma string_app_assoc (s1 s2 s3 : string) :
  ((s1 ++ s2) ++ s3 = s1 ++ (s2 ++ s3))%string.
Proof. induction s1 as [|c s IH]; cbn; [reflexivity | rewrite IH; reflexivity]. Qed.

Lemma print_blocks_text (l : list Z) : forall rest : list Z,
  digits_ok l = true ->
  print_blocks (length l) (l ++ rest) = padded_blocks (rev l).
Proof.
  induction l as [|d l IH] using rev_ind; intros rest Hd; [reflexivity |].
  apply digits_ok_app in Hd. destruct Hd as [Hl Hd].
  apply digits_ok_cons in Hd. destruct Hd as [Hd _].
  rewrite length_app, Nat.add_1_r, rev_app_distr. cbn [rev app length print_blocks padded_blocks].
  rewrite <- app_assoc. cbn [app]. unfold at_. rewrite nth_middle.
  rewrite (IH (d :: rest) Hl).
  destruct (block_text d Hd) as [E _]. rewrite <- E. unfold print_block.
  rewrite !string_app_assoc. reflexivity.
Qed.

Lemma stream_blocks_text (l : list Z) : forall rest : list Z,
  digits_ok l = true ->
  stream_blocks (length l) (l ++ rest) = padded_blocks (rev l).
Proof.
  induction l as [|d l IH] using rev_ind; intros rest Hd; [reflexivity |].
  apply digits_ok_app in Hd. destruct Hd as [Hl Hd].
  apply digits_ok_cons in Hd. destruct Hd as [Hd _].
  rewrite length_app, Nat.add_1_r, rev_app_distr. cbn [rev app length stream_blocks padded_blocks].
  rewrite <- app_assoc. cbn [app]. unfold at_. rewrite nth_middle.
  rewrite (IH (d :: rest) Hl).
  destruct (block_text d Hd) as [_ [E _]]. rewrite <- E. reflexivity.
Qed.

(** C9.  On every well-formed value [print] and [operator<<] send the same
    characters, and these are the canonical decimal text: ["0"] for zero,
    otherwise an optional ['-'], the top block unpadded and every later
    block padded with zeros to exactly four digits. *)
Theorem print_stream_agree (x : int2048) :
  wf x = true ->
  print x = stream_out x /\ print x = canonical_text x /\
  Forall (fun v => String.length (pad4 v) = 4%nat) (a x).
Proof.
  intros Hx. apply wf_elim in Hx. destruct Hx as [Hd _].
  assert (Hpad : Forall (fun v => String.length (pad4 v) = 4%nat) (a x)).
  { apply Forall_forall. intros v Hin.
    apply block_text. apply digit_ok_iff.
    unfold digits_ok in Hd. rewrite forallb_forall in Hd. apply Hd, Hin. }
  unfold print, stream_out, canonical_text, is_zero.
  destruct (a x) as [|d0 t0] eqn:Ea using rev_ind.
  - repeat split. exact Hpad.
  - clear IHt0. apply digits_ok_app in Hd. destruct Hd as [Ht _].
    rewrite length_app, Nat.add_1_r, rev_app_distr.
    cbn [Nat.eqb rev app]. rewrite Nat.sub_succ, Nat.sub_0_r.
    unfold at_. rewrite nth_middle.
    rewrite print_blocks_text, stream_blocks_text by exact Ht.
    repeat split. exact Hpad.
Qed.

Lemma print_stream_agree_witness :
  print (of_ll (-100020003)) = stream_out (of_ll (-100020003)) /\
  print (of_ll (-100020003)) = "-100020003"%string.
Proof.
  destruct (print_stream_agree (of_ll (-100020003)) eq_refl) as [E1 [E2 _]].
  split; [exact E1 |]. rewrite E2. vm_compute. reflexivity.
Defined.

(** ** Text input *)

Lemma char_at_middle (pre post : list ascii) (c : ascii) :
  char_at (pre ++ c :: post) (Z.of_nat (length pre)) = c.
Proof. unfold char_at. rewrite Nat2Z.id. apply nth_middle. Qed.

Lemma space_non_digit (c : ascii) : is_space c = true -> is_digit c = false.
Proof.
  unfold is_space, is_digit. rewrite !orb_true_iff, !Z.eqb_eq.
  intros H. apply andb_false_iff.
  destruct (Z.geb_spec (code c) 48); [right | left; reflexivity].
  apply Z.leb_gt. lia.
Qed.

Lemma sign_non_digit (c : ascii) : is_sign c = true -> is_digit c = false.
Proof.
  unfold is_sign, is_digit. rewrite !orb_true_iff, !Z.eqb_eq.
  intros H. apply andb_false_iff.
  destruct (Z.geb_spec (code c) 48); [right | left; reflexivity].
  apply Z.leb_gt. lia.
Qed.

Lemma take_drop_spaces (l : list ascii) : take_spaces l ++ drop_spaces l = l.
Proof.
  induction l as [|c t IH]; [reflexivity |]. cbn [take_spaces drop_spaces].
  destruct (is_space c); [cbn [app]; rewrite IH |]; reflexivity.
Qed.

Lemma take_spaces_non_digit (l : list ascii) :
  forallb non_digit (take_spaces l) = true.
Proof.
  induction l as [|c t IH]; [reflexivity |]. cbn [take_spaces].
  destruct (is_space c) eqn:E; [| reflexivity].
  cbn [forallb]. unfold non_digit at 1. rewrite (space_non_digit c E). exact IH.
Qed.

Lemma skip_spaces_spec (fuel : nat) : forall pre rest : list ascii,
  (length rest <= fuel)%nat ->
  skip_spaces fuel (pre ++ rest) (Z.of_nat (length (pre ++ rest))) (Z.of_nat (length pre))
  = Z.of_nat (length (pre ++ take_spaces rest)).
Proof.
  induction fuel as [|f IH]; intros pre rest Hl.
  - destruct rest; [| simpl in Hl; lia]. cbn [take_spaces skip_spaces].
    rewrite app_nil_r. reflexivity.
  - cbn [skip_spaces]. destruct rest as [|c t].
    + cbn [take_spaces]. rewrite app_nil_r, Z.ltb_irrefl. reflexivity.
    + rewrite char_at_middle.
      assert (L : (Z.of_nat (length pre) <? Z.of_nat (length (pre ++ c :: t))) = true).
      { apply Z.ltb_lt. rewrite length_app. cbn [length]. lia. }
      rewrite L. cbn [andb take_spaces]. destruct (is_space c) eqn:E.
      * replace (pre ++ c :: t) with ((pre ++ [c]) ++ t) by (rewrite <- app_assoc; reflexivity).
        replace (Z.of_nat (length pre) + 1) with (Z.of_nat (length (pre ++ [c])))
          by (rewrite length_app; cbn [length]; lia).
        rewrite IH by (simpl in Hl; lia).
        rewrite <- app_assoc. reflexivity.
      * rewrite app_nil_r. reflexivity.
Qed.

Lemma sign_step (ws rest : list ascii) :
  forallb non_digit ws = true ->
  exists pre,
    ws ++ rest = pre ++ snd (strip_sign rest) /\
    (let cs := ws ++ rest in
     let n := Z.of_nat (length cs) in
     let i := Z.of_nat (length ws) in
     if (i <? n) && ((code (char_at cs i) =? 43) || (code (char_at cs i) =? 45))
     then (code (char_at cs i) =? 45, i + 1)
     else (false, i))
    = (fst (strip_sign rest), Z.of_nat (length pre)) /\
    forallb non_digit pre = true.
Proof.
  intros Hnd. cbv zeta. destruct rest as [|c t].
  - exists ws. rewrite app_nil_r, Z.ltb_irrefl. cbn. rewrite app_nil_r.
    repeat split. exact Hnd.
  - rewrite char_at_middle.
    assert (L : (Z.of_nat (length ws) <? Z.of_nat (length (ws ++ c :: t))) = true).
    { apply Z.ltb_lt. rewrite length_app. cbn [length]. lia. }
    rewrite L. cbn [andb strip_sign]. fold (is_sign c).
    destruct (is_sign c) eqn:E; cbn [fst snd].
    + exists (ws ++ [c]). rewrite <- app_assoc. split; [reflexivity |].
      split.
      * rewrite length_app. cbn [length]. f_equal. lia.
      * rewrite forallb_app, Hnd. cbn. unfold non_digit.
        rewrite (sign_non_digit c E). reflexivity.
    + exists ws. repeat split. exact Hnd.
Qed.

(** The blanks and the sign that [read] passes over. *)
Lemma read_sign_spec (cs : list ascii) :
  exists pre,
    cs = pre ++ snd (strip_sign (drop_spaces cs)) /\
    read_sign cs = (fst (strip_sign (drop_spaces cs)), Z.of_nat (length pre)) /\
    forallb non_digit pre = true.
Proof.
  unfold read_sign.
  pose proof (skip_spaces_spec (length cs) [] cs (le_n _)) as Hs.
  cbn [app length] in Hs. change (Z.of_nat 0) with 0 in Hs. rewrite Hs. clear Hs.
  pose proof (sign_step (take_spaces cs) (drop_spaces cs) (take_spaces_non_digit cs)) as H.
  cbv zeta in H. rewrite take_drop_spaces in H. exact H.
Qed.

Lemma rstrip_snoc_digit (l : list ascii) (c : ascii) :
  is_digit c = true -> rstrip (l ++ [c]) = l ++ [c].
Proof.
  intros H. unfold rstrip. rewrite rev_app_distr. cbn [rev app drop_nondigits].
  rewrite H. cbn [rev]. rewrite rev_involutive. reflexivity.
Qed.

Lemma rstrip_snoc_non_digit (l : list ascii) (c : ascii) :
  is_digit c = false -> rstrip (l ++ [c]) = rstrip l.
Proof.
  intros H. unfold rstrip. rewrite rev_app_distr. cbn [rev app drop_nondigits].
  rewrite H. reflexivity.
Qed.

Lemma rstrip_app_junk (l junk : list ascii) :
  forallb non_digit junk = true -> rstrip (l ++ junk) = rstrip l.
Proof.
  induction junk as [|c t IH] using rev_ind; intros H.
  - rewrite app_nil_r. reflexivity.
  - rewrite forallb_app in H. apply andb_true_iff in H. destruct H as [Ht Hc].
    cbn in Hc. rewrite andb_true_r in Hc. apply negb_true_iff in Hc.
    rewrite app_assoc, rstrip_snoc_non_digit by exact Hc. apply IH, Ht.
Qed.

Lemma rstrip_digits (ds : list ascii) : forallb is_digit ds = true -> rstrip ds = ds.
Proof.
  destruct ds as [|c t] using rev_ind; intros H; [reflexivity |].
  rewrite forallb_app in H. apply andb_true_iff in H. destruct H as [_ Hc].
  cbn in Hc. rewrite andb_true_r in Hc. apply rstrip_snoc_digit, Hc.
Qed.

Lemma last_digit_spec (fuel : nat) : forall pre mid post : list ascii,
  (length mid <= fuel)%nat ->
  last_digit fuel (pre ++ mid ++ post) (Z.of_nat (length pre))
    (Z.of_nat (length pre) + Z.of_nat (length mid) - 1)
  = Z.of_nat (length pre) + Z.of_nat (length (rstrip mid)) - 1.
Proof.
  induction fuel as [|f IH]; intros pre mid post Hl.
  - destruct mid; [reflexivity | simpl in Hl; lia].
  - cbn [last_digit]. destruct mid as [|c m] using rev_ind.
    + cbn [length rstrip]. destruct (Z.geb_spec (Z.of_nat (length pre) + Z.of_nat 0 - 1)
                                      (Z.of_nat (length pre))); [lia | reflexivity].
    + clear IHm. rewrite length_app in *. cbn [length] in *.
      replace (Z.of_nat (length pre) + Z.of_nat (length m + 1) - 1)
        with (Z.of_nat (length (pre ++ m))) by (rewrite length_app; lia).
      replace (pre ++ (m ++ [c]) ++ post) with ((pre ++ m) ++ c :: post)
        by (rewrite <- !app_assoc; reflexivity).
      rewrite char_at_middle.
      destruct (Z.geb_spec (Z.of_nat (length (pre ++ m))) (Z.of_nat (length pre)))
        as [_ | Hlt]; [| rewrite length_app in Hlt; lia].
      cbn [andb]. destruct (is_digit c) eqn:E; cbn [negb].
      * rewrite rstrip_snoc_digit by exact E. rewrite !length_app. cbn [length]. lia.
      * rewrite rstrip_snoc_non_digit by exact E.
        replace ((pre ++ m) ++ c :: post) with (pre ++ m ++ c :: post)
          by (rewrite <- app_assoc; reflexivity).
        replace (Z.of_nat (length (pre ++ m)) - 1)
          with (Z.of_nat (length pre) + Z.of_nat (length m) - 1)
          by (rewrite length_app; lia).
        apply IH. lia.
Qed.

Lemma block_value_spec (m : list ascii) : forall (pre post : list ascii) (v : Z),
  block_value (length m) (pre ++ m ++ post) (Z.of_nat (length pre)) v
  = fold_left guarded_step m v.
Proof.
  induction m as [|c t IH]; intros pre post v; [reflexivity |].
  cbn [length block_value fold_left app]. rewrite char_at_middle.
  replace (pre ++ c :: t ++ post) with ((pre ++ [c]) ++ t ++ post)
    by (rewrite <- app_assoc; reflexivity).
  replace (Z.of_nat (length pre) + 1) with (Z.of_nat (length (pre ++ [c])))
    by (rewrite length_app; cbn [length]; lia).
  rewrite IH. reflexivity.
Qed.

Lemma guarded_step_digits (m : list ascii) (v : Z) :
  forallb is_digit m = true -> fold_left guarded_step m v = fold_left dec_step m v.
Proof.
  revert v; induction m as [|c t IH]; intros v H; [reflexivity |].
  cbn [forallb] in H. apply andb_true_iff in H. destruct H as [Hc Ht].
  cbn [fold_left]. unfold guarded_step at 2. rewrite Hc. apply IH, Ht.
Qed.

Lemma dec_from (m : list ascii) : forall v : Z,
  fold_left dec_step m v = v * 10 ^ Z.of_nat (length m) + decimal m.
Proof.
  unfold decimal. induction m as [|c t IH]; intros v.
  - cbn [fold_left length]. change (10 ^ Z.of_nat 0) with 1. lia.
  - cbn [fold_left length]. rewrite (IH (dec_step v c)), (IH (dec_step 0 c)).
    rewrite Nat2Z.inj_succ, Z.pow_succ_r by lia. unfold dec_step. ring.
Qed.

Lemma decimal_app (l1 l2 : list ascii) :
  decimal (l1 ++ l2) = decimal l1 * 10 ^ Z.of_nat (length l2) + decimal l2.
Proof. unfold decimal at 1. rewrite fold_left_app. apply dec_from. Qed.

Lemma digit_code (c : ascii) : is_digit c = true -> 0 <= code c - 48 <= 9.
Proof.
  unfold is_digit. rewrite andb_true_iff, Z.geb_le, Z.leb_le. lia.
Qed.

Lemma decimal_bound (ds : list ascii) :
  forallb is_digit ds = true -> 0 <= decimal ds < 10 ^ Z.of_nat (length ds).
Proof.
  induction ds as [|c t IH] using rev_ind; intros H.
  - cbn. lia.
  - rewrite forallb_app in H. apply andb_true_iff in H. destruct H as [Ht Hc].
    cbn in Hc. rewrite andb_true_r in Hc. apply digit_code in Hc.
    specialize (IH Ht). rewrite decimal_app, length_app. cbn [length].
    replace (Z.of_nat (length t + 1)) with (Z.succ (Z.of_nat (length t))) by lia.
    rewrite Z.pow_succ_r by lia.
    change (decimal [c]) with (0 * 10 + (code c - 48)).
    change (10 ^ Z.of_nat 1) with 10. lia.
Qed.

Lemma forallb_firstn {A} (f : A -> bool) (l : list A) (n : nat) :
  forallb f l = true -> forallb f (firstn n l) = true.
Proof.
  intros H. rewrite <- (firstn_skipn n l), forallb_app in H.
  apply andb_true_iff in H. tauto.
Qed.

Lemma forallb_skipn {A} (f : A -> bool) (l : list A) (n : nat) :
  forallb f l = true -> forallb f (skipn n l) = true.
Proof.
  intros H. rewrite <- (firstn_skipn n l), forallb_app in H.
  apply andb_true_iff in H. tauto.
Qed.

Lemma split_last_block {A} (ds : list A) :
  exists ds1 ds2,
    ds = ds1 ++ ds2 /\ length ds2 = Nat.min 4 (length ds) /\
    length ds1 = (length ds - Nat.min 4 (length ds))%nat.
Proof.
  exists (firstn (length ds - Nat.min 4 (length ds)) ds),
         (skipn (length ds - Nat.min 4 (length ds)) ds).
  split; [symmetry; apply firstn_skipn |].
  rewrite length_firstn, length_skipn. lia.
Qed.

Lemma guarded_step_junk (m : list ascii) (v : Z) :
  forallb non_digit m = true -> fold_left guarded_step m v = v.
Proof.
  revert v; induction m as [|c t IH]; intros v H; [reflexivity |].
  cbn [forallb] in H. apply andb_true_iff in H. destruct H as [Hc Ht].
  apply negb_true_iff in Hc.
  cbn [fold_left]. unfold guarded_step at 2. rewrite Hc. apply IH, Ht.
Qed.

Lemma pow10_le_BASE (n : nat) : (n <= 4)%nat -> 10 ^ Z.of_nat n <= BASE.
Proof. intros H. change BASE with (10 ^ 4). apply Z.pow_le_mono_r; lia. Qed.

(** The last block of a text made of non-digits followed by a run of
    digits: what is left in front of it is again of this form, and the
    block carries the low digits of the run. *)
Lemma split_run (j1 ds r1 r2 : list ascii) :
  j1 ++ ds = r1 ++ r2 ->
  forallb non_digit j1 = true -> forallb is_digit ds = true ->
  length r2 = Nat.min 4 (length (r1 ++ r2)) ->
  exists j1' ds',
    r1 = j1' ++ ds' /\ forallb non_digit j1' = true /\ forallb is_digit ds' = true /\
    decimal ds = fold_left guarded_step r2 0 + BASE * decimal ds' /\
    0 <= fold_left guarded_step r2 0 < BASE.
Proof.
  intros E Hj Hd L2. rewrite length_app in L2.
  apply app_eq_app in E. destruct E as [m [[E1 E2] | [E1 E2]]].
  - (* the block starts inside the non-digits *)
    subst j1 r2. rewrite forallb_app in Hj. apply andb_true_iff in Hj.
    destruct Hj as [Hr1 Hm].
    exists r1, []. rewrite app_nil_r. split; [reflexivity |].
    split; [exact Hr1 |]. split; [reflexivity |].
    rewrite fold_left_app, (guarded_step_junk m 0 Hm).
    rewrite guarded_step_digits by exact Hd. fold (decimal ds).
    pose proof (decimal_bound ds Hd) as B.
    pose proof (pow10_le_BASE (length ds) ltac:(rewrite length_app in L2; lia)).
    change (decimal []) with 0. lia.
  - (* the block is made of digits *)
    subst r1 ds. rewrite forallb_app in Hd. apply andb_true_iff in Hd.
    destruct Hd as [Hm Hr2].
    exists j1, m. split; [reflexivity |]. split; [exact Hj |]. split; [exact Hm |].
    rewrite guarded_step_digits by exact Hr2. fold (decimal r2).
    pose proof (decimal_bound r2 Hr2) as B.
    pose proof (pow10_le_BASE (length r2) ltac:(lia)).
    split; [| lia]. rewrite decimal_app.
    destruct (Nat.le_gt_cases 4 (length (j1 ++ m) + length r2)) as [G4 | L4].
    + replace (length r2) with 4%nat by lia. change (10 ^ Z.of_nat 4) with BASE. ring.
    + assert (m = []).
      { apply length_zero_iff_nil. rewrite length_app in *. lia. }
      subst m. change (decimal []) with 0. lia.
Qed.

(** The block loop on non-digits followed by a run of digits: the blocks
    denote the decimal value of the run. *)
Lemma read_blocks_spec (fuel : nat) :
  forall (pre j1 ds post : list ascii) (p : Z) (acc : list Z),
  forallb non_digit j1 = true -> forallb is_digit ds = true ->
  (length (j1 ++ ds) <= fuel)%nat ->
  Z.to_nat (p - Z.of_nat (length pre) + 1) = length (j1 ++ ds) ->
  exists bs,
    read_blocks fuel (pre ++ (j1 ++ ds) ++ post) (Z.of_nat (length pre)) p acc
    = acc ++ bs /\
    digits_ok bs = true /\ val bs = decimal ds.
Proof.
  induction fuel as [|f IH]; intros pre j1 ds post p acc Hj Hd Hl Hp.
  - assert (E : j1 ++ ds = []) by (apply length_zero_iff_nil; lia).
    apply app_eq_nil in E. destruct E as [-> ->].
    exists []. cbn [read_blocks].
    split; [symmetry; apply app_nil_r | split; reflexivity].
  - cbn [read_blocks]. destruct (Z.geb_spec p (Z.of_nat (length pre))) as [Ge | Lt].
    + destruct (split_last_block (j1 ++ ds)) as [r1 [r2 [E [L2 L1]]]].
      assert (L2' : length r2 = Nat.min 4 (length (r1 ++ r2))) by (rewrite <- E; exact L2).
      destruct (split_run j1 ds r1 r2 E Hj Hd L2') as [j1' [ds' [E1 [Hj' [Hd' [Hv Hb]]]]]].
      clear L2'. remember (length (j1 ++ ds)) as n eqn:En. rewrite E. clear En E.
      assert (Hn : (1 <= n)%nat) by lia.
      unfold BASE_DIGS.
      assert (El : (if p - (4 - 1) <? Z.of_nat (length pre)
                    then Z.of_nat (length pre) else p - (4 - 1))
                   = Z.of_nat (length (pre ++ r1))).
      { rewrite length_app, L1.
        destruct (Z.ltb_spec (p - (4 - 1)) (Z.of_nat (length pre))); lia. }
      rewrite El.
      replace (Z.to_nat (p - Z.of_nat (length (pre ++ r1)) + 1)) with (length r2)
        by (rewrite length_app, L1, L2; lia).
      replace (pre ++ (r1 ++ r2) ++ post) with ((pre ++ r1) ++ r2 ++ post)
        by (rewrite <- !app_assoc; reflexivity).
      rewrite block_value_spec.
      replace ((pre ++ r1) ++ r2 ++ post) with (pre ++ r1 ++ (r2 ++ post))
        by (rewrite <- !app_assoc; reflexivity).
      subst r1.
      destruct (IH pre j1' ds' (r2 ++ post) (p - 4)
                  (acc ++ [fold_left guarded_step r2 0]) Hj' Hd'
                  ltac:(lia) ltac:(rewrite L1; lia)) as [bs1 [Hr [Hok Hv1]]].
      exists (fold_left guarded_step r2 0 :: bs1). rewrite Hr, <- app_assoc. cbn [app].
      split; [reflexivity |]. split.
      * apply digits_ok_cons. split; [exact Hb | exact Hok].
      * cbn [val]. rewrite Hv1, Hv. reflexivity.
    + assert (E : j1 ++ ds = []) by (apply length_zero_iff_nil; lia).
      apply app_eq_nil in E. destruct E as [-> ->].
      exists []. split; [symmetry; apply app_nil_r | split; reflexivity].
Qed.

Lemma forallb_rev {A} (f : A -> bool) (l : list A) :
  forallb f l = true -> forallb f (rev l) = true.
Proof.
  rewrite !forallb_forall. intros H x Hin. apply H, in_rev, Hin.
Qed.

Lemma drop_nondigits_app (l1 l2 : list ascii) :
  forallb non_digit l1 = true -> drop_nondigits (l1 ++ l2) = drop_nondigits l2.
Proof.
  induction l1 as [|c t IH]; intros H; [reflexivity |].
  cbn [forallb] in H. apply andb_true_iff in H. destruct H as [Hc Ht].
  apply negb_true_iff in Hc. cbn [app drop_nondigits]. rewrite Hc. apply IH, Ht.
Qed.

Lemma take_digits_app (l1 l2 : list ascii) :
  forallb is_digit l1 = true -> take_digits (l1 ++ l2) = l1 ++ take_digits l2.
Proof.
  induction l1 as [|c t IH]; intros H; [reflexivity |].
  cbn [forallb] in H. apply andb_true_iff in H. destruct H as [Hc Ht].
  cbn [app take_digits]. rewrite Hc, IH by exact Ht. reflexivity.
Qed.

Lemma take_digits_none (l : list ascii) :
  forallb non_digit l = true -> take_digits l = [].
Proof.
  destruct l as [|c t]; [reflexivity |]. cbn [forallb]. intros H.
  apply andb_true_iff in H. destruct H as [Hc _]. apply negb_true_iff in Hc.
  cbn [take_digits]. rewrite Hc. reflexivity.
Qed.

(** Between non-digits, a run of digits is the longest trailing run. *)
Lemma trailing_run_spec (pre ds junk : list ascii) :
  forallb non_digit pre = true -> forallb is_digit ds = true ->
  forallb non_digit junk = true ->
  trailing_run (pre ++ ds ++ junk) = ds.
Proof.
  intros Hp Hd Hj. unfold trailing_run.
  rewrite !rev_app_distr, <- app_assoc.
  rewrite drop_nondigits_app by (apply forallb_rev, Hj).
  destruct ds as [|c t] using rev_ind.
  - cbn [rev app]. rewrite <- (app_nil_r (rev pre)).
    rewrite drop_nondigits_app by (apply forallb_rev, Hp). reflexivity.
  - clear IHt. pose proof (forallb_rev _ _ Hd) as Hr.
    rewrite rev_app_distr in *. cbn [rev app] in *.
    cbn [forallb] in Hr. apply andb_true_iff in Hr. destruct Hr as [Hc Ht].
    cbn [drop_nondigits]. rewrite Hc.
    change (c :: rev t ++ rev pre) with ((c :: rev t) ++ rev pre).
    rewrite take_digits_app by (cbn [forallb]; rewrite Hc, Ht; reflexivity).
    rewrite take_digits_none by (apply forallb_rev, Hp).
    rewrite app_nil_r. cbn [rev]. rewrite rev_involutive. reflexivity.
Qed.

Lemma rstrip_run (j1 ds j2 : list ascii) :
  forallb is_digit ds = true -> forallb non_digit j2 = true -> ds <> [] ->
  rstrip (j1 ++ ds ++ j2) = j1 ++ ds.
Proof.
  intros Hd Hj Hne. rewrite app_assoc, rstrip_app_junk by exact Hj.
  destruct (exists_last Hne) as [t [c E]]. subst ds.
  rewrite forallb_app in Hd. apply andb_true_iff in Hd. destruct Hd as [_ Hc].
  cbn in Hc. rewrite andb_true_r in Hc.
  rewrite app_assoc. apply rstrip_snoc_digit, Hc.
Qed.

Lemma rstrip_junk (j : list ascii) : forallb non_digit j = true -> rstrip j = [].
Proof. intros H. apply (rstrip_app_junk [] j H). Qed.

Lemma last_digit_run (pre j1 ds j2 : list ascii) :
  forallb non_digit j1 = true -> forallb is_digit ds = true ->
  forallb non_digit j2 = true ->
  last_digit (length (pre ++ j1 ++ ds ++ j2)) (pre ++ j1 ++ ds ++ j2)
    (Z.of_nat (length pre)) (Z.of_nat (length (pre ++ j1 ++ ds ++ j2)) - 1)
  = if Nat.eqb (length ds) 0 then Z.of_nat (length pre) - 1
    else Z.of_nat (length pre) + Z.of_nat (length (j1 ++ ds)) - 1.
Proof.
  intros Hj1 Hd Hj2.
  pose proof (last_digit_spec (length (pre ++ j1 ++ ds ++ j2)) pre (j1 ++ ds ++ j2) []) as H.
  rewrite app_nil_r in H.
  replace (Z.of_nat (length (pre ++ j1 ++ ds ++ j2)) - 1)
    with (Z.of_nat (length pre) + Z.of_nat (length (j1 ++ ds ++ j2)) - 1)
    by (rewrite !length_app; lia).
  rewrite H by (rewrite !length_app; lia). clear H.
  destruct ds as [|c t].
  - cbn [app length Nat.eqb]. rewrite rstrip_junk; [cbn [length]; lia |].
    rewrite forallb_app, Hj1, Hj2. reflexivity.
  - rewrite rstrip_run by (assumption || discriminate). reflexivity.
Qed.

(** C4, as the code has it.  [read] passes over the leading blanks and one
    optional sign.  When the rest of the text holds at most one run of
    digits (non-digit characters, a run of digits, non-digit characters),
    that run is the longest trailing run of digits of the text, the
    magnitude read is its decimal value, and the result is negative iff the
    sign is ['-'] and the value is not zero.  A text without any digit gives
    zero.  The result is always well-formed. *)
Theorem read_digit_run (s : string) (junk1 ds junk2 : list ascii) :
  let cs := list_ascii_of_string s in
  let ng := fst (strip_sign (drop_spaces cs)) in
  let body := snd (strip_sign (drop_spaces cs)) in
  body = junk1 ++ ds ++ junk2 ->
  forallb non_digit junk1 = true -> forallb is_digit ds = true ->
  forallb non_digit junk2 = true ->
  val (a (read s)) = decimal ds /\
  trailing_run cs = ds /\
  neg (read s) = ng && negb (decimal ds =? 0) /\
  wf (read s) = true /\
  (ds = [] -> read s = zero).
Proof.
  cbv zeta. intros Hbody Hj1 Hd Hj2. unfold read.
  destruct (read_sign_spec (list_ascii_of_string s)) as [pre [Hcs [Hrs Hnd]]].
  rewrite Hrs. rewrite Hbody in Hcs.
  set (ng := fst (strip_sign (drop_spaces (list_ascii_of_string s)))) in *.
  clearbody ng. clear Hrs Hbody.
  remember (list_ascii_of_string s) as cs eqn:Ecs. clear Ecs s. subst cs.
  rewrite last_digit_run by assumption.
  assert (Htr : trailing_run (pre ++ junk1 ++ ds ++ junk2) = ds).
  { rewrite app_assoc. apply trailing_run_spec; try assumption.
    rewrite forallb_app, Hnd, Hj1. reflexivity. }
  destruct ds as [|c t] eqn:Eds.
  - (* no digit at all *)
    cbn [length Nat.eqb].
    destruct (Z.ltb_spec (Z.of_nat (length pre) - 1) (Z.of_nat (length pre))); [| lia].
    cbn [a neg val decimal fold_left]. rewrite andb_false_r.
    repeat split. exact Htr.
  - rewrite <- Eds in *. assert (Hne : (0 < length ds)%nat) by (subst ds; cbn; lia).
    clear Eds c t.
    destruct (Nat.eqb_spec (length ds) 0) as [E0 | _]; [lia |].
    destruct (Z.ltb_spec (Z.of_nat (length pre) + Z.of_nat (length (junk1 ++ ds)) - 1)
                         (Z.of_nat (length pre))) as [Lt | Ge];
      [rewrite length_app in Lt; lia |].
    replace (pre ++ junk1 ++ ds ++ junk2) with (pre ++ (junk1 ++ ds) ++ junk2)
      by (rewrite <- !app_assoc; reflexivity).
    destruct (read_blocks_spec (length (pre ++ (junk1 ++ ds) ++ junk2)) pre junk1 ds junk2
                (Z.of_nat (length pre) + Z.of_nat (length (junk1 ++ ds)) - 1) [] Hj1 Hd
                ltac:(rewrite !length_app; lia) ltac:(lia)) as [bs [Hr [Hok Hv]]].
    rewrite Hr. cbn [app].
    pose proof (trim_wf (Int2048 bs ng) Hok) as Wt.
    pose proof (is_zero_val _ Wt) as Hz. rewrite a_trim in Hz. cbn [a] in Hz.
    rewrite val_strip, Hv in Hz.
    split; [| split; [| split; [| split]]].
    + destruct (is_zero (trim (Int2048 bs ng))); cbn [a];
        rewrite a_trim; cbn [a]; rewrite val_strip; exact Hv.
    + replace (pre ++ (junk1 ++ ds) ++ junk2) with (pre ++ junk1 ++ ds ++ junk2)
        by (rewrite <- !app_assoc; reflexivity).
      exact Htr.
    + rewrite Hz. destruct (Z.eqb_spec (decimal ds) 0) as [E0 | N0].
      * cbn [neg negb]. rewrite andb_false_r. reflexivity.
      * cbn [negb]. rewrite andb_true_r. unfold trim. cbn [a neg].
        unfold is_zero in Hz. unfold trim in Hz. cbn [a] in Hz. rewrite Hz.
        reflexivity.
    + destruct (is_zero (trim (Int2048 bs ng))) eqn:Z0; [| exact Wt].
      apply wf_elim in Wt. destruct Wt as [W1 [W2 _]].
      apply wf_intro; [exact W1 | exact W2 | reflexivity].
    + intros ->. simpl in Hne. lia.
Qed.

Lemma read_digit_run_witness :
  val (a (read "  +007 ")) = 7 /\ val (a (read "-x12345y")) = 12345 /\ read "" = zero.
Proof.
  split; [| split].
  - exact (proj1 (read_digit_run "  +007 " [] ["0"; "0"; "7"]%char [" "]%char
                    eq_refl eq_refl eq_refl eq_refl)).
  - exact (proj1 (read_digit_run "-x12345y" ["x"]%char
                    ["1"; "2"; "3"; "4"; "5"]%char ["y"]%char
                    eq_refl eq_refl eq_refl eq_refl)).
  - exact (proj2 (proj2 (proj2 (proj2
             (read_digit_run "" [] [] [] eq_refl eq_refl eq_refl eq_refl)))) eq_refl).
Defined.

(** C4, as the specification states it, fails: a non-digit character
    between digits does not end the run that is read.  In ["12a34"] the
    longest trailing run of digits is ["34"], and [read] yields 10234. *)
Lemma read_trailing_run_counterexample :
  val (a (read "12a34")) = 10234 /\
  decimal (trailing_run (list_ascii_of_string "12a34")) = 34 /\
  val (a (read "12a34")) <> decimal (trailing_run (list_ascii_of_string "12a34")).
Proof.
  split; [reflexivity |]. split; [reflexivity |]. vm_compute. discriminate.
Qed.

(** ** Well-formedness of the results of the public operations *)

Lemma wf_canonical_form (x : int2048) : wf x = true -> canonical_form x = true.
Proof. unfold wf. rewrite andb_true_iff. tauto. Qed.

Lemma wf_zero : wf zero = true.
Proof. reflexivity. Qed.

Lemma copy_id (x : int2048) : copy x = x.
Proof. destruct x; reflexivity. Qed.

Lemma wf_resign (x : int2048) (s : bool) :
  wf x = true -> (a x = [] -> s = false) -> wf (Int2048 (a x) s) = true.
Proof.
  intros H Hs. apply wf_elim in H. destruct H as [Hd [Hc _]].
  apply wf_intro; assumption.
Qed.

Lemma opp_wf (x : int2048) : wf x = true -> wf (opp x) = true.
Proof.
  intros H. unfold opp. rewrite copy_id.
  destruct (is_zero x) eqn:E; cbn [negb]; [exact H |].
  apply wf_resign; [exact H |]. intros E0. apply is_zero_nil in E0. congruence.
Qed.

(** The result of a subtraction of magnitudes [|y| < |x|] under any sign. *)
Lemma sub_abs_signed_wf (x y : int2048) (s : bool) :
  wf x = true -> wf y = true -> val (a y) < val (a x) ->
  wf (Int2048 (a (sub_abs x y)) s) = true.
Proof.
  intros Hx Hy Hlt.
  pose proof (length_le_of_val_le x y Hx Hy ltac:(lia)) as Hl.
  pose proof (sub_abs_val x y Hx Hy ltac:(lia)) as Hv.
  pose proof Hx as Hx'. pose proof Hy as Hy'. apply wf_elim in Hx', Hy'.
  destruct (sub_abs_wf x y (proj1 Hx') (proj1 Hy') Hl) as [W _].
  apply wf_resign; [exact W |]. intros E. rewrite E in Hv. cbn in Hv. lia.
Qed.

Lemma add_abs_signed_wf (x y : int2048) (s : bool) :
  wf x = true -> wf y = true ->
  wf (Int2048 (a (add_abs x y)) (s && negb (is_zero (add_abs x y)))) = true.
Proof.
  intros Hx Hy. destruct (add_abs_spec x y Hx Hy) as [W _].
  apply wf_resign; [exact W |]. intros E. apply is_zero_nil in E. rewrite E.
  apply andb_false_r.
Qed.

Lemma cmpZ_cases (x y : Z) :
  (cmpZ x y = 0 /\ x = y) \/ (cmpZ x y = 1 /\ y < x) \/ (cmpZ x y = -1 /\ x < y).
Proof.
  unfold cmpZ. destruct (Z.ltb_spec x y); [right; right; split; [reflexivity | lia] |].
  destruct (Z.eqb_spec x y); [left; split; [reflexivity | lia] |].
  right; left; split; [reflexivity | lia].
Qed.

Lemma add_wf (x b : int2048) : wf x = true -> wf b = true -> wf (add x b) = true.
Proof.
  intros Hx Hb. unfold add.
  destruct (Bool.eqb (neg x) (neg b)); [apply add_abs_signed_wf; assumption |].
  rewrite abs_compare_wf by assumption.
  destruct (cmpZ_cases (val (a x)) (val (a b))) as [[-> _] | [[-> L] | [-> L]]];
    cbn -[sub_abs wf a neg].
  - reflexivity.
  - apply sub_abs_signed_wf; assumption.
  - apply sub_abs_signed_wf; assumption.
Qed.

Lemma minus_wf (x b : int2048) : wf x = true -> wf b = true -> wf (minus x b) = true.
Proof.
  intros Hx Hb. unfold minus.
  destruct (negb (Bool.eqb (neg x) (neg b))); [apply add_abs_signed_wf; assumption |].
  rewrite abs_compare_wf by assumption.
  destruct (cmpZ_cases (val (a x)) (val (a b))) as [[-> _] | [[-> L] | [-> L]]];
    cbn -[sub_abs wf a neg].
  - reflexivity.
  - apply sub_abs_signed_wf; assumption.
  - apply sub_abs_signed_wf; assumption.
Qed.

(** Blocks stay in range during multiplication. *)
Lemma set_at_digits_ok (l : list Z) : forall (i : nat) (v : Z),
  digits_ok l = true -> 0 <= v < BASE -> digits_ok (set_at l i v) = true.
Proof.
  induction l as [|d t IH]; intros i v Hl Hv; [reflexivity |].
  apply digits_ok_cons in Hl. destruct Hl as [Hd Ht].
  destruct i; cbn [set_at]; apply digits_ok_cons; auto.
Qed.

Lemma set_at_length (l : list Z) : forall (i : nat) (v : Z),
  length (set_at l i v) = length l.
Proof.
  induction l as [|d t IH]; intros i v; [reflexivity |].
  destruct i; cbn [set_at length]; [reflexivity | rewrite IH; reflexivity].
Qed.

Lemma mul_inner_digits_ok (fuel : nat) :
  forall (xi : Z) (ya : list Z) (i j : nat) (r : list Z) (carry : Z),
  digits_ok r = true -> digits_ok ya = true -> 0 <= xi -> 0 <= carry ->
  digits_ok (fst (mul_inner fuel xi ya i j r carry)) = true /\
  length (fst (mul_inner fuel xi ya i j r carry)) = length r.
Proof.
  induction fuel as [|f IH]; intros xi ya i j r carry Hr Hy Hx Hc.
  - split; [exact Hr | reflexivity].
  - cbn [mul_inner].
    destruct (Nat.ltb j (length ya) || negb (carry =? 0)); [| split; [exact Hr | reflexivity]].
    rewrite guarded_at'. unfold at_.
    set (cur := nth (i + j) r 0 + carry + 1 * xi * nth j ya 0).
    pose proof (digits_ok_nth r (i + j) Hr).
    pose proof (digits_ok_nth ya j Hy).
    assert (Hcur : 0 <= cur) by (unfold cur; nia).
    destruct (quot_rem_BASE cur Hcur) as [_ [Br Bq]].
    specialize (IH xi ya i (S j) (set_at r (i + j) (Z.rem cur BASE)) (Z.quot cur BASE)
                  (set_at_digits_ok _ _ _ Hr Br) Hy Hx Bq).
    destruct (mul_inner f xi ya i (S j) _ _) as [r' ok]. cbn [fst] in *.
    rewrite set_at_length in IH. exact IH.
Qed.

Lemma mul_outer_digits_ok (cnt : nat) : forall (i : nat) (xa ya r : list Z),
  digits_ok xa = true -> digits_ok ya = true -> digits_ok r = true ->
  digits_ok (fst (mul_outer cnt i xa ya r)) = true.
Proof.
  induction cnt as [|c IH]; intros i xa ya r Hx Hy Hr; [exact Hr |].
  cbn [mul_outer].
  pose proof (mul_inner_digits_ok (length ya + 2) (at_ xa i) ya i 0 r 0 Hr Hy
                ltac:(apply digits_ok_nth, Hx) ltac:(lia)) as [H1 _].
  destruct (mul_inner (length ya + 2) (at_ xa i) ya i 0 r 0) as [r1 ok1].
  cbn [fst] in H1. specialize (IH (S i) xa ya r1 Hx Hy H1).
  destruct (mul_outer c (S i) xa ya r1) as [r2 ok2]. exact IH.
Qed.

Lemma mul_simple_wf (x y : int2048) :
  wf x = true -> wf y = true ->
  wf (mul_simple x y) = true /\ neg (mul_simple x y) = false.
Proof.
  intros Hx Hy. apply wf_elim in Hx, Hy. unfold mul_simple.
  destruct (is_zero x || is_zero y); [split; reflexivity |].
  split; [| reflexivity]. cbn [a neg]. rewrite a_trim. cbn [a].
  apply wf_intro; [| apply strip_canonical | reflexivity].
  apply strip_digits_ok, mul_outer_digits_ok; try tauto.
  apply digits_ok_repeat.
Qed.

Lemma abs_copy_wf (x : int2048) : wf x = true -> wf (abs_copy x) = true.
Proof. intros H. apply abs_copy_magnitude in H. apply magnitude_elim in H. tauto. Qed.

Lemma mul_wf (x b : int2048) : wf x = true -> wf b = true -> wf (mul x b) = true.
Proof.
  intros Hx Hb. unfold mul, mul_fft.
  destruct (mul_simple_wf _ _ (abs_copy_wf x Hx) (abs_copy_wf b Hb)) as [W _].
  apply wf_resign; [exact W |]. intros E. apply is_zero_nil in E. rewrite E.
  apply andb_false_r.
Qed.

Lemma modulo_wf (x b : int2048) : wf x = true -> wf b = true -> wf (modulo x b) = true.
Proof.
  intros Hx Hb. unfold modulo.
  pose proof (mul_wf _ _ (div_wf x b Hx Hb) Hb) as Hp.
  set (prod := mul (div x b) b) in *.
  destruct (negb (Bool.eqb (neg x) (neg prod))).
  - destruct (add_abs_spec x prod Hx Hp) as [W _].
    destruct (add_abs x prod); exact W.
  - rewrite abs_compare_wf by assumption.
    destruct (cmpZ_cases (val (a x)) (val (a prod))) as [[-> _] | [[-> L] | [-> L]]];
    cbn -[sub_abs wf a neg].
    + reflexivity.
    + apply sub_abs_signed_wf; assumption.
    + apply sub_abs_signed_wf; assumption.
Qed.

(** Blocks read from text are in range whatever the text is. *)
Lemma block_value_bound (cnt : nat) : forall (s : list ascii) (t v : Z),
  0 <= v -> 0 <= block_value cnt s t v < (v + 1) * 10 ^ Z.of_nat cnt.
Proof.
  induction cnt as [|c IH]; intros s t v Hv.
  - cbn [block_value]. change (10 ^ Z.of_nat 0) with 1. lia.
  - cbn [block_value]. rewrite Nat2Z.inj_succ, Z.pow_succ_r by lia.
    assert (P : 0 < 10 ^ Z.of_nat c) by (apply Z.pow_pos_nonneg; lia).
    destruct (is_digit (char_at s t)) eqn:E.
    + apply digit_code in E.
      specialize (IH s (t + 1) (v * 10 + (code (char_at s t) - 48)) ltac:(lia)).
      nia.
    + specialize (IH s (t + 1) v Hv). nia.
Qed.

Lemma read_blocks_digits_ok (fuel : nat) : forall (s : list ascii) (i p : Z) (acc : list Z),
  digits_ok acc = true -> digits_ok (read_blocks fuel s i p acc) = true.
Proof.
  induction fuel as [|f IH]; intros s i p acc Ha; [exact Ha |].
  cbn [read_blocks]. destruct (p >=? i); [| exact Ha].
  apply IH. apply digits_ok_app. split; [exact Ha |].
  apply digits_ok_cons. split; [| reflexivity].
  unfold BASE_DIGS.
  set (l := if p - (4 - 1) <? i then i else p - (4 - 1)).
  pose proof (block_value_bound (Z.to_nat (p - l + 1)) s l 0 ltac:(lia)) as B.
  assert (10 ^ Z.of_nat (Z.to_nat (p - l + 1)) <= BASE).
  { change BASE with (10 ^ 4). apply Z.pow_le_mono_r; [lia |].
    unfold l. destruct (Z.ltb_spec (p - (4 - 1)) i); lia. }
  lia.
Qed.

Lemma read_wf (s : string) : wf (read s) = true.
Proof.
  unfold read. destruct (read_sign (list_ascii_of_string s)) as [ng i].
  destruct (_ <? i); [reflexivity |].
  set (bs := read_blocks _ _ _ _ _).
  assert (Hb : digits_ok bs = true) by (apply read_blocks_digits_ok; reflexivity).
  pose proof (trim_wf (Int2048 bs ng) Hb) as W.
  destruct (is_zero (trim (Int2048 bs ng))); [| exact W].
  apply wf_resign; [exact W | reflexivity].
Qed.

(** C7.  Every public operation returns a value in canonical form: the
    most significant stored block, if any, is nonzero, and an empty digit
    vector comes with [neg = false].  (Well-formedness [wf] is canonical
    form together with the range [0, BASE) of every block.) *)
Theorem canonical_form_results :
  (forall x, wf x = true -> canonical_form x = true) /\
  wf zero = true /\
  (forall v, - 2 ^ 63 <= v < 2 ^ 63 -> wf (of_ll v) = true) /\
  (forall s, wf (read s) = true /\ wf (of_string s) = true) /\
  (forall x, wf x = true ->
     wf (copy x) = true /\ wf (uplus x) = true /\ wf (opp x) = true) /\
  (forall x b, wf x = true -> wf b = true ->
     wf (add x b) = true /\ wf (minus x b) = true /\ wf (mul x b) = true /\
     wf (div x b) = true /\ wf (modulo x b) = true).
Proof.
  split; [exact wf_canonical_form |]. split; [exact wf_zero |].
  split; [intros v Hv; apply (of_ll_spec v Hv) |].
  split; [intros s; split; apply read_wf |].
  split.
  - intros x Hx. rewrite copy_id. split; [exact Hx |]. split; [exact Hx |].
    apply opp_wf, Hx.
  - intros x b Hx Hb.
    split; [apply add_wf; assumption |]. split; [apply minus_wf; assumption |].
    split; [apply mul_wf; assumption |]. split; [apply div_wf; assumption |].
    apply modulo_wf; assumption.
Qed.

Lemma canonical_form_results_witness :
  canonical_form (modulo (of_ll (-5)) (of_ll 3)) = true /\
  canonical_form (minus (of_ll 1000) (of_ll 1000)) = true.
Proof.
  destruct canonical_form_results as [Hc [_ [_ [_ [_ H]]]]].
  split.
  - apply Hc. apply (H (of_ll (-5)) (of_ll 3) eq_refl eq_refl).
  - apply Hc. apply (H (of_ll 1000) (of_ll 1000) eq_refl eq_refl).
Defined.

(** ** Uniqueness of the representation *)

Lemma val_inj_length (l1 : list Z) : forall l2 : list Z,
  length l1 = length l2 -> digits_ok l1 = true -> digits_ok l2 = true ->
  val l1 = val l2 -> l1 = l2.
Proof.
  induction l1 as [|d1 t1 IH]; intros [|d2 t2] Hl H1 H2 Hv;
    try discriminate; [reflexivity |].
  apply digits_ok_cons in H1, H2. destruct H1 as [B1 T1], H2 as [B2 T2].
  cbn [val] in Hv. cbn [length] in Hl.
  assert (d1 = d2 /\ val t1 = val t2) as [-> Ev] by (unfold BASE in *; lia).
  f_equal. apply IH; [lia | assumption ..].
Qed.

Lemma val_inj (l1 l2 : list Z) :
  digits_ok l1 = true -> canonical l1 = true ->
  digits_ok l2 = true -> canonical l2 = true ->
  val l1 = val l2 -> l1 = l2.
Proof.
  intros D1 C1 D2 C2 Hv. apply val_inj_length; try assumption.
  destruct (Nat.lt_trichotomy (length l1) (length l2)) as [L | [E | G]]; [| exact E |].
  - pose proof (val_lt_of_shorter l1 l2 D1 D2 C2 L). lia.
  - pose proof (val_lt_of_shorter l2 l1 D2 D1 C1 G). lia.
Qed.

(** Two well-formed values with the same magnitude and sign are equal. *)
Lemma wf_eq (x y : int2048) :
  wf x = true -> wf y = true -> val (a x) = val (a y) -> neg x = neg y -> x = y.
Proof.
  intros Hx Hy Hv Hn. apply wf_elim in Hx, Hy.
  destruct x as [xa xn], y as [ya yn]. cbn [a neg] in *. subst yn.
  f_equal. apply val_inj; tauto.
Qed.

Lemma eta_int2048 (x : int2048) : Int2048 (a x) (neg x) = x.
Proof. destruct x; reflexivity. Qed.

(** ** Division and modulo by zero *)

Lemma wf_is_zero (b : int2048) : wf b = true -> is_zero b = true -> b = zero.
Proof.
  intros Hb Hz. apply is_zero_nil in Hz. apply wf_elim in Hb.
  destruct b as [ba bn]. cbn [a neg] in *. subst ba.
  rewrite (proj2 (proj2 Hb) eq_refl). reflexivity.
Qed.

Lemma divmod_abs_by_zero (x : int2048) :
  divmod_abs (abs_copy x) (abs_copy zero) = (zero, zero).
Proof. reflexivity. Qed.

Lemma div_by_zero (x : int2048) : div x zero = zero.
Proof.
  unfold div. rewrite divmod_abs_by_zero. destruct (neg x); reflexivity.
Qed.

Lemma mul_zero_l (b : int2048) : mul zero b = zero.
Proof. unfold mul, mul_fft, mul_simple. destruct (neg b); reflexivity. Qed.

(** With the quotient 0 the product is 0, and [x - 0] is computed by
    [add_abs] or [sub_abs], whose result carries no sign. *)
Lemma modulo_by_zero (x : int2048) : wf x = true -> modulo x zero = abs_copy x.
Proof.
  intros Hx. unfold modulo. rewrite div_by_zero, mul_zero_l.
  pose proof (abs_copy_wf x Hx) as Wa.
  pose proof Hx as Hx'. apply wf_elim in Hx'. destruct Hx' as [Hd [Hc _]].
  change (neg zero) with false.
  destruct (neg x) eqn:En; cbn [Bool.eqb negb].
  - rewrite eta_int2048.
    destruct (add_abs_spec x zero Hx wf_zero) as [W [N V]].
    apply wf_eq; [exact W | exact Wa | | exact N].
    rewrite V. cbn. lia.
  - rewrite (abs_compare_wf x zero Hx wf_zero).
    change (val (a zero)) with 0.
    pose proof (val_nonneg _ Hd) as Hnn.
    destruct (cmpZ_cases (val (a x)) 0) as [[-> E] | [[-> L] | [-> L]]];
      cbn -[sub_abs abs_copy]; [| | lia].
    + apply canonical_val_zero in E; [| assumption ..].
      unfold abs_copy, copy. cbn [a]. rewrite E. reflexivity.
    + rewrite eta_int2048.
      destruct (sub_abs_wf x zero Hd eq_refl ltac:(cbn; lia)) as [W N].
      apply wf_eq; [exact W | exact Wa | | exact N].
      rewrite (sub_abs_val x zero Hx wf_zero ltac:(cbn; lia)). cbn. lia.
Qed.

(** C8.  For a zero divisor, [a / 0] is 0 and [a % 0] is the absolute
    value of [a]: [5 % 0 = 5] and [(-5) % 0 = 5]. *)
Theorem mod_by_zero_abs (x b : int2048) :
  wf x = true -> wf b = true -> is_zero b = true ->
  div x b = zero /\
  modulo x b = abs_copy x /\ value (modulo x b) = Z.abs (value x) /\
  (modulo (of_ll 5) (of_ll 0) = of_ll 5 /\ modulo (of_ll (-5)) (of_ll 0) = of_ll 5).
Proof.
  intros Hx Hb Hz. rewrite (wf_is_zero b Hb Hz).
  split; [apply div_by_zero |].
  rewrite (modulo_by_zero x Hx).
  split; [reflexivity |]. split.
  - apply wf_elim in Hx. rewrite value_abs by tauto. reflexivity.
  - split; vm_compute; reflexivity.
Qed.

Lemma mod_by_zero_abs_witness :
  modulo (of_string "-123456789") (of_string "-0") = of_string "123456789".
Proof.
  rewrite (proj1 (proj2 (mod_by_zero_abs (of_string "-123456789") (of_string "-0")
                           eq_refl eq_refl eq_refl))).
  vm_compute. reflexivity.
Defined.

(** C3, as the code has it.  Division and modulo by zero signal nothing:
    the magnitude routine returns [(0, 0)], [a / 0] is 0, and for a
    non-negative [a] the remainder [a % 0] is [a] itself, which is zero
    only when [a] is. *)
Theorem div_mod_by_zero (x b : int2048) :
  wf x = true -> wf b = true -> is_zero b = true ->
  divmod_abs (abs_copy x) (abs_copy b) = (zero, zero) /\
  div x b = zero /\
  (neg x = false -> modulo x b = x).
Proof.
  intros Hx Hb Hz. rewrite (wf_is_zero b Hb Hz).
  split; [apply divmod_abs_by_zero |]. split; [apply div_by_zero |].
  intros Hn. rewrite (modulo_by_zero x Hx).
  unfold abs_copy, copy. cbn [a]. rewrite <- Hn. apply eta_int2048.
Qed.

Lemma div_mod_by_zero_witness :
  div (of_ll 5) (of_ll 0) = zero /\ modulo (of_ll 5) (of_ll 0) = of_ll 5.
Proof.
  destruct (div_mod_by_zero (of_ll 5) (of_ll 0) eq_refl eq_refl eq_refl)
    as [_ [Hd Hm]].
  split; [exact Hd | exact (Hm eq_refl)].
Defined.

(** C3, as the specification states it, fails: [5 % 0] is 5, not 0. *)
Lemma mod_by_zero_counterexample :
  modulo (of_ll 5) (of_ll 0) = of_ll 5 /\ modulo (of_ll 5) (of_ll 0) <> of_ll 0.
Proof. split; [reflexivity | vm_compute; discriminate]. Qed.

(** ** Schoolbook multiplication *)

Lemma val_set_at (l : list Z) : forall (k : nat) (v : Z),
  (k < length l)%nat ->
  val (set_at l k v) = val l + (v - nth k l 0) * BASE ^ Z.of_nat k.
Proof.
  induction l as [|d t IH]; intros k v Hk; [simpl in Hk; lia |].
  destruct k as [|k].
  - cbn [set_at val nth]. change (BASE ^ Z.of_nat 0) with 1. ring.
  - cbn [set_at val nth]. rewrite IH by (simpl in Hk; lia).
    rewrite BASE_pow_succ. ring.
Qed.

Lemma BASE_pow_add (n m : nat) :
  BASE ^ Z.of_nat (n + m) = BASE ^ Z.of_nat n * BASE ^ Z.of_nat m.
Proof. rewrite Nat2Z.inj_add, Z.pow_add_r by lia. reflexivity. Qed.

(** The inner loop adds [xi * y * BASE^i] to the accumulator, never leaves
    the vector and stops at [j = m + 1] at the latest. *)
Lemma mul_inner_spec (fuel : nat) :
  forall (xi : Z) (ya : list Z) (i j : nat) (r : list Z) (carry : Z),
  digits_ok r = true -> digits_ok ya = true ->
  0 <= xi < BASE -> 0 <= carry < BASE ->
  (i + length ya < length r)%nat -> (j <= length ya + 1)%nat ->
  (length ya + 2 <= fuel + j)%nat ->
  val r + carry * BASE ^ Z.of_nat (i + j)
    + xi * BASE ^ Z.of_nat (i + j) * val (skipn j ya)
    < BASE ^ Z.of_nat (i + length ya + 1) ->
  let res := mul_inner fuel xi ya i j r carry in
  snd res = true /\ digits_ok (fst res) = true /\ length (fst res) = length r /\
  val (fst res) = val r + carry * BASE ^ Z.of_nat (i + j)
                  + xi * BASE ^ Z.of_nat (i + j) * val (skipn j ya).
Proof.
  induction fuel as [|f IH]; intros xi ya i j r carry Hr Hy Hx Hc Hi Hj Hf HT; [lia |].
  cbv zeta. cbn [mul_inner].
  pose proof (val_nonneg r Hr) as Hrn.
  pose proof (BASE_pow_pos (i + j)) as Pk.
  destruct (Nat.ltb_spec j (length ya)) as [Lj | Gj]; cbn [orb].
  2: destruct (Z.eqb_spec carry 0) as [C0 | Cn]; cbn [negb].
  2: { (* the loop is left *)
       cbn [fst snd]. rewrite val_skipn_all by lia. subst carry.
       repeat split; try assumption. cbn [val]. lia. }
  - (* a block of [y] *)
    unfold at_. cbv iota.
    set (cur := nth (i + j) r 0 + carry + 1 * xi * nth j ya 0).
    pose proof (digits_ok_nth r (i + j) Hr) as Br.
    pose proof (digits_ok_nth ya j Hy) as By.
    assert (Hcur : 0 <= cur < BASE * BASE) by (unfold cur, BASE in *; nia).
    destruct (quot_rem_BASE cur ltac:(lia)) as [Eq [Brem Bq]].
    assert (Hq : 0 <= Z.quot cur BASE < BASE) by (unfold BASE in *; lia).
    assert (Ev : val (set_at r (i + j) (Z.rem cur BASE))
                 + Z.quot cur BASE * BASE ^ Z.of_nat (i + S j)
                 + xi * BASE ^ Z.of_nat (i + S j) * val (skipn (S j) ya)
                 = val r + carry * BASE ^ Z.of_nat (i + j)
                   + xi * BASE ^ Z.of_nat (i + j) * val (skipn j ya)).
    { rewrite val_set_at by lia. rewrite (val_skipn ya j).
      replace (i + S j)%nat with (S (i + j)) by lia. rewrite BASE_pow_succ.
      replace (Z.rem cur BASE) with (cur - BASE * Z.quot cur BASE) by lia.
      unfold cur. ring. }
    specialize (IH xi ya i (S j) (set_at r (i + j) (Z.rem cur BASE)) (Z.quot cur BASE)
                  (set_at_digits_ok _ _ _ Hr Brem) Hy Hx Hq
                  ltac:(rewrite set_at_length; lia) ltac:(lia) ltac:(lia)
                  ltac:(rewrite Ev; exact HT)).
    cbv zeta in IH. rewrite set_at_length, Ev in IH.
    destruct (mul_inner f xi ya i (S j) _ _) as [r' ok]. cbn [fst snd] in *.
    destruct IH as [Hok [Hd [Hl Hv]]]. rewrite Hok.
    assert (Lk : (i + j <? length r)%nat = true) by (apply Nat.ltb_lt; lia).
    rewrite Lk. repeat split; assumption.
  - (* a carry past the blocks of [y]: this is position [i + m] *)
    assert (j = length ya).
    { destruct (Nat.eq_dec j (length ya)) as [E | N]; [exact E | exfalso].
      assert (j = (length ya + 1)%nat) by lia. subst j.
      rewrite val_skipn_all in HT by lia.
      set (P := BASE ^ Z.of_nat (i + (length ya + 1))) in *.
      replace (i + length ya + 1)%nat with (i + (length ya + 1))%nat in HT by lia.
      fold P in HT. nia. }
    subst j. unfold at_. cbv iota.
    set (cur := nth (i + length ya) r 0 + carry + 1 * xi * 0).
    pose proof (digits_ok_nth r (i + length ya) Hr) as Br.
    assert (Hcur : 0 <= cur < BASE * BASE) by (unfold cur, BASE in *; nia).
    destruct (quot_rem_BASE cur ltac:(lia)) as [Eq [Brem Bq]].
    assert (Hq : 0 <= Z.quot cur BASE < BASE) by (unfold BASE in *; lia).
    assert (Ev : val (set_at r (i + length ya) (Z.rem cur BASE))
                 + Z.quot cur BASE * BASE ^ Z.of_nat (i + S (length ya))
                 + xi * BASE ^ Z.of_nat (i + S (length ya)) * val (skipn (S (length ya)) ya)
                 = val r + carry * BASE ^ Z.of_nat (i + length ya)
                   + xi * BASE ^ Z.of_nat (i + length ya) * val (skipn (length ya) ya)).
    { rewrite val_set_at by lia. rewrite !val_skipn_all by lia.
      replace (i + S (length ya))%nat with (S (i + length ya)) by lia.
      rewrite BASE_pow_succ.
      replace (Z.rem cur BASE) with (cur - BASE * Z.quot cur BASE) by lia.
      unfold cur. cbn [val]. ring. }
    specialize (IH xi ya i (S (length ya)) (set_at r (i + length ya) (Z.rem cur BASE))
                  (Z.quot cur BASE)
                  (set_at_digits_ok _ _ _ Hr Brem) Hy Hx Hq
                  ltac:(rewrite set_at_length; lia) ltac:(lia) ltac:(lia)
                  ltac:(rewrite Ev; exact HT)).
    cbv zeta in IH. rewrite set_at_length, Ev in IH.
    destruct (mul_inner f xi ya i (S (length ya)) _ _) as [r' ok]. cbn [fst snd] in *.
    destruct IH as [Hok [Hd [Hl Hv]]]. rewrite Hok.
    assert (Lk : (i + length ya <? length r)%nat = true) by (apply Nat.ltb_lt; lia).
    rewrite Lk. repeat split; assumption.
Qed.

Lemma mul_outer_spec (cnt : nat) : forall (i : nat) (xa ya r : list Z),
  digits_ok xa = true -> digits_ok ya = true -> digits_ok r = true ->
  (i + cnt = length xa)%nat -> length r = (length xa + length ya)%nat ->
  val r = val (firstn i xa) * val ya ->
  let res := mul_outer cnt i xa ya r in
  snd res = true /\ digits_ok (fst res) = true /\ val (fst res) = val xa * val ya.
Proof.
  induction cnt as [|c IH]; intros i xa ya r Hx Hy Hr Hi Hl Hv; cbv zeta.
  - cbn [mul_outer fst snd]. rewrite Hv, firstn_all2 by lia. repeat split. exact Hr.
  - cbn [mul_outer]. unfold at_.
    pose proof (digits_ok_nth xa i Hx) as Bx.
    pose proof (val_firstn_bound xa (S i) Hx) as Bf.
    pose proof (val_bound ya Hy) as By.
    assert (ET : val r + 0 * BASE ^ Z.of_nat (i + 0)
                 + nth i xa 0 * BASE ^ Z.of_nat (i + 0) * val (skipn 0 ya)
                 = val (firstn (S i) xa) * val ya).
    { rewrite Hv, val_firstn_succ, Nat.add_0_r. cbn [skipn]. ring. }
    pose proof (mul_inner_spec (length ya + 2) (nth i xa 0) ya i 0 r 0 Hr Hy Bx
                  ltac:(unfold BASE; lia) ltac:(lia) ltac:(lia) ltac:(lia)) as Hin.
    rewrite ET in Hin.
    assert (HT : val (firstn (S i) xa) * val ya < BASE ^ Z.of_nat (i + length ya + 1)).
    { replace (i + length ya + 1)%nat with (S i + length ya)%nat by lia.
      rewrite BASE_pow_add.
      set (P := BASE ^ Z.of_nat (S i)) in *. set (Q := BASE ^ Z.of_nat (length ya)) in *.
      nia. }
    specialize (Hin HT). cbv zeta in Hin.
    destruct (mul_inner (length ya + 2) (nth i xa 0) ya i 0 r 0) as [r1 ok1].
    cbn [fst snd] in Hin. destruct Hin as [Hok [Hd1 [Hl1 Hv1]]].
    specialize (IH (S i) xa ya r1 Hx Hy Hd1 ltac:(lia) ltac:(lia) Hv1).
    cbv zeta in IH.
    destruct (mul_outer c (S i) xa ya r1) as [r2 ok2]. cbn [fst snd] in *.
    rewrite Hok. destruct IH as [Hok2 [Hd2 Hv2]]. rewrite Hok2.
    repeat split; assumption.
Qed.

(** Every access of [mul_simple] is inside the vector, and each inner loop
    is left through its exit test. *)
Lemma mul_simple_in_range (x y : int2048) :
  wf x = true -> wf y = true ->
  snd (mul_outer (length (a x)) 0 (a x) (a y)
         (repeat 0 (length (a x) + length (a y)))) = true.
Proof.
  intros Hx Hy. apply wf_elim in Hx, Hy.
  apply (mul_outer_spec (length (a x)) 0 (a x) (a y)); try tauto.
  - apply digits_ok_repeat.
  - apply repeat_length.
  - rewrite val_repeat. cbn. reflexivity.
Qed.

Lemma mul_simple_val (x y : int2048) :
  wf x = true -> wf y = true ->
  val (a (mul_simple x y)) = val (a x) * val (a y).
Proof.
  intros Hx Hy. unfold mul_simple.
  destruct (is_zero x) eqn:Zx; cbn [orb].
  { apply is_zero_nil in Zx. rewrite Zx. reflexivity. }
  destruct (is_zero y) eqn:Zy.
  { apply is_zero_nil in Zy. rewrite Zy. cbn. lia. }
  cbn [a neg]. rewrite a_trim. cbn [a]. rewrite val_strip.
  apply wf_elim in Hx, Hy.
  apply (mul_outer_spec (length (a x)) 0 (a x) (a y)); try tauto.
  - apply digits_ok_repeat.
  - apply repeat_length.
  - rewrite val_repeat. cbn. reflexivity.
Qed.

Lemma value_signed (l : list Z) (s : bool) :
  value (Int2048 l s) = if s then - val l else val l.
Proof. reflexivity. Qed.

Lemma mul_value (x b : int2048) :
  wf x = true -> wf b = true -> value (mul x b) = value x * value b.
Proof.
  intros Hx Hb. unfold mul, mul_fft. rewrite value_signed.
  pose proof (mul_simple_val _ _ (abs_copy_wf x Hx) (abs_copy_wf b Hb)) as Hv.
  destruct (mul_simple_wf _ _ (abs_copy_wf x Hx) (abs_copy_wf b Hb)) as [W _].
  rewrite (is_zero_val _ W), Hv.
  change (val (a (abs_copy x))) with (val (a x)).
  change (val (a (abs_copy b))) with (val (a b)).
  unfold value.
  destruct (Z.eqb_spec (val (a x) * val (a b)) 0) as [E | N];
    destruct (neg x), (neg b); cbn [Bool.eqb negb andb]; lia.
Qed.

(** ** Values of sums, differences and remainders *)

Lemma wf_neg (x : int2048) : wf x = true -> neg x = (value x <? 0).
Proof.
  intros H. apply wf_elim in H. destruct H as [Hd [Hc Hs]].
  pose proof (val_nonneg _ Hd) as Hn. unfold value.
  destruct (neg x) eqn:E.
  - symmetry. apply Z.ltb_lt.
    assert (val (a x) <> 0); [| lia].
    intros E0. apply canonical_val_zero in E0; [| assumption ..].
    specialize (Hs E0). discriminate.
  - symmetry. apply Z.ltb_ge. exact Hn.
Qed.

Lemma wf_val_abs (x : int2048) : wf x = true -> val (a x) = Z.abs (value x).
Proof. intros H. apply wf_elim in H. symmetry. apply value_abs. tauto. Qed.

Lemma add_abs_value (x y : int2048) (s : bool) :
  wf x = true -> wf y = true ->
  value (Int2048 (a (add_abs x y)) (s && negb (is_zero (add_abs x y))))
  = if s then - (val (a x) + val (a y)) else val (a x) + val (a y).
Proof.
  intros Hx Hy. destruct (add_abs_spec x y Hx Hy) as [W [_ V]].
  rewrite value_signed, (is_zero_val _ W), V.
  destruct s; cbn [andb]; [| reflexivity].
  destruct (Z.eqb_spec (val (a x) + val (a y)) 0); cbn [negb]; lia.
Qed.

Lemma add_value (x b : int2048) :
  wf x = true -> wf b = true -> value (add x b) = value x + value b.
Proof.
  intros Hx Hb. unfold add.
  pose proof (wf_val_abs x Hx) as Ax. pose proof (wf_val_abs b Hb) as Ab.
  pose proof (wf_neg x Hx) as Nx. pose proof (wf_neg b Hb) as Nb.
  destruct (Bool.eqb (neg x) (neg b)) eqn:Es.
  - rewrite add_abs_value by assumption. apply eqb_prop in Es.
    rewrite Nx in *. rewrite Nb in Es.
    destruct (Z.ltb_spec (value x) 0), (Z.ltb_spec (value b) 0);
      try discriminate; lia.
  - apply eqb_false_iff in Es. rewrite abs_compare_wf by assumption.
    destruct (cmpZ_cases (val (a x)) (val (a b))) as [[-> E] | [[-> L] | [-> L]]];
      cbn -[sub_abs value]; rewrite value_signed.
    + rewrite Nx, Nb in Es. cbn [val].
      destruct (Z.ltb_spec (value x) 0), (Z.ltb_spec (value b) 0);
        try congruence; lia.
    + rewrite sub_abs_val by (assumption || lia). rewrite Nx, Nb in Es. rewrite Nx.
      destruct (Z.ltb_spec (value x) 0), (Z.ltb_spec (value b) 0);
        try congruence; lia.
    + rewrite sub_abs_val by (assumption || lia). rewrite Nx, Nb in Es. rewrite Nb.
      destruct (Z.ltb_spec (value x) 0), (Z.ltb_spec (value b) 0);
        try congruence; lia.
Qed.

Lemma minus_value (x b : int2048) :
  wf x = true -> wf b = true -> value (minus x b) = value x - value b.
Proof.
  intros Hx Hb. unfold minus.
  pose proof (wf_val_abs x Hx) as Ax. pose proof (wf_val_abs b Hb) as Ab.
  pose proof (wf_neg x Hx) as Nx. pose proof (wf_neg b Hb) as Nb.
  destruct (Bool.eqb (neg x) (neg b)) eqn:Es; cbn [negb].
  - apply eqb_prop in Es. rewrite abs_compare_wf by assumption.
    destruct (cmpZ_cases (val (a x)) (val (a b))) as [[-> E] | [[-> L] | [-> L]]];
      cbn -[sub_abs value]; rewrite value_signed.
    + rewrite Nx, Nb in Es. cbn [val].
      destruct (Z.ltb_spec (value x) 0), (Z.ltb_spec (value b) 0);
        try congruence; lia.
    + rewrite sub_abs_val by (assumption || lia). rewrite Nx, Nb in Es. rewrite Nx.
      destruct (Z.ltb_spec (value x) 0), (Z.ltb_spec (value b) 0);
        try congruence; lia.
    + rewrite sub_abs_val by (assumption || lia). rewrite Nx, Nb in Es. rewrite Nb.
      destruct (Z.ltb_spec (value x) 0), (Z.ltb_spec (value b) 0);
        cbn [negb]; try congruence; lia.
  - rewrite add_abs_value by assumption. apply eqb_false_iff in Es.
    rewrite Nx, Nb in Es. rewrite Nx.
    destruct (Z.ltb_spec (value x) 0), (Z.ltb_spec (value b) 0);
      try congruence; lia.
Qed.

(** What [operator%=] returns for a nonzero divisor: the floor remainder,
    except that its sign is lost when dividend and divisor are both
    negative. *)
Lemma modulo_value (x b : int2048) :
  wf x = true -> wf b = true -> is_zero b = false ->
  value (modulo x b) =
  if neg x && neg b then - (value x mod value b) else value x mod value b.
Proof.
  intros Hx Hb Hz.
  pose proof (div_wf x b Hx Hb) as Wq.
  pose proof (div_value x b Hx Hb Hz) as Vq.
  pose proof (mul_wf _ _ Wq Hb) as Wp.
  pose proof (mul_value _ _ Wq Hb) as Vp. rewrite Vq in Vp.
  assert (Hb0 : value b <> 0).
  { rewrite (is_zero_val b Hb) in Hz. apply Z.eqb_neq in Hz.
    rewrite (wf_val_abs b Hb) in Hz. lia. }
  pose proof (Z.div_mod (value x) (value b) Hb0) as Hdm.
  assert (Hbound : 0 <= value x mod value b < value b \/
                   value b < value x mod value b <= 0).
  { destruct (Z.lt_trichotomy (value b) 0) as [L | [E | G]]; [right | lia | left].
    - apply Z.mod_neg_bound, L.
    - apply Z.mod_pos_bound, G. }
  unfold modulo. set (prod := mul (div x b) b) in *.
  pose proof (wf_val_abs x Hx) as Ax. pose proof (wf_val_abs prod Wp) as Ap.
  pose proof (wf_neg x Hx) as Nx. pose proof (wf_neg b Hb) as Nb.
  pose proof (wf_neg prod Wp) as Np.
  set (X := value x) in *. set (Bv := value b) in *. set (P := value prod) in *.
  set (Q := X / Bv) in *. set (R := X mod Bv) in *.
  clearbody prod.
  replace (neg x && neg b) with ((X <? 0) && (Bv <? 0)) by (rewrite Nx, Nb; reflexivity).
  destruct (Bool.eqb (neg x) (neg prod)) eqn:Es; cbn [negb].
  - apply eqb_prop in Es. rewrite Nx, Np in Es.
    rewrite abs_compare_wf by assumption.
    destruct (cmpZ_cases (val (a x)) (val (a prod))) as [[-> E] | [[-> L] | [-> L]]];
      cbn -[sub_abs value]; rewrite value_signed.
    + cbn [val].
      destruct (Z.ltb_spec X 0), (Z.ltb_spec Bv 0), (Z.ltb_spec P 0);
        cbn [andb]; try congruence; nia.
    + rewrite sub_abs_val by (assumption || lia).
      change (neg (sub_abs x prod)) with false. cbv iota.
      destruct (Z.ltb_spec X 0), (Z.ltb_spec Bv 0), (Z.ltb_spec P 0);
        cbn [andb]; try congruence; nia.
    + rewrite sub_abs_val by (assumption || lia). rewrite Np.
      destruct (Z.ltb_spec X 0), (Z.ltb_spec Bv 0), (Z.ltb_spec P 0);
        cbn [andb negb]; try congruence; nia.
  - apply eqb_false_iff in Es. rewrite Nx, Np in Es.
    rewrite eta_int2048.
    destruct (add_abs_spec x prod Hx Wp) as [_ [Nn V]].
    unfold value at 1. rewrite Nn, V.
    destruct (Z.ltb_spec X 0), (Z.ltb_spec Bv 0), (Z.ltb_spec P 0);
      cbn [andb]; try congruence; nia.
Qed.

(** The remainder has the sign of the divisor unless both operands are
    negative. *)
Lemma modulo_floor_unless_both_negative (x b : int2048) :
  wf x = true -> wf b = true -> is_zero b = false ->
  neg x && neg b = false ->
  value (modulo x b) = value x mod value b /\
  value (add (mul (div x b) b) (modulo x b)) = value x.
Proof.
  intros Hx Hb Hz Hs.
  pose proof (modulo_value x b Hx Hb Hz) as Hm. rewrite Hs in Hm.
  split; [exact Hm |].
  pose proof (div_wf x b Hx Hb) as Wq.
  rewrite add_value, mul_value, Hm, (div_value x b Hx Hb Hz)
    by (try apply mul_wf; try apply modulo_wf; assumption).
  assert (Hb0 : value b <> 0).
  { rewrite (is_zero_val b Hb) in Hz. apply Z.eqb_neq in Hz.
    rewrite (wf_val_abs b Hb) in Hz. lia. }
  pose proof (Z.div_mod (value x) (value b) Hb0). lia.
Qed.

(** More fuel than the number of characters left changes nothing in the
    block loop of [read]. *)
Lemma read_blocks_fuel (f1 : nat) : forall (f2 : nat) (s : list ascii) (i p : Z) (acc : list Z),
  p - i + 1 <= Z.of_nat f1 -> p - i + 1 <= Z.of_nat f2 ->
  read_blocks f1 s i p acc = read_blocks f2 s i p acc.
Proof.
  induction f1 as [|f1 IH]; intros f2 s i p acc H1 H2.
  - destruct f2; [reflexivity |]. cbn [read_blocks].
    destruct (Z.geb_spec p i); [lia | reflexivity].
  - destruct f2 as [|f2]; cbn [read_blocks].
    + destruct (Z.geb_spec p i); [lia | reflexivity].
    + destruct (Z.geb_spec p i); [| reflexivity].
      apply IH; unfold BASE_DIGS; lia.
Qed.

(** ** The sign of the remainder *)

(** C1 at a negative dividend and a negative divisor: [(-5) % (-3)] is
    [2], which is neither zero nor of the sign of the divisor; the floor
    remainder is [-2].  Each branch of [operator%=] overwrites [*this]
    before it reads [this->neg], so that whenever both operands are
    negative the remainder comes out as the opposite of the floor
    remainder, hence non-negative. *)
Theorem modulo_sign_lost :
  (modulo (of_string "-5") (of_string "-3") = of_string "2" /\
   value (modulo (of_string "-5") (of_string "-3")) = 2 /\
   value (of_string "-3") = -3 /\
   value (of_string "-5") mod value (of_string "-3") = -2) /\
  (forall x b, wf x = true -> wf b = true -> is_zero b = false ->
     neg x = true -> neg b = true ->
     value (modulo x b) = - (value x mod value b) /\ 0 <= value (modulo x b)).
Proof.
  split; [repeat split |].
  intros x b Hx Hb Hz Nx Nb.
  pose proof (modulo_value x b Hx Hb Hz) as H. rewrite Nx, Nb in H. cbn [andb] in H.
  split; [exact H |]. rewrite H.
  assert (value b < 0).
  { pose proof (wf_neg b Hb) as E. rewrite Nb in E. symmetry in E.
    apply Z.ltb_lt in E. exact E. }
  pose proof (Z.mod_neg_bound (value x) (value b) H0). lia.
Qed.

Lemma modulo_sign_lost_witness :
  value (modulo (of_ll (-7)) (of_ll (-4))) = - (value (of_ll (-7)) mod value (of_ll (-4))).
Proof.
  exact (proj1 (proj2 modulo_sign_lost (of_ll (-7)) (of_ll (-4))
                  eq_refl eq_refl eq_refl eq_refl eq_refl)).
Defined.

(** C2 at the same operands: [(a / b) * b + a % b] is [-1] for [a = -5],
    [b = -3].  Whenever both operands are negative the sum misses [a] by
    twice the floor remainder. *)
Theorem division_identity_lost :
  (let x := of_string "-5" in
   let b := of_string "-3" in
   div x b = of_string "1" /\ modulo x b = of_string "2" /\
   add (mul (div x b) b) (modulo x b) = of_string "-1" /\
   eq_op (add (mul (div x b) b) (modulo x b)) x = false) /\
  (forall x b, wf x = true -> wf b = true -> is_zero b = false ->
     neg x = true -> neg b = true ->
     value (add (mul (div x b) b) (modulo x b))
     = value x - 2 * (value x mod value b)).
Proof.
  split; [repeat split |].
  intros x b Hx Hb Hz Nx Nb.
  pose proof (modulo_value x b Hx Hb Hz) as H. rewrite Nx, Nb in H. cbn [andb] in H.
  pose proof (div_wf x b Hx Hb) as Wq.
  rewrite add_value, mul_value, H, (div_value x b Hx Hb Hz)
    by (try apply mul_wf; try apply modulo_wf; assumption).
  assert (Hb0 : value b <> 0).
  { pose proof (wf_neg b Hb) as E. rewrite Nb in E. symmetry in E.
    apply Z.ltb_lt in E. lia. }
  pose proof (Z.div_mod (value x) (value b) Hb0). lia.
Qed.

Lemma division_identity_lost_witness :
  value (add (mul (div (of_ll (-7)) (of_ll (-4))) (of_ll (-4)))
             (modulo (of_ll (-7)) (of_ll (-4))))
  = value (of_ll (-7)) - 2 * (value (of_ll (-7)) mod value (of_ll (-4))).
Proof.
  exact (proj2 division_identity_lost (of_ll (-7)) (of_ll (-4))
           eq_refl eq_refl eq_refl eq_refl eq_refl).
Defined.

(** * Further properties of the code *)

(** ** The helpers on magnitudes *)

Lemma value_trim (x : int2048) : value (trim x) = value x.
Proof.
  unfold value, trim. cbn [a neg]. rewrite trim_digits_strip.
  pose proof (val_strip (a x)) as Hv.
  destruct (strip (a x)) as [|d t] eqn:E.
  - cbn [length Nat.eqb val] in *. rewrite <- Hv. destruct (neg x); reflexivity.
  - cbn [length Nat.eqb]. rewrite Hv. reflexivity.
Qed.

Lemma trim_wf_id (x : int2048) : wf x = true -> trim x = x.
Proof.
  intros H. apply wf_elim in H. destruct H as [_ [Hc Hs]].
  unfold trim. rewrite trim_digits_strip, strip_canonical_id by exact Hc.
  destruct x as [xa xn]. cbn [a neg] in *.
  destruct xa as [|d t]; [rewrite Hs; reflexivity | reflexivity].
Qed.

(** X1.  [trim] turns any vector of blocks in range into a well-formed
    value that denotes the same integer, leaves a well-formed value as it
    is, and is idempotent. *)
Theorem trim_canonicalizes (x : int2048) :
  digits_ok (a x) = true ->
  wf (trim x) = true /\ value (trim x) = value x /\
  trim (trim x) = trim x /\ (wf x = true -> trim x = x).
Proof.
  intros Hd. pose proof (trim_wf x Hd) as W.
  split; [exact W |]. split; [apply value_trim |].
  split; [apply trim_wf_id, W | apply trim_wf_id].
Qed.

Lemma trim_canonicalizes_witness :
  wf (trim (Int2048 [5; 0; 7; 0; 0] true)) = true /\
  value (trim (Int2048 [0; 0] true)) = value (Int2048 [0; 0] true).
Proof.
  split.
  - exact (proj1 (trim_canonicalizes (Int2048 [5; 0; 7; 0; 0] true) eq_refl)).
  - exact (proj1 (proj2 (trim_canonicalizes (Int2048 [0; 0] true) eq_refl))).
Defined.

(** X2.  On well-formed values [abs_compare] returns the sign of
    [|x| - |y|]: it is antisymmetric and returns 0 exactly for equal digit
    vectors. *)
Theorem abs_compare_sign (x y : int2048) :
  wf x = true -> wf y = true ->
  abs_compare x y = Z.sgn (val (a x) - val (a y)) /\
  abs_compare y x = - abs_compare x y /\
  (abs_compare x y = 0 <-> a x = a y).
Proof.
  intros Hx Hy. rewrite !abs_compare_wf by assumption.
  pose proof Hx as Hx'. pose proof Hy as Hy'. apply wf_elim in Hx', Hy'.
  destruct (cmpZ_cases (val (a x)) (val (a y))) as [[E1 E] | [[E1 L] | [E1 L]]];
    destruct (cmpZ_cases (val (a y)) (val (a x))) as [[E2 E'] | [[E2 L'] | [E2 L']]];
    try lia; rewrite E1, E2.
  - split; [rewrite E, Z.sub_diag; reflexivity |]. split; [reflexivity |].
    split; [intros _; apply val_inj; tauto | reflexivity].
  - split; [symmetry; apply Z.sgn_pos; lia |]. split; [reflexivity |].
    split; [discriminate | intros Ea; rewrite Ea in L; lia].
  - split; [symmetry; apply Z.sgn_neg; lia |]. split; [reflexivity |].
    split; [discriminate | intros Ea; rewrite Ea in L; lia].
Qed.

Lemma abs_compare_sign_witness :
  abs_compare (of_ll (-12345678)) (of_ll 99999) = 1 /\
  abs_compare (of_ll 99999) (of_ll (-12345678)) = -1.
Proof.
  destruct (abs_compare_sign (of_ll (-12345678)) (of_ll 99999) eq_refl eq_refl)
    as [E1 [E2 _]].
  split; [rewrite E1 | rewrite E2, E1]; reflexivity.
Defined.

(** X3.  [add_abs] returns the well-formed, unsigned sum of two
    magnitudes; it has as many blocks as the longer operand, or one more. *)
Theorem add_abs_sum (x y : int2048) :
  wf x = true -> wf y = true ->
  val (a (add_abs x y)) = val (a x) + val (a y) /\
  wf (add_abs x y) = true /\ neg (add_abs x y) = false /\
  (Nat.max (length (a x)) (length (a y)) <= length (a (add_abs x y))
   <= Nat.max (length (a x)) (length (a y)) + 1)%nat.
Proof.
  intros Hx Hy. destruct (add_abs_spec x y Hx Hy) as [W [N V]].
  split; [exact V |]. split; [exact W |]. split; [exact N |].
  apply wf_elim in Hx, Hy. unfold add_abs.
  pose proof (add_loop_spec (Nat.max (length (a x)) (length (a y))) 0 (a x) (a y) 0
                (proj1 Hx) (proj1 Hy) ltac:(lia) ltac:(lia) ltac:(lia)) as H.
  destruct (add_loop _ 0 (a x) (a y) 0) as [r out]. destruct H as [Hl _].
  cbn [a]. destruct (negb (out =? 0)); [rewrite length_app; cbn [length] |]; lia.
Qed.

Lemma add_abs_sum_witness :
  val (a (add_abs (of_ll 99999999) (of_ll 1)))
  = val (a (of_ll 99999999)) + val (a (of_ll 1)).
Proof.
  exact (proj1 (add_abs_sum (of_ll 99999999) (of_ll 1) eq_refl eq_refl)).
Defined.

(** X4.  Under its precondition [|x| >= |y|], [sub_abs] returns the
    well-formed, unsigned difference of the magnitudes; equal magnitudes
    give the empty vector. *)
Theorem sub_abs_difference (x y : int2048) :
  wf x = true -> wf y = true -> val (a y) <= val (a x) ->
  val (a (sub_abs x y)) = val (a x) - val (a y) /\
  wf (sub_abs x y) = true /\ neg (sub_abs x y) = false /\
  (val (a x) = val (a y) -> sub_abs x y = zero).
Proof.
  intros Hx Hy Hle.
  pose proof (sub_abs_val x y Hx Hy Hle) as V.
  pose proof (length_le_of_val_le x y Hx Hy Hle) as Hl.
  pose proof Hx as Hx'. pose proof Hy as Hy'. apply wf_elim in Hx', Hy'.
  destruct (sub_abs_wf x y (proj1 Hx') (proj1 Hy') Hl) as [W N].
  split; [exact V |]. split; [exact W |]. split; [exact N |].
  intros E. apply wf_eq; [exact W | reflexivity | | exact N].
  rewrite V, E. cbn. lia.
Qed.

Lemma sub_abs_difference_witness :
  val (a (sub_abs (of_ll 100000000) (of_ll 1)))
  = val (a (of_ll 100000000)) - val (a (of_ll 1)).
Proof.
  exact (proj1 (sub_abs_difference (of_ll 100000000) (of_ll 1) eq_refl eq_refl
                  ltac:(vm_compute; discriminate))).
Defined.

(** X5.  [mul_by_int] multiplies a magnitude by a digit [0 <= m < BASE]
    and returns a well-formed, unsigned value; a zero factor gives zero. *)
Theorem mul_by_int_scales (x : int2048) (m : Z) :
  wf x = true -> 0 <= m < BASE ->
  val (a (mul_by_int x m)) = val (a x) * m /\
  wf (mul_by_int x m) = true /\ neg (mul_by_int x m) = false /\
  (m = 0 \/ is_zero x = true -> mul_by_int x m = zero).
Proof.
  intros Hx Hm. destruct (mul_by_int_spec x m Hx Hm) as [W [N V]].
  split; [exact V |]. split; [exact W |]. split; [exact N |].
  intros [E | E]; unfold mul_by_int.
  - subst m. rewrite orb_true_r. reflexivity.
  - rewrite E. reflexivity.
Qed.

Lemma mul_by_int_scales_witness :
  val (a (mul_by_int (of_ll 99999999) 9999)) = 99999999 * 9999.
Proof.
  destruct (mul_by_int_scales (of_ll 99999999) 9999 eq_refl
              ltac:(vm_compute; split; [discriminate | reflexivity])) as [V _].
  exact V.
Defined.

Lemma mul_simple_length (x y : int2048) :
  wf x = true -> wf y = true ->
  (length (a (mul_simple x y)) <= length (a x) + length (a y))%nat.
Proof.
  intros Hx Hy.
  destruct (mul_simple_wf x y Hx Hy) as [W _].
  pose proof (mul_simple_val x y Hx Hy) as V.
  apply wf_elim in W, Hx, Hy.
  destruct W as [Wd [Wc _]], Hx as [Hdx _], Hy as [Hdy _].
  destruct (a (mul_simple x y)) as [|d t] eqn:E; [cbn; lia |].
  rewrite <- E in *.
  assert (Hne : a (mul_simple x y) <> []) by (rewrite E; discriminate).
  pose proof (val_lower _ Wd Wc Hne) as Lo.
  pose proof (val_bound _ Hdx) as Bx. pose proof (val_bound _ Hdy) as By.
  destruct (Nat.le_gt_cases (length (a (mul_simple x y))) (length (a x) + length (a y)))
    as [L | G]; [exact L | exfalso].
  assert (BASE ^ Z.of_nat (length (a x) + length (a y))
          <= BASE ^ (Z.of_nat (length (a (mul_simple x y))) - 1)).
  { apply Z.pow_le_mono_r; [reflexivity | lia]. }
  rewrite BASE_pow_add in H.
  set (P := BASE ^ Z.of_nat (length (a x))) in *.
  set (Q := BASE ^ Z.of_nat (length (a y))) in *. nia.
Qed.

(** X6.  Schoolbook multiplication returns the well-formed, unsigned
    product of two magnitudes in at most [n + m] blocks; every access of
    its loops stays inside the result vector and every inner loop ends
    through its exit test; a zero operand gives zero at once. *)
Theorem mul_simple_product (x y : int2048) :
  wf x = true -> wf y = true ->
  val (a (mul_simple x y)) = val (a x) * val (a y) /\
  wf (mul_simple x y) = true /\ neg (mul_simple x y) = false /\
  (length (a (mul_simple x y)) <= length (a x) + length (a y))%nat /\
  snd (mul_outer (length (a x)) 0 (a x) (a y)
         (repeat 0 (length (a x) + length (a y)))) = true /\
  (is_zero x = true \/ is_zero y = true -> mul_simple x y = zero).
Proof.
  intros Hx Hy. destruct (mul_simple_wf x y Hx Hy) as [W N].
  split; [apply mul_simple_val; assumption |]. split; [exact W |].
  split; [exact N |]. split; [apply mul_simple_length; assumption |].
  split; [apply mul_simple_in_range; assumption |].
  intros [E | E]; unfold mul_simple; rewrite E; [| rewrite orb_true_r]; reflexivity.
Qed.

Lemma mul_simple_product_witness :
  val (a (mul_simple (of_ll 999999999999) (of_ll 999999999999)))
  = val (a (of_ll 999999999999)) * val (a (of_ll 999999999999)).
Proof.
  exact (proj1 (mul_simple_product (of_ll 999999999999) (of_ll 999999999999)
                  eq_refl eq_refl)).
Defined.

(** X7.  For a nonzero shifted divisor the digit search returns
    [min (BASE - 1) (R / V)], the quotient digit of long division; for a
    zero divisor it returns [BASE - 1]. *)
Theorem quot_digit_min (vshift rem : int2048) :
  wf vshift = true -> wf rem = true ->
  quot_digit vshift rem =
  if is_zero vshift then BASE - 1
  else Z.min (BASE - 1) (val (a rem) / val (a vshift)).
Proof.
  intros Hv Hr.
  destruct (quot_digit_spec vshift rem Hv Hr) as [[Hd [Hle Hbest]] Hmax].
  remember (quot_digit vshift rem) as d eqn:Ed. clear Ed.
  pose proof Hv as Hv'. pose proof Hr as Hr'. apply wf_elim in Hv', Hr'.
  pose proof (val_nonneg _ (proj1 Hv')) as HV.
  pose proof (val_nonneg _ (proj1 Hr')) as HR.
  rewrite (is_zero_val vshift Hv).
  destruct (Z.eqb_spec (val (a vshift)) 0) as [E0 | N0].
  - rewrite E0 in *. destruct Hmax as [E | L]; [exact E | lia].
  - destruct Hmax as [E | L].
    + subst d. symmetry. apply Z.min_l.
      apply Z.div_le_lower_bound; lia.
    + assert (Eq : val (a rem) / val (a vshift) = d).
      { symmetry. apply Z.div_unique with (r := val (a rem) - d * val (a vshift)); lia. }
      rewrite Eq. symmetry. apply Z.min_r. lia.
Qed.

Lemma quot_digit_min_witness :
  quot_digit (of_ll 4321) (of_ll 123456789) = 9999 /\
  quot_digit (of_ll 43210000) (of_ll 123456789) = 2.
Proof.
  split.
  - rewrite (quot_digit_min (of_ll 4321) (of_ll 123456789) eq_refl eq_refl).
    reflexivity.
  - rewrite (quot_digit_min (of_ll 43210000) (of_ll 123456789) eq_refl eq_refl).
    reflexivity.
Defined.

(** ** Signed arithmetic and comparison *)

(** Well-formed values that denote the same integer are the same value. *)
Lemma value_inj (x y : int2048) :
  wf x = true -> wf y = true -> value x = value y -> x = y.
Proof.
  intros Hx Hy E. apply wf_eq; try assumption.
  - rewrite (wf_val_abs x Hx), (wf_val_abs y Hy), E. reflexivity.
  - rewrite (wf_neg x Hx), (wf_neg y Hy), E. reflexivity.
Qed.

Lemma opp_value (x : int2048) : value (opp x) = - value x.
Proof.
  unfold opp. rewrite copy_id. destruct (is_zero x) eqn:E; cbn [negb].
  - apply is_zero_nil in E. unfold value. rewrite E. destruct (neg x); reflexivity.
  - unfold value. cbn [a neg]. destruct (neg x); cbn [negb]; lia.
Qed.

Lemma eq_op_true (x y : int2048) : eq_op x y = true <-> x = y.
Proof.
  unfold eq_op. destruct x as [xa xn], y as [ya yn]. cbn [a neg].
  destruct (list_eq_dec Z.eq_dec xa ya) as [E | N].
  - rewrite andb_true_r. split.
    + intros H. apply eqb_prop in H. congruence.
    + intros H. injection H as _ ->. apply eqb_reflx.
  - rewrite andb_false_r. split; [discriminate | congruence].
Qed.

Lemma lt_op_spec (x y : int2048) :
  wf x = true -> wf y = true -> lt_op x y = (value x <? value y).
Proof.
  intros Hx Hy. unfold lt_op.
  pose proof (wf_val_abs x Hx) as Ax. pose proof (wf_val_abs y Hy) as Ay.
  pose proof (wf_neg x Hx) as Nx. pose proof (wf_neg y Hy) as Ny.
  rewrite (is_zero_val x Hx), (abs_compare_wf x y Hx Hy), cmpZ_gt, cmpZ_lt, Ax, Ay.
  rewrite Nx, Ny.
  destruct (Z.ltb_spec (value x) 0), (Z.ltb_spec (value y) 0); cbn [Bool.eqb negb andb].
  - destruct (Z.ltb_spec (Z.abs (value y)) (Z.abs (value x))),
             (Z.ltb_spec (value x) (value y)); (reflexivity || lia).
  - destruct (Z.eqb_spec (Z.abs (value x)) 0), (Z.ltb_spec (value x) (value y));
      cbn [negb]; (reflexivity || lia).
  - destruct (Z.ltb_spec (value x) (value y)); (reflexivity || lia).
  - destruct (Z.ltb_spec (Z.abs (value x)) (Z.abs (value y))),
             (Z.ltb_spec (value x) (value y)); (reflexivity || lia).
Qed.

(** X8.  [add] (and [operator+=], [operator+]) returns the exact sum. *)
Theorem add_exact (x b : int2048) :
  wf x = true -> wf b = true -> value (add x b) = value x + value b.
Proof. apply add_value. Qed.

Lemma add_exact_witness :
  value (add (of_string "123456789012345678901234567890") (of_string "-1"))
  = value (of_string "123456789012345678901234567890") + value (of_string "-1").
Proof.
  exact (add_exact (of_string "123456789012345678901234567890") (of_string "-1")
           eq_refl eq_refl).
Defined.

(** X9.  [minus] (and [operator-=], [operator-]) returns the exact
    difference; it is the sum with the opposite, and [x - x] is the zero
    value with its sign flag cleared. *)
Theorem minus_exact (x b : int2048) :
  wf x = true -> wf b = true ->
  value (minus x b) = value x - value b /\
  minus x b = add x (opp b) /\
  minus x x = zero.
Proof.
  intros Hx Hb. pose proof (minus_value x b Hx Hb) as V.
  split; [exact V |]. split.
  - apply value_inj.
    + apply minus_wf; assumption.
    + apply add_wf; [assumption | apply opp_wf; assumption].
    + rewrite V, add_value, opp_value by (try apply opp_wf; assumption). lia.
  - apply value_inj; [apply minus_wf; assumption | reflexivity |].
    rewrite minus_value by assumption. cbn. lia.
Qed.

Lemma minus_exact_witness :
  minus (of_string "1000") (of_string "1000") = zero /\
  value (minus (of_string "-5") (of_string "7")) = value (of_string "-5") - value (of_string "7").
Proof.
  split.
  - exact (proj2 (proj2 (minus_exact (of_string "1000") (of_string "1000") eq_refl eq_refl))).
  - exact (proj1 (minus_exact (of_string "-5") (of_string "7") eq_refl eq_refl)).
Defined.

(** X10.  Unary minus negates the value, leaves zero alone (no negative
    zero) and is an involution on well-formed values. *)
Theorem opp_negates (x : int2048) :
  wf x = true ->
  value (opp x) = - value x /\ opp (opp x) = x /\
  (is_zero x = true -> opp x = x) /\ wf (opp x) = true.
Proof.
  intros Hx. pose proof (opp_wf x Hx) as W.
  split; [apply opp_value |]. split.
  - apply value_inj; [apply opp_wf, W | exact Hx |].
    rewrite !opp_value. lia.
  - split; [| exact W]. intros E. unfold opp. rewrite copy_id, E. reflexivity.
Qed.

Lemma opp_negates_witness :
  opp (opp (of_ll (-42))) = of_ll (-42) /\ value (opp (of_ll 0)) = - value (of_ll 0).
Proof.
  split.
  - exact (proj1 (proj2 (opp_negates (of_ll (-42)) eq_refl))).
  - exact (proj1 (opp_negates (of_ll 0) eq_refl)).
Defined.

(** X11.  [operator*=] (and [operator*]) returns the exact product; the
    result is negative iff the signs differ and the product is not zero. *)
Theorem mul_exact (x b : int2048) :
  wf x = true -> wf b = true ->
  value (mul x b) = value x * value b /\
  neg (mul x b) = negb (Bool.eqb (neg x) (neg b)) && negb (value x * value b =? 0).
Proof.
  intros Hx Hb. pose proof (mul_value x b Hx Hb) as V. split; [exact V |].
  pose proof (mul_wf x b Hx Hb) as W.
  rewrite (wf_neg _ W), V, (wf_neg x Hx), (wf_neg b Hb).
  destruct (Z.ltb_spec (value x) 0), (Z.ltb_spec (value b) 0),
           (Z.eqb_spec (value x * value b) 0), (Z.ltb_spec (value x * value b) 0);
    cbn [Bool.eqb negb andb]; (reflexivity || nia).
Qed.

Lemma mul_exact_witness :
  value (mul (of_string "-999999999999") (of_string "999999999999"))
  = value (of_string "-999999999999") * value (of_string "999999999999").
Proof.
  exact (proj1 (mul_exact (of_string "-999999999999") (of_string "999999999999")
                  eq_refl eq_refl)).
Defined.

(** X12.  On well-formed values [operator==] holds exactly when the two
    values denote the same integer, and [operator!=] when they do not. *)
Theorem eq_op_value (x y : int2048) :
  wf x = true -> wf y = true ->
  eq_op x y = (value x =? value y) /\ ne_op x y = negb (value x =? value y).
Proof.
  intros Hx Hy. unfold ne_op.
  assert (E : eq_op x y = (value x =? value y)).
  { destruct (Z.eqb_spec (value x) (value y)) as [Ev | Nv].
    - apply eq_op_true, value_inj; assumption.
    - destruct (eq_op x y) eqn:Eo; [| reflexivity].
      apply eq_op_true in Eo. subst y. congruence. }
  rewrite E. split; reflexivity.
Qed.

Lemma eq_op_value_witness :
  eq_op (of_string "-0") (of_string "0") = true /\
  ne_op (of_string "42") (of_string "-42") = true.
Proof.
  destruct (eq_op_value (of_string "-0") (of_string "0") eq_refl eq_refl) as [E1 _].
  destruct (eq_op_value (of_string "42") (of_string "-42") eq_refl eq_refl) as [_ E2].
  split; [rewrite E1 | rewrite E2]; reflexivity.
Defined.

(** X13.  On well-formed values the relational operators are the order of
    the integers denoted, so that exactly one of [x < y], [x == y], [x > y]
    holds. *)
Theorem order_ops_value (x y : int2048) :
  wf x = true -> wf y = true ->
  lt_op x y = (value x <? value y) /\ gt_op x y = (value y <? value x) /\
  le_op x y = (value x <=? value y) /\ ge_op x y = (value y <=? value x) /\
  ((lt_op x y = true /\ eq_op x y = false /\ gt_op x y = false) \/
   (lt_op x y = false /\ eq_op x y = true /\ gt_op x y = false) \/
   (lt_op x y = false /\ eq_op x y = false /\ gt_op x y = true)).
Proof.
  intros Hx Hy. unfold gt_op, le_op, ge_op.
  rewrite (lt_op_spec x y Hx Hy), (lt_op_spec y x Hy Hx).
  assert (E : eq_op x y = (value x =? value y)).
  { destruct (Z.eqb_spec (value x) (value y)) as [Ev | Nv].
    - apply eq_op_true, value_inj; assumption.
    - destruct (eq_op x y) eqn:Eo; [| reflexivity].
      apply eq_op_true in Eo. subst y. congruence. }
  rewrite E.
  destruct (Z.ltb_spec (value x) (value y)), (Z.ltb_spec (value y) (value x)),
           (Z.leb_spec (value x) (value y)), (Z.leb_spec (value y) (value x)),
           (Z.eqb_spec (value x) (value y)); cbn [negb]; try lia;
    repeat split; tauto.
Qed.

Lemma order_ops_value_witness :
  lt_op (of_string "-10000") (of_string "-9999") = true /\
  ge_op (of_string "-10000") (of_string "-9999") = false.
Proof.
  destruct (order_ops_value (of_string "-10000") (of_string "-9999") eq_refl eq_refl)
    as [E1 [_ [_ [E2 _]]]].
  split; [rewrite E1 | rewrite E2]; reflexivity.
Defined.

Lemma wf_one : wf (of_ll 1) = true.
Proof. reflexivity. Qed.

(** X14.  Addition of well-formed values is commutative and associative,
    zero is neutral and the opposite is the additive inverse: the results
    are equal as values of the class, digit for digit. *)
Theorem add_group (x y z : int2048) :
  wf x = true -> wf y = true -> wf z = true ->
  add x y = add y x /\ add (add x y) z = add x (add y z) /\
  add x zero = x /\ add x (opp x) = zero.
Proof.
  intros Hx Hy Hz.
  pose proof (add_wf x y Hx Hy) as Wxy. pose proof (add_wf y z Hy Hz) as Wyz.
  split; [| split; [| split]]; apply value_inj;
    repeat (assumption || reflexivity || apply add_wf || apply opp_wf);
    rewrite ?add_value, ?opp_value
      by repeat (assumption || reflexivity || apply add_wf || apply opp_wf);
    cbn; lia.
Qed.

Lemma add_group_witness :
  add (of_ll (-5)) (of_ll 7) = add (of_ll 7) (of_ll (-5)) /\
  add (of_ll 9999) (opp (of_ll 9999)) = zero.
Proof.
  pose proof (add_group (of_ll (-5)) (of_ll 7) (of_ll 1) eq_refl eq_refl eq_refl) as H1.
  pose proof (add_group (of_ll 9999) (of_ll 7) (of_ll 1) eq_refl eq_refl eq_refl) as H2.
  split; [exact (proj1 H1) | exact (proj2 (proj2 (proj2 H2)))].
Defined.

(** X15.  Multiplication of well-formed values is commutative and
    associative, one is neutral, zero is absorbing and multiplication
    distributes over addition. *)
Theorem mul_ring (x y z : int2048) :
  wf x = true -> wf y = true -> wf z = true ->
  mul x y = mul y x /\ mul (mul x y) z = mul x (mul y z) /\
  mul x (of_ll 1) = x /\ mul x zero = zero /\
  mul x (add y z) = add (mul x y) (mul x z).
Proof.
  intros Hx Hy Hz.
  split; [| split; [| split; [| split]]]; apply value_inj;
    repeat (assumption || reflexivity || apply add_wf || apply mul_wf);
    rewrite ?add_value, ?mul_value, ?add_value
      by repeat (assumption || reflexivity || apply add_wf || apply mul_wf);
    cbn; lia.
Qed.

Lemma mul_ring_witness :
  mul (of_ll (-12345)) (of_ll 67890) = mul (of_ll 67890) (of_ll (-12345)) /\
  mul (of_ll (-12345)) zero = zero.
Proof.
  pose proof (mul_ring (of_ll (-12345)) (of_ll 67890) (of_ll 1)
                eq_refl eq_refl eq_refl) as H.
  split; [exact (proj1 H) | exact (proj1 (proj2 (proj2 (proj2 H))))].
Defined.

(** ** Division, remainder and native integers *)

Lemma value_nonzero (b : int2048) : wf b = true -> is_zero b = false -> value b <> 0.
Proof.
  intros Hb Hz. rewrite (is_zero_val b Hb) in Hz. apply Z.eqb_neq in Hz.
  rewrite (wf_val_abs b Hb) in Hz. lia.
Qed.

(** X16.  When dividend and divisor are not both negative (and the divisor
    is not zero), [operator%=] returns the floor remainder: it is zero or
    has the sign of the divisor, it is smaller than the divisor in
    magnitude, and [(x / b) * b + x % b == x] holds. *)
Theorem division_identity_holds (x b : int2048) :
  wf x = true -> wf b = true -> is_zero b = false -> neg x && neg b = false ->
  value (modulo x b) = value x mod value b /\
  eq_op (add (mul (div x b) b) (modulo x b)) x = true /\
  (value (modulo x b) = 0 \/ neg (modulo x b) = neg b) /\
  Z.abs (value (modulo x b)) < Z.abs (value b).
Proof.
  intros Hx Hb Hz Hs.
  destruct (modulo_floor_unless_both_negative x b Hx Hb Hz Hs) as [Hm Hid].
  pose proof (modulo_wf x b Hx Hb) as Wm.
  pose proof (value_nonzero b Hb Hz) as Hb0.
  split; [exact Hm |]. split.
  - apply eq_op_true, value_inj; [| exact Hx | exact Hid].
    apply add_wf; [apply mul_wf; [apply div_wf |] |]; assumption.
  - rewrite (wf_neg _ Wm), (wf_neg b Hb), Hm.
    destruct (Z.lt_trichotomy (value b) 0) as [L | [E | G]]; [| lia |].
    + pose proof (Z.mod_neg_bound (value x) (value b) L) as B. split; [| lia].
      destruct (Z.eq_dec (value x mod value b) 0) as [E0 | N0]; [left; exact E0 | right].
      destruct (Z.ltb_spec (value x mod value b) 0), (Z.ltb_spec (value b) 0);
        (reflexivity || lia).
    + pose proof (Z.mod_pos_bound (value x) (value b) G) as B. split; [| lia].
      right.
      destruct (Z.ltb_spec (value x mod value b) 0), (Z.ltb_spec (value b) 0);
        (reflexivity || lia).
Qed.

Lemma division_identity_holds_witness :
  value (modulo (of_string "-5") (of_string "3")) = 1 /\
  value (modulo (of_string "5") (of_string "-3")) = -1.
Proof.
  split.
  - rewrite (proj1 (division_identity_holds (of_string "-5") (of_string "3")
                      eq_refl eq_refl eq_refl eq_refl)).
    reflexivity.
  - rewrite (proj1 (division_identity_holds (of_string "5") (of_string "-3")
                      eq_refl eq_refl eq_refl eq_refl)).
    reflexivity.
Defined.

(** X17.  Division undoes multiplication: for a nonzero [b],
    [(x * b) / b] is [x] again and [(x * b) % b] is zero, whatever the
    signs; [x / 1] is [x] and [b / b] is one. *)
Theorem div_mul_cancel (x b : int2048) :
  wf x = true -> wf b = true -> is_zero b = false ->
  div (mul x b) b = x /\ modulo (mul x b) b = zero /\
  div x (of_ll 1) = x /\ div b b = of_ll 1.
Proof.
  intros Hx Hb Hz.
  pose proof (value_nonzero b Hb Hz) as Hb0.
  pose proof (mul_wf x b Hx Hb) as Wp.
  split; [| split; [| split]]; apply value_inj;
    repeat (assumption || reflexivity || apply div_wf || apply modulo_wf).
  - rewrite div_value, mul_value by assumption. apply Z.div_mul, Hb0.
  - rewrite modulo_value, mul_value by assumption.
    rewrite Z.mod_mul by exact Hb0. destruct (neg (mul x b) && neg b); reflexivity.
  - rewrite div_value by (assumption || reflexivity).
    change (value (of_ll 1)) with 1. apply Z.div_1_r.
  - rewrite div_value by assumption.
    change (value (of_ll 1)) with 1. apply Z.div_same, Hb0.
Qed.

Lemma div_mul_cancel_witness :
  div (mul (of_string "-123456789012") (of_string "-98765")) (of_string "-98765")
  = of_string "-123456789012".
Proof.
  exact (proj1 (div_mul_cancel (of_string "-123456789012") (of_string "-98765")
                  eq_refl eq_refl eq_refl)).
Defined.

Lemma in_range_wf (v : Z) : - 2 ^ 63 <= v < 2 ^ 63 -> wf (of_ll v) = true.
Proof. intros H. apply (of_ll_spec v H). Qed.

Lemma in_range_value (v : Z) : - 2 ^ 63 <= v < 2 ^ 63 -> value (of_ll v) = v.
Proof. intros H. apply (of_ll_spec v H). Qed.

(** X18.  Values built from [long long] compute like the integers, with
    no overflow: sums, differences and products of two such values are
    exact, the quotient by a nonzero one is the floor quotient, and the
    comparisons agree with those of the native numbers.  The constructor
    is injective. *)
Theorem of_ll_arithmetic (u v : Z) :
  - 2 ^ 63 <= u < 2 ^ 63 -> - 2 ^ 63 <= v < 2 ^ 63 ->
  value (add (of_ll u) (of_ll v)) = u + v /\
  value (minus (of_ll u) (of_ll v)) = u - v /\
  value (mul (of_ll u) (of_ll v)) = u * v /\
  (v <> 0 -> value (div (of_ll u) (of_ll v)) = u / v) /\
  lt_op (of_ll u) (of_ll v) = (u <? v) /\
  eq_op (of_ll u) (of_ll v) = (u =? v) /\
  (of_ll u = of_ll v -> u = v).
Proof.
  intros Hu Hv.
  pose proof (in_range_wf u Hu) as Wu. pose proof (in_range_wf v Hv) as Wv.
  pose proof (in_range_value u Hu) as Vu. pose proof (in_range_value v Hv) as Vv.
  split; [rewrite add_value, Vu, Vv by assumption; reflexivity |].
  split; [rewrite minus_value, Vu, Vv by assumption; reflexivity |].
  split; [rewrite mul_value, Vu, Vv by assumption; reflexivity |].
  split.
  { intros Hn. rewrite div_value, Vu, Vv; try assumption; [reflexivity |].
    rewrite (is_zero_val _ Wv), (wf_val_abs _ Wv), Vv. apply Z.eqb_neq. lia. }
  split; [rewrite lt_op_spec, Vu, Vv by assumption; reflexivity |].
  split.
  { destruct (Z.eqb_spec u v) as [E | N].
    - subst v. apply eq_op_true. reflexivity.
    - destruct (eq_op (of_ll u) (of_ll v)) eqn:Eo; [| reflexivity].
      apply eq_op_true in Eo. rewrite <- Vu, <- Vv, Eo in N. congruence. }
  intros E. rewrite <- Vu, <- Vv, E. reflexivity.
Qed.

Lemma of_ll_arithmetic_witness :
  value (mul (of_ll (- 2 ^ 63)) (of_ll (- 2 ^ 63))) = 2 ^ 126 /\
  value (add (of_ll (2 ^ 63 - 1)) (of_ll 1)) = 2 ^ 63.
Proof.
  assert (H1 : - 2 ^ 63 <= - 2 ^ 63 < 2 ^ 63) by (vm_compute; split; congruence).
  assert (H2 : - 2 ^ 63 <= 2 ^ 63 - 1 < 2 ^ 63) by (vm_compute; split; congruence).
  assert (H3 : - 2 ^ 63 <= 1 < 2 ^ 63) by (vm_compute; split; congruence).
  split.
  - rewrite (proj1 (proj2 (proj2 (of_ll_arithmetic _ _ H1 H1)))). reflexivity.
  - rewrite (proj1 (of_ll_arithmetic _ _ H2 H3)). reflexivity.
Defined.

(** ** Text output read back *)

Lemma chars_ok_all :
  forallb (fun v => block_chars_ok v && top_chars_ok v)
          (map Z.of_nat (seq 0 (Z.to_nat BASE))) = true.
Proof. vm_compute. reflexivity. Qed.

Lemma chars_ok (v : Z) :
  0 <= v < BASE -> block_chars_ok v = true /\ top_chars_ok v = true.
Proof.
  intros Hv. pose proof chars_ok_all as H.
  rewrite forallb_forall in H. specialize (H v).
  assert (Hin : In v (map Z.of_nat (seq 0 (Z.to_nat BASE)))).
  { rewrite <- (Z2Nat.id v) by lia. apply in_map, in_seq. lia. }
  apply H in Hin. apply andb_true_iff in Hin. exact Hin.
Qed.

Lemma list_ascii_app (s1 s2 : string) :
  list_ascii_of_string (s1 ++ s2) = list_ascii_of_string s1 ++ list_ascii_of_string s2.
Proof. induction s1 as [|c s IH]; cbn; [reflexivity | rewrite IH; reflexivity]. Qed.

Lemma string_app_nil_r (s : string) : (s ++ "")%string = s.
Proof. induction s as [|c s IH]; cbn; [reflexivity | rewrite IH; reflexivity]. Qed.

Lemma padded_blocks_snoc (l : list Z) (d : Z) :
  padded_blocks (l ++ [d]) = (padded_blocks l ++ pad4 d)%string.
Proof.
  induction l as [|e t IH]; cbn [app padded_blocks].
  - rewrite string_app_nil_r. reflexivity.
  - rewrite IH, string_app_assoc. reflexivity.
Qed.

(** The digits printed for a nonzero magnitude [rest ++ [top]]. *)
Lemma printed_digits (rest : list Z) (top : Z) :
  digits_ok rest = true -> 0 < top < BASE ->
  let t := list_ascii_of_string (show_int top ++ padded_blocks (rev rest)) in
  forallb is_digit t = true /\ decimal t = val (rest ++ [top]) /\
  exists c t', t = c :: t' /\ code c <> 48.
Proof.
  intros Hd Ht. cbv zeta. induction rest as [|d r IH].
  - cbn [rev padded_blocks app val]. rewrite string_app_nil_r.
    destruct (chars_ok top ltac:(lia)) as [_ H]. unfold top_chars_ok in H.
    cbv zeta in H. rewrite !andb_true_iff, Z.eqb_eq in H.
    destruct H as [[H1 H2] H3].
    split; [exact H1 |]. split; [rewrite H2; lia |].
    destruct (list_ascii_of_string (show_int top)) as [|c t']; [discriminate |].
    exists c, t'. split; [reflexivity |].
    apply orb_true_iff in H3. destruct H3 as [H3 | H3].
    + apply negb_true_iff, Z.eqb_neq in H3. exact H3.
    + apply Z.eqb_eq in H3. lia.
  - apply digits_ok_cons in Hd. destruct Hd as [Bd Hr]. specialize (IH Hr).
    destruct IH as [D1 [V1 [c [t' [E1 C1]]]]].
    cbn [rev]. rewrite padded_blocks_snoc, <- string_app_assoc, list_ascii_app.
    destruct (chars_ok d Bd) as [H _]. unfold block_chars_ok in H. cbv zeta in H.
    rewrite !andb_true_iff, Z.eqb_eq, Nat.eqb_eq in H. destruct H as [[H1 H2] H3].
    split; [rewrite forallb_app, D1, H1; reflexivity |].
    split.
    + rewrite decimal_app, V1, H2, H3. change (10 ^ Z.of_nat 4) with BASE.
      cbn [app val]. lia.
    + rewrite E1. exists c, (t' ++ list_ascii_of_string (pad4 d)).
      split; [reflexivity | exact C1].
Qed.

Lemma canonical_text_print (x : int2048) :
  wf x = true -> print x = canonical_text x /\ stream_out x = canonical_text x.
Proof.
  intros Hx. apply wf_elim in Hx. destruct Hx as [Hd _].
  unfold print, stream_out, canonical_text, is_zero.
  destruct (a x) as [|d0 t0] eqn:Ea using rev_ind; [split; reflexivity |].
  clear IHt0. apply digits_ok_app in Hd. destruct Hd as [Ht _].
  rewrite length_app, Nat.add_1_r, rev_app_distr.
  cbn [Nat.eqb rev app]. rewrite Nat.sub_succ, Nat.sub_0_r.
  unfold at_. rewrite nth_middle.
  rewrite print_blocks_text, stream_blocks_text by exact Ht.
  split; reflexivity.
Qed.

(** The characters printed for a well-formed value. *)
Lemma printed_chars (x : int2048) :
  wf x = true -> is_zero x = false ->
  exists ds,
    list_ascii_of_string (print x) = sign_chars (neg x) ++ ds /\
    forallb is_digit ds = true /\ decimal ds = val (a x) /\
    exists c t', ds = c :: t' /\ code c <> 48.
Proof.
  intros Hx Hz. rewrite (proj1 (canonical_text_print x Hx)).
  pose proof Hx as Hx'. apply wf_elim in Hx'. destruct Hx' as [Hd [Hc _]].
  unfold canonical_text.
  destruct (a x) as [|top rest] eqn:Ea using rev_ind.
  { apply is_zero_nil in Ea. congruence. }
  clear IHrest. rewrite canonical_snoc in Hc. apply negb_true_iff, Z.eqb_neq in Hc.
  apply digits_ok_app in Hd. destruct Hd as [Hr Ht].
  apply digits_ok_cons in Ht. destruct Ht as [Bt _].
  rewrite rev_app_distr. cbn [rev app].
  destruct (printed_digits rest top Hr ltac:(lia)) as [D [V Hhd]].
  exists (list_ascii_of_string (show_int top ++ padded_blocks (rev rest))).
  split; [| split; [exact D | split; [exact V | exact Hhd]]].
  rewrite list_ascii_app. destruct (neg x); reflexivity.
Qed.

Lemma strip_sign_printed (sg : bool) (ds : list ascii) :
  forallb is_digit ds = true -> ds <> [] ->
  strip_sign (drop_spaces (sign_chars sg ++ ds)) = (sg, ds).
Proof.
  intros Hd Hne. destruct sg; cbn [sign_chars app]; [reflexivity |].
  destruct ds as [|c t]; [congruence |].
  cbn [forallb] in Hd. apply andb_true_iff in Hd. destruct Hd as [Hc _].
  assert (Es : is_space c = false).
  { destruct (is_space c) eqn:E; [apply space_non_digit in E; congruence | reflexivity]. }
  assert (Eg : is_sign c = false).
  { destruct (is_sign c) eqn:E; [apply sign_non_digit in E; congruence | reflexivity]. }
  cbn [drop_spaces]. rewrite Es. cbn [strip_sign]. rewrite Eg. reflexivity.
Qed.

(** [read] on a text made of an optional ['-'] and a run of digits. *)
Lemma read_signed_digits (s : string) (sg : bool) (ds : list ascii) :
  list_ascii_of_string s = sign_chars sg ++ ds ->
  forallb is_digit ds = true -> ds <> [] ->
  val (a (read s)) = decimal ds /\
  neg (read s) = sg && negb (decimal ds =? 0) /\ wf (read s) = true.
Proof.
  intros Ecs Hd Hne. pose proof (read_wf s) as W.
  split; [| split; [| exact W]]; clear W; unfold read;
    destruct (read_sign_spec (list_ascii_of_string s)) as [pre [Hcs [Hrs _]]];
    rewrite Hrs; clear Hrs;
    rewrite Ecs, (strip_sign_printed sg ds Hd Hne) in Hcs;
    rewrite Ecs, (strip_sign_printed sg ds Hd Hne); cbn [fst snd] in *;
    rewrite Hcs; clear Hcs Ecs s;
    pose proof (last_digit_run pre [] ds [] eq_refl Hd eq_refl) as Hl;
    cbn [app] in Hl; rewrite app_nil_r in Hl; rewrite Hl; clear Hl;
    (destruct (Nat.eqb_spec (length ds) 0) as [E0 | _];
      [apply length_zero_iff_nil in E0; congruence |]);
    assert (Hlen : (0 < length ds)%nat) by (destruct ds; [congruence | cbn; lia]);
    (destruct (Z.ltb_spec (Z.of_nat (length pre) + Z.of_nat (length ds) - 1)
                          (Z.of_nat (length pre))) as [Lt | Ge]; [lia |]);
    destruct (read_blocks_spec (length (pre ++ ds)) pre [] ds []
                (Z.of_nat (length pre) + Z.of_nat (length ds) - 1) [] eq_refl Hd
                ltac:(rewrite !length_app; cbn; lia) ltac:(cbn [app]; lia))
      as [bs [Hr [Hok Hv]]];
    cbn [app] in Hr; rewrite app_nil_r in Hr; rewrite Hr; clear Hr;
    pose proof (trim_wf (Int2048 bs sg) Hok) as Wt;
    pose proof (is_zero_val _ Wt) as Hz; rewrite a_trim in Hz; cbn [a] in Hz;
    rewrite val_strip, Hv in Hz.
  - destruct (is_zero (trim (Int2048 bs sg))); cbn [a];
      rewrite a_trim; cbn [a]; rewrite val_strip; exact Hv.
  - rewrite Hz. destruct (Z.eqb_spec (decimal ds) 0) as [E0 | N0].
    + cbn [neg negb]. rewrite andb_false_r. reflexivity.
    + cbn [negb]. rewrite andb_true_r. unfold trim. cbn [a neg].
      unfold is_zero in Hz. unfold trim in Hz. cbn [a] in Hz. rewrite Hz.
      reflexivity.
Qed.

(** X19.  Reading back what [print] or [operator<<] wrote gives the value
    that was printed. *)
Theorem read_print_roundtrip (x : int2048) :
  wf x = true -> read (print x) = x /\ read (stream_out x) = x.
Proof.
  intros Hx.
  assert (E : read (print x) = x).
  { destruct (is_zero x) eqn:Hz.
    - rewrite (wf_is_zero x Hx Hz). reflexivity.
    - destruct (printed_chars x Hx Hz) as [ds [Ecs [Hd [Hv [c [t' [Eds Hc]]]]]]].
      destruct (read_signed_digits (print x) (neg x) ds Ecs Hd
                  ltac:(rewrite Eds; discriminate)) as [V [N W]].
      apply wf_eq; [exact W | exact Hx | congruence |].
      rewrite N, Hv, <- (is_zero_val x Hx), Hz. apply andb_true_r. }
  split; [exact E |].
  destruct (canonical_text_print x Hx) as [E1 E2]. rewrite E2, <- E1. exact E.
Qed.

Lemma read_print_roundtrip_witness :
  read (print (of_string "-100020003000400005")) = of_string "-100020003000400005".
Proof.
  exact (proj1 (read_print_roundtrip (of_string "-100020003000400005") eq_refl)).
Defined.

(** X20.  The text printed for a well-formed value is an optional ['-']
    (present exactly for negative values) followed by the decimal digits of
    its magnitude, without a leading ['0'] unless the value is zero, whose
    text is ["0"]. *)
Theorem print_decimal_text (x : int2048) :
  wf x = true ->
  exists ds,
    list_ascii_of_string (print x) = sign_chars (neg x) ++ ds /\
    forallb is_digit ds = true /\ decimal ds = Z.abs (value x) /\
    ((is_zero x = true /\ ds = ["0"%char]) \/
     (is_zero x = false /\ exists c t, ds = c :: t /\ code c <> 48)).
Proof.
  intros Hx. destruct (is_zero x) eqn:Hz.
  - rewrite (wf_is_zero x Hx Hz). exists ["0"%char].
    repeat split. left. split; reflexivity.
  - destruct (printed_chars x Hx Hz) as [ds [Ecs [Hd [Hv Hhd]]]].
    exists ds. split; [exact Ecs |]. split; [exact Hd |].
    split; [rewrite Hv; apply wf_val_abs, Hx |]. right. split; [reflexivity | exact Hhd].
Qed.

Lemma print_decimal_text_witness :
  exists ds,
    list_ascii_of_string (print (of_ll (-10000))) = sign_chars true ++ ds /\
    decimal ds = 10000.
Proof.
  destruct (print_decimal_text (of_ll (-10000)) eq_refl) as [ds [E [_ [V _]]]].
  exists ds. split; [exact E | exact V].
Defined.

(** ** [sub_abs] outside and inside its precondition *)

(** X21.  [sub_abs] undoes [add_abs].  It relies on its precondition: when
    [|x| < |y|] (with [y] no longer than [x]) the final borrow is dropped
    and the result is the well-formed magnitude [|x| - |y| + BASE^n], [n]
    the number of blocks of [x], not a negative number. *)
Theorem sub_abs_wraps (x y : int2048) :
  wf x = true -> wf y = true ->
  sub_abs (add_abs x y) y = abs_copy x /\
  ((length (a y) <= length (a x))%nat -> val (a x) < val (a y) ->
   wf (sub_abs x y) = true /\
   val (a (sub_abs x y)) = val (a x) - val (a y) + BASE ^ Z.of_nat (length (a x))).
Proof.
  intros Hx Hy. pose proof Hx as Hx'. pose proof Hy as Hy'.
  apply wf_elim in Hx', Hy'. destruct Hx' as [Hdx _], Hy' as [Hdy _].
  pose proof (val_nonneg _ Hdx) as Nx. pose proof (val_nonneg _ Hdy) as Ny.
  split.
  - destruct (add_abs_spec x y Hx Hy) as [W [_ V]].
    pose proof (length_le_of_val_le (add_abs x y) y W Hy ltac:(lia)) as Hl.
    destruct (sub_abs_wf (add_abs x y) y (proj1 (wf_elim _ W)) Hdy Hl) as [Ws Ns].
    apply wf_eq; [exact Ws | apply abs_copy_wf, Hx | | exact Ns].
    rewrite sub_abs_val by (assumption || lia). rewrite V.
    change (val (a (abs_copy x))) with (val (a x)). lia.
  - intros Hl Hlt. destruct (sub_abs_wf x y Hdx Hdy Hl) as [W _].
    split; [exact W |].
    destruct (sub_loop_spec (length (a x)) 0 (a x) (a y) 0 Hdx Hdy
                ltac:(lia) ltac:(lia) ltac:(lia)) as [Hlen [Hd [b [Hb Hv]]]].
    rewrite a_sub_abs, val_strip, Hv. cbn [skipn].
    pose proof (val_bound _ Hd) as Br. rewrite Hlen, Hv in Br. cbn [skipn] in Br.
    pose proof (BASE_pow_pos (length (a x))) as Pp.
    set (P := BASE ^ Z.of_nat (length (a x))) in *.
    assert (b = 1) by nia. subst b. lia.
Qed.

Lemma sub_abs_wraps_witness :
  sub_abs (add_abs (of_ll 99999999) (of_ll 12345)) (of_ll 12345) = abs_copy (of_ll 99999999) /\
  val (a (sub_abs (of_ll 3) (of_ll 5))) = 3 - 5 + BASE ^ 1.
Proof.
  split.
  - exact (proj1 (sub_abs_wraps (of_ll 99999999) (of_ll 12345) eq_refl eq_refl)).
  - exact (proj2 (proj2 (sub_abs_wraps (of_ll 3) (of_ll 5) eq_refl eq_refl)
                    ltac:(cbn; lia) ltac:(vm_compute; reflexivity))).
Defined.

(** ** [read] on arbitrary text *)

Lemma blocks_of_rev_fuel (f1 : nat) : forall (f2 : nat) (r : list ascii),
  (length r <= f1)%nat -> (length r <= f2)%nat ->
  blocks_of_rev f1 r = blocks_of_rev f2 r.
Proof.
  induction f1 as [|f1 IH]; intros f2 r H1 H2.
  - destruct r; [destruct f2; reflexivity | simpl in H1; lia].
  - destruct f2 as [|f2]; [destruct r; [reflexivity | simpl in H2; lia] |].
    cbn [blocks_of_rev]. destruct r as [|c t]; [reflexivity |].
    f_equal. apply IH; rewrite length_skipn; cbn [length] in *; lia.
Qed.

Lemma rev_last_block (r1 r2 : list ascii) :
  r2 <> [] -> length r2 = Nat.min 4 (length (r1 ++ r2)) ->
  firstn 4 (rev (r1 ++ r2)) = rev r2 /\ skipn 4 (rev (r1 ++ r2)) = rev r1.
Proof.
  intros Hne L. rewrite length_app in L. rewrite rev_app_distr.
  destruct (Nat.le_gt_cases 4 (length r1 + length r2)) as [G | S4].
  - assert (E : length (rev r2) = 4%nat) by (rewrite length_rev; lia).
    rewrite <- E. rewrite firstn_app, skipn_app, Nat.sub_diag.
    rewrite firstn_all, skipn_all. cbn [firstn skipn app]. rewrite app_nil_r.
    split; reflexivity.
  - assert (r1 = []) by (apply length_zero_iff_nil; lia). subst r1.
    cbn [rev app]. rewrite app_nil_r.
    rewrite firstn_all2, skipn_all2 by (rewrite length_rev; lia).
    split; reflexivity.
Qed.

Lemma text_blocks_snoc (r1 r2 : list ascii) :
  r2 <> [] -> length r2 = Nat.min 4 (length (r1 ++ r2)) ->
  text_blocks (r1 ++ r2) = fold_left guarded_step r2 0 :: text_blocks r1.
Proof.
  intros Hne L. destruct (rev_last_block r1 r2 Hne L) as [F4 S4].
  unfold text_blocks.
  assert (Hlen : length (rev (r1 ++ r2)) = length (r1 ++ r2)) by apply length_rev.
  destruct (length (r1 ++ r2)) as [|n] eqn:En.
  { rewrite length_app in En. destruct r2; [congruence | cbn [length] in En; lia]. }
  destruct (rev (r1 ++ r2)) as [|c0 t0] eqn:Er; [discriminate |].
  cbn [blocks_of_rev]. rewrite F4, S4, rev_involutive. f_equal.
  apply blocks_of_rev_fuel; rewrite length_rev; [| lia].
  rewrite length_app in En. destruct r2; [congruence | cbn [length] in En; lia].
Qed.

(** The block loop of [read] produces the blocks of the text between [i]
    and [p]. *)
Lemma read_blocks_text (fuel : nat) :
  forall (pre mid post : list ascii) (p : Z) (acc : list Z),
  (length mid <= fuel)%nat ->
  Z.to_nat (p - Z.of_nat (length pre) + 1) = length mid ->
  read_blocks fuel (pre ++ mid ++ post) (Z.of_nat (length pre)) p acc
  = acc ++ text_blocks mid.
Proof.
  induction fuel as [|f IH]; intros pre mid post p acc Hl Hp.
  - assert (mid = []) by (apply length_zero_iff_nil; lia). subst mid.
    cbn [read_blocks]. symmetry. apply app_nil_r.
  - cbn [read_blocks]. destruct (Z.geb_spec p (Z.of_nat (length pre))) as [Ge | Lt].
    + destruct (split_last_block mid) as [r1 [r2 [E [L2 L1]]]].
      assert (Hn : (1 <= length mid)%nat) by lia.
      assert (Hne : r2 <> []) by (intros ->; cbn [length] in L2; lia).
      assert (L2' : length r2 = Nat.min 4 (length (r1 ++ r2))) by (rewrite <- E; exact L2).
      remember (length mid) as n eqn:En. clear En. subst mid.
      rewrite (text_blocks_snoc r1 r2 Hne L2').
      unfold BASE_DIGS.
      assert (El : (if p - (4 - 1) <? Z.of_nat (length pre)
                    then Z.of_nat (length pre) else p - (4 - 1))
                   = Z.of_nat (length (pre ++ r1))).
      { rewrite length_app, L1.
        destruct (Z.ltb_spec (p - (4 - 1)) (Z.of_nat (length pre))); lia. }
      rewrite El.
      replace (Z.to_nat (p - Z.of_nat (length (pre ++ r1)) + 1)) with (length r2)
        by (rewrite length_app, L1, L2; lia).
      replace (pre ++ (r1 ++ r2) ++ post) with ((pre ++ r1) ++ r2 ++ post)
        by (rewrite <- !app_assoc; reflexivity).
      rewrite block_value_spec.
      replace ((pre ++ r1) ++ r2 ++ post) with (pre ++ r1 ++ (r2 ++ post))
        by (rewrite <- !app_assoc; reflexivity).
      rewrite IH by lia. rewrite <- app_assoc. reflexivity.
    + assert (mid = []) by (apply length_zero_iff_nil; lia). subst mid.
      symmetry. apply app_nil_r.
Qed.

Lemma rstrip_prefix (l : list ascii) :
  exists tl, l = rstrip l ++ tl /\ forallb non_digit tl = true.
Proof.
  induction l as [|c t IH] using rev_ind.
  - exists []. split; reflexivity.
  - destruct (is_digit c) eqn:E.
    + exists []. rewrite rstrip_snoc_digit by exact E. rewrite app_nil_r.
      split; reflexivity.
    + destruct IH as [tl [E1 E2]]. exists (tl ++ [c]).
      rewrite rstrip_snoc_non_digit by exact E. rewrite app_assoc, <- E1.
      split; [reflexivity |].
      rewrite forallb_app, E2. cbn. unfold non_digit. rewrite E. reflexivity.
Qed.

Lemma trim_fix_sign (y : int2048) :
  (if is_zero (trim y) then Int2048 (a (trim y)) false else trim y) = trim y.
Proof.
  destruct (is_zero (trim y)) eqn:E; [| reflexivity].
  unfold is_zero in E. unfold trim in *. cbn [a neg] in *. rewrite E. reflexivity.
Qed.

(** What [read] computes on any text. *)
Lemma read_as_blocks (s : string) :
  read s =
  trim (Int2048 (text_blocks (rstrip (snd (strip_sign (drop_spaces (list_ascii_of_string s))))))
                (fst (strip_sign (drop_spaces (list_ascii_of_string s))))).
Proof.
  unfold read.
  destruct (read_sign_spec (list_ascii_of_string s)) as [pre [Hcs [Hrs _]]].
  rewrite Hrs. clear Hrs.
  set (ng := fst (strip_sign (drop_spaces (list_ascii_of_string s)))) in *.
  set (body := snd (strip_sign (drop_spaces (list_ascii_of_string s)))) in *.
  clearbody ng body. rewrite Hcs. clear Hcs s.
  pose proof (last_digit_spec (length (pre ++ body)) pre body []) as Hl.
  rewrite app_nil_r in Hl.
  replace (Z.of_nat (length (pre ++ body)) - 1)
    with (Z.of_nat (length pre) + Z.of_nat (length body) - 1)
    by (rewrite length_app; lia).
  rewrite Hl by (rewrite length_app; lia). clear Hl.
  destruct (rstrip_prefix body) as [tl [Eb _]].
  destruct (Z.ltb_spec (Z.of_nat (length pre) + Z.of_nat (length (rstrip body)) - 1)
                       (Z.of_nat (length pre))) as [Lt | Ge].
  - assert (E : rstrip body = []) by (apply length_zero_iff_nil; lia).
    rewrite E. reflexivity.
  - pose proof (read_blocks_text (length (pre ++ body)) pre (rstrip body) tl
                  (Z.of_nat (length pre) + Z.of_nat (length (rstrip body)) - 1) []) as Hb.
    rewrite <- Eb in Hb. rewrite Hb.
    + cbn [app]. apply trim_fix_sign.
    + rewrite Eb at 2. rewrite !length_app. lia.
    + lia.
Qed.

(** X22.  On any text [read] skips the leading blanks, takes one optional
    sign, drops the non-digit characters at the end and cuts what is left
    into groups of four characters from its end; each group is read as a
    decimal number in which non-digit characters are passed over, and the
    groups are the base-10000 blocks of the result, least significant
    first, before trimming. *)
Theorem read_text_blocks (s : string) :
  let cs := list_ascii_of_string s in
  let ng := fst (strip_sign (drop_spaces cs)) in
  let body := snd (strip_sign (drop_spaces cs)) in
  read s = trim (Int2048 (text_blocks (rstrip body)) ng) /\
  value (read s) = (if ng then -1 else 1) * val (text_blocks (rstrip body)).
Proof.
  cbv zeta. split; [apply read_as_blocks |].
  rewrite read_as_blocks, value_trim. unfold value. cbn [a neg].
  destruct (fst _); lia.
Qed.

Lemma drop_spaces_app (l1 l2 : list ascii) :
  drop_spaces (l1 ++ l2) =
  match drop_spaces l1 with
  | [] => drop_spaces l2
  | c :: t => (c :: t) ++ l2
  end.
Proof.
  induction l1 as [|c t IH]; cbn [app drop_spaces].
  - destruct (drop_spaces l2); reflexivity.
  - destruct (is_space c); [exact IH | reflexivity].
Qed.

Lemma drop_spaces_non_digit (l : list ascii) :
  forallb non_digit l = true -> forallb non_digit (drop_spaces l) = true.
Proof.
  induction l as [|c t IH]; intros H; [reflexivity |].
  cbn [drop_spaces]. destruct (is_space c); [| exact H].
  cbn [forallb] in H. apply andb_true_iff in H. apply IH, H.
Qed.

Lemma strip_sign_non_digit (l : list ascii) :
  forallb non_digit l = true -> forallb non_digit (snd (strip_sign l)) = true.
Proof.
  destruct l as [|c t]; intros H; [reflexivity |].
  cbn [strip_sign]. destruct (is_sign c); cbn [snd]; [| exact H].
  cbn [forallb] in H. apply andb_true_iff in H. tauto.
Qed.

Lemma drop_spaces_all (l : list ascii) :
  forallb is_space l = true -> forall l2, drop_spaces (l ++ l2) = drop_spaces l2.
Proof.
  induction l as [|c t IH]; intros H l2; [reflexivity |].
  cbn [forallb] in H. apply andb_true_iff in H. destruct H as [Hc Ht].
  cbn [app drop_spaces]. rewrite Hc. apply IH, Ht.
Qed.

(** X23.  Blanks in front of the text and non-digit characters behind it
    do not matter to [read]. *)
Theorem read_ignores_noise (ws s junk : string) :
  forallb is_space (list_ascii_of_string ws) = true ->
  forallb non_digit (list_ascii_of_string junk) = true ->
  read (ws ++ s ++ junk) = read s.
Proof.
  intros Hw Hj. rewrite !read_as_blocks, !list_ascii_app.
  rewrite (drop_spaces_all _ Hw), drop_spaces_app.
  set (cs := list_ascii_of_string s). set (jk := list_ascii_of_string junk) in *.
  destruct (drop_spaces cs) as [|c t] eqn:Ed.
  - (* nothing but blanks in [s]: no digit is left *)
    pose proof (strip_sign_non_digit _ (drop_spaces_non_digit jk Hj)) as Hn.
    rewrite (rstrip_junk _ Hn). cbn [strip_sign snd fst rstrip rev drop_nondigits].
    unfold text_blocks. cbn [length rev blocks_of_rev].
    destruct (fst (strip_sign (drop_spaces jk))); reflexivity.
  - cbn [strip_sign app]. destruct (is_sign c); cbn [fst snd].
    + rewrite rstrip_app_junk by exact Hj. reflexivity.
    + change (c :: t ++ jk) with ((c :: t) ++ jk).
      rewrite rstrip_app_junk by exact Hj. reflexivity.
Qed.

Lemma read_ignores_noise_witness :
  read ("  " ++ "-12a34" ++ "xy ") = read "-12a34".
Proof. exact (read_ignores_noise "  " "-12a34" "xy " eq_refl eq_refl). Defined.
